(** * StartupMonkey benchmarking framework: a shallow embedding

    The development follows the three Python modules of
    [benchmarking/framework]:

    - [collector_client.py]  ([CollectorClient.aggregate_metrics] and the
      message handler of [CollectorClient.start_collecting]),
    - [locust_collector.py]  ([LocustCollector.extract_metrics]),
    - [benchmark_runner.py]  ([BenchmarkRunner.run_single_test],
      [BenchmarkRunner.run_benchmark_suite], the methods they call and the
      reading of [--users] in [main]),

    and, of [database.py], the row [insert_collector_metrics] inserts.

    Python values are an inductive type, dictionaries are insertion-ordered
    association lists, exceptions are an explicit result type, and the
    runner, which talks to a database, a message bus and a child process,
    is a state-and-exception monad over a world that records every call it
    makes.

    Numbers: a Python [int] is a [Z]; a Python [float] is an exact rational
    [Q].  The binary rounding of IEEE doubles is not modelled: floats are
    added and divided exactly, [float_round] rounds the exact value, and
    no operation overflows.  What is stated below of a sum taken in
    another order, or of a mean in closed form, is therefore stated of
    ints only, where Python is exact as well. *)

From Stdlib Require Import String Ascii List ZArith QArith Lia Bool Permutation.
From Stdlib Require Import DecimalString.
From Stdlib Require DecimalZ.
Import ListNotations.

Set Warnings "-register-all".
Local Open Scope Z_scope.

(* ================================================================== *)
(** * Python values, exceptions and the few builtins the code uses     *)
(* ================================================================== *)

Module Py.

(** The exception classes that occur; all derive from [Exception].
    [ExternalError] stands for whatever a collaborator outside the code
    (database driver, NATS client, operating system) raises. *)
Inductive exn : Type :=
| TypeError
| ValueError
| AttributeError
| ZeroDivisionError
| TimeoutExpired
| ExternalError (what : string).

(** What evaluating an expression or running a statement gives. *)
Inductive outcome (A : Type) : Type :=
| Ret (a : A)
| Raise (e : exn).
Arguments Ret {A} a.
Arguments Raise {A} e.

Definition obind {A B} (m : outcome A) (k : A -> outcome B) : outcome B :=
  match m with
  | Ret a => k a
  | Raise e => Raise e
  end.

(** The values [json.loads] and [csv.DictReader] hand to the code. *)
Inductive pyval : Type :=
| PNone
| PBool (b : bool)
| PInt (z : Z)
| PFloat (q : Q)
| PStr (s : string)
| PList (l : list pyval)
| PDict (d : list (string * pyval)).

(** A [dict] with string keys, in insertion order. *)
Definition dict : Type := list (string * pyval).

Fixpoint dict_lookup (d : dict) (k : string) : option pyval :=
  match d with
  | [] => None
  | (k', v) :: d' => if String.eqb k' k then Some v else dict_lookup d' k
  end.

(** [d.get(k, default)] *)
Definition dict_get (d : dict) (k : string) (default : pyval) : pyval :=
  match dict_lookup d k with
  | Some v => v
  | None => default
  end.

(** [d[k] = v] *)
Fixpoint dict_set (d : dict) (k : string) (v : pyval) : dict :=
  match d with
  | [] => [(k, v)]
  | (k', v') :: d' =>
      if String.eqb k' k then (k, v) :: d' else (k', v') :: dict_set d' k v
  end.

(** [x.get(k, default)] on an arbitrary value: only a dict has [get]. *)
Definition py_get (x : pyval) (k : string) (default : pyval) : outcome pyval :=
  match x with
  | PDict d => Ret (dict_get d k default)
  | _ => Raise AttributeError
  end.

(** Truth value testing ([if x:], [any], [not x]). *)
Definition truthy (x : pyval) : bool :=
  match x with
  | PNone => false
  | PBool b => b
  | PInt z => negb (z =? 0)
  | PFloat q => negb (Qnum q =? 0)
  | PStr s => negb (String.eqb s EmptyString)
  | PList l => match l with [] => false | _ :: _ => true end
  | PDict d => match d with [] => false | _ :: _ => true end
  end.

(** [any(xs)] *)
Definition py_any (xs : list pyval) : bool := existsb truthy xs.

(** The integers among the values ([bool] is a subclass of [int]). *)
Definition as_int (x : pyval) : option Z :=
  match x with
  | PBool b => Some (if b then 1 else 0)
  | PInt z => Some z
  | _ => None
  end.

(** The real numbers among the values. *)
Definition as_number (x : pyval) : option Q :=
  match x with
  | PBool b => Some (inject_Z (if b then 1 else 0))
  | PInt z => Some (inject_Z z)
  | PFloat q => Some q
  | _ => None
  end.

(** [x > 0] *)
Definition py_gt0 (x : pyval) : outcome bool :=
  match as_number x with
  | Some q => Ret (0 <? Qnum q)
  | None => Raise TypeError
  end.

(** [a + b] with a number on the left, as inside [sum], whose accumulator
    starts at the int [0]: int + int is an int, any float makes a float,
    anything else is a [TypeError].  Ints are added as Python adds them;
    floats are added exactly, where Python rounds each sum to a double. *)
Definition py_add (a b : pyval) : outcome pyval :=
  match as_int a, as_int b with
  | Some x, Some y => Ret (PInt (x + y))
  | _, _ =>
      match as_number a, as_number b with
      | Some x, Some y => Ret (PFloat (Qplus x y))
      | _, _ => Raise TypeError
      end
  end.

(** [sum(xs)] *)
Fixpoint py_sum_from (acc : pyval) (xs : list pyval) : outcome pyval :=
  match xs with
  | [] => Ret acc
  | x :: xs' => obind (py_add acc x) (fun acc' => py_sum_from acc' xs')
  end.

Definition py_sum (xs : list pyval) : outcome pyval := py_sum_from (PInt 0) xs.

(** [total / n] for a number [total] and a length [n]: true division,
    always a float.  The quotient is the exact one, where Python rounds it
    to a double and raises an [OverflowError] if it is too large for
    one. *)
Definition py_truediv (total : pyval) (n : nat) : outcome Q :=
  match as_number total with
  | None => Raise TypeError
  | Some q =>
      match n with
      | O => Raise ZeroDivisionError
      | S _ => Ret (Qdiv q (inject_Z (Z.of_nat n)))
      end
  end.

(** [int(x)] for a float [x]: truncation towards zero, here of the exact
    value. *)
Definition float_trunc (q : Q) : Z := Z.quot (Qnum q) (Zpos (Qden q)).

(** The integer nearest to [n / d], ties going to the even one. *)
Definition round_half_even (n : Z) (d : positive) : Z :=
  let fl := n / Zpos d in
  match 2 * (n mod Zpos d) ?= Zpos d with
  | Lt => fl
  | Gt => fl + 1
  | Eq => if Z.even fl then fl else fl + 1
  end.

(** [round(x, ndigits)] for a float [x], here of the exact value. *)
Definition float_round (q : Q) (ndigits : nat) : Q :=
  let scale := Z.to_pos (10 ^ Z.of_nat ndigits) in
  Qred (Qmake (round_half_even (Qnum q * Zpos scale) (Qden q)) scale).

End Py.

(* ================================================================== *)
(** * collector_client.py                                              *)
(* ================================================================== *)

Module CollectorClient.
Import Py.

(** The small dicts the loop appends:
    [{'active': .., 'max': ..}], [{'sequential': .., 'index': 0}] and
    [{'query': .., 'connection': .., 'cache': .., 'overall': ..}]. *)
Record connection_sample : Type :=
  { active : pyval; max : pyval }.

Record scan_sample : Type :=
  { sequential : pyval; index : pyval }.

Record health_sample : Type :=
  { query : pyval; connection : pyval; cache : pyval; overall : pyval }.

(** The four local lists of [aggregate_metrics]. *)
Record samples : Type :=
  { connection_samples : list connection_sample;
    cache_samples : list pyval;
    scan_samples : list scan_sample;
    health_samples : list health_sample }.

Definition no_samples : samples :=
  {| connection_samples := []; cache_samples := [];
     scan_samples := []; health_samples := [] |}.

(** The [if measurements:] block of the loop body. *)
Definition parse_measurements (acc : samples) (measurements : pyval)
  : outcome samples :=
  obind (py_get measurements "active_connections" (PInt 0)) (fun a =>
  obind (py_get measurements "max_connections" (PInt 100)) (fun m =>
  let conn := connection_samples acc ++ [{| active := a; max := m |}] in
  obind (py_get measurements "cache_hit_rate" (PInt 0)) (fun cache_rate =>
  obind (py_gt0 cache_rate) (fun positive =>
  let cach :=
    if positive then cache_samples acc ++ [cache_rate] else cache_samples acc in
  obind (py_get measurements "sequential_scans" (PInt 0)) (fun s =>
  let scan := scan_samples acc ++ [{| sequential := s; index := PInt 0 |}] in
  Ret {| connection_samples := conn; cache_samples := cach;
         scan_samples := scan; health_samples := health_samples acc |}))))).

(** The health-score part of the loop body. *)
Definition parse_health (acc : samples) (metric : dict) : samples :=
  let connection_health := dict_get metric "connection_health" (PInt 0) in
  let query_health := dict_get metric "query_health" (PInt 0) in
  let cache_health := dict_get metric "cache_health" (PInt 0) in
  let overall_health := dict_get metric "health_score" (PInt 0) in
  if py_any [connection_health; query_health; cache_health; overall_health]
  then
    {| connection_samples := connection_samples acc;
       cache_samples := cache_samples acc;
       scan_samples := scan_samples acc;
       health_samples :=
         health_samples acc ++
           [{| query := query_health; connection := connection_health;
               cache := cache_health; overall := overall_health |}] |}
  else acc.

(** One iteration of [for metric in self.metrics_buffer]. *)
Definition loop_body (acc : samples) (metric : dict) : outcome samples :=
  let measurements := dict_get metric "measurements" (PDict []) in
  obind (if truthy measurements
         then parse_measurements acc measurements
         else Ret acc) (fun acc' =>
  Ret (parse_health acc' metric)).

Fixpoint loop (acc : samples) (buffer : list dict) : outcome samples :=
  match buffer with
  | [] => Ret acc
  | metric :: rest => obind (loop_body acc metric) (fun acc' => loop acc' rest)
  end.

(** [int(sum(xs) / len(xs))] *)
Definition int_mean (xs : list pyval) : outcome pyval :=
  obind (py_sum xs) (fun total =>
  obind (py_truediv total (length xs)) (fun avg =>
  Ret (PInt (float_trunc avg)))).

(** [round(sum(xs) / len(xs), ndigits)] *)
Definition round_mean (xs : list pyval) (ndigits : nat) : outcome pyval :=
  obind (py_sum xs) (fun total =>
  obind (py_truediv total (length xs)) (fun avg =>
  Ret (PFloat (float_round avg ndigits)))).

(** The "Calculate averages" part: one [if ..._samples:] block each. *)
Definition average_connections (s : samples) (aggregated : dict)
  : outcome dict :=
  match connection_samples s with
  | [] => Ret aggregated
  | first :: _ =>
      obind (int_mean (map active (connection_samples s))) (fun a =>
      let aggregated := dict_set aggregated "active_connections" a in
      Ret (dict_set aggregated "max_connections" (max first)))
  end.

Definition average_cache (s : samples) (aggregated : dict) : outcome dict :=
  match cache_samples s with
  | [] => Ret aggregated
  | _ :: _ =>
      obind (round_mean (cache_samples s) 4) (fun c =>
      Ret (dict_set aggregated "cache_hit_rate" c))
  end.

Definition average_scans (s : samples) (aggregated : dict) : outcome dict :=
  match scan_samples s with
  | [] => Ret aggregated
  | _ :: _ =>
      obind (int_mean (map sequential (scan_samples s))) (fun q =>
      let aggregated := dict_set aggregated "sequential_scans" q in
      Ret (dict_set aggregated "index_scans" (PInt 0)))
  end.

Definition average_health (s : samples) (aggregated : dict) : outcome dict :=
  match health_samples s with
  | [] => Ret aggregated
  | _ :: _ =>
      obind (round_mean (map query (health_samples s)) 2) (fun q =>
      let aggregated := dict_set aggregated "query_health" q in
      obind (round_mean (map connection (health_samples s)) 2) (fun c =>
      let aggregated := dict_set aggregated "connection_health" c in
      obind (round_mean (map cache (health_samples s)) 2) (fun h =>
      let aggregated := dict_set aggregated "cache_health" h in
      obind (round_mean (map overall (health_samples s)) 2) (fun o =>
      Ret (dict_set aggregated "overall_health" o)))))
  end.

(** [CollectorClient.aggregate_metrics], on the buffer [self.metrics_buffer]
    (every buffered message is a JSON object: the message handler drops
    anything it cannot stamp with ['_received_at']).  [Ret None] is the
    Python [None]. *)
Definition aggregate_metrics (metrics_buffer : list dict)
  : outcome (option dict) :=
  match metrics_buffer with
  | [] => Ret None
  | _ :: _ =>
      obind (loop no_samples metrics_buffer) (fun s =>
      obind (average_connections s []) (fun aggregated =>
      obind (average_cache s aggregated) (fun aggregated =>
      obind (average_scans s aggregated) (fun aggregated =>
      obind (average_health s aggregated) (fun aggregated =>
      Ret (Some aggregated))))))
  end.

(** ** The message handler of [start_collecting] *)

(** [data[k] = v] with a string [k]: only a dict takes it, every other
    JSON value raises a [TypeError]. *)
Definition py_setitem (data : pyval) (k : string) (v : pyval) : outcome dict :=
  match data with
  | PDict d => Ret (dict_set d k v)
  | _ => Raise TypeError
  end.

Section Handler.

(** A NATS message, and [json.loads(msg.data.decode())] on it, which
    raises on bytes that are not UTF-8 or not JSON. *)
Variable msg : Type.
Variable json_loads : msg -> outcome pyval.

(** One call of [message_handler] on [self.metrics_buffer]; [utcnow] is
    what [datetime.utcnow().isoformat()] gives at that moment.  The
    [except Exception] branch only logs. *)
Definition message_handler (metrics_buffer : list dict) (m : msg)
    (utcnow : string) : outcome (list dict) :=
  match
    obind (json_loads m) (fun data =>
    obind (py_setitem data "_received_at" (PStr utcnow)) (fun data =>
    Ret (metrics_buffer ++ [data])%list))
  with
  | Ret buffer => Ret buffer
  | Raise _ => Ret metrics_buffer
  end.

(** The NATS client calling the handler once per message, in order of
    arrival; a handler that raised would end the deliveries there. *)
Fixpoint deliver (metrics_buffer : list dict) (arrivals : list (msg * string))
  : outcome (list dict) :=
  match arrivals with
  | [] => Ret metrics_buffer
  | (m, utcnow) :: rest =>
      obind (message_handler metrics_buffer m utcnow) (fun buffer =>
      deliver buffer rest)
  end.

End Handler.

(** ** Sample buffers used in the statements below *)

Definition measurement_sample (fields : dict) : dict :=
  [("measurements", PDict fields)]%string.

(** Scenario 2 of the specification: five samples whose
    [measurements.cache_hit_rate] is 0.9, 0.0, 0.8, 0.0, 0.95. *)
Definition scenario2 : list dict :=
  map (fun r => measurement_sample [("cache_hit_rate", PFloat r)]%string)
      [9 # 10; 0 # 1; 8 # 10; 0 # 1; 95 # 100]%Q.

End CollectorClient.

(* ================================================================== *)
(** * locust_collector.py                                              *)
(* ================================================================== *)

Module LocustCollector.
Import Py.
Local Open Scope string_scope.

(** [int(s)] and [float(s)] on a string are Python builtins; what they
    accept is a parameter of the development.  [None] is a [ValueError]. *)
Class StrParsers : Type :=
  { int_of_str : string -> option Z;
    float_of_str : string -> option Q }.

(** ** Strings *)

(** The code points below 256 that [str.strip] removes. *)
Definition is_space (c : ascii) : bool :=
  let n := nat_of_ascii c in
  ((9 <=? n) && (n <=? 13) || (28 <=? n) && (n <=? 32)
   || (n =? 133) || (n =? 160))%nat.

Fixpoint lstrip (s : string) : string :=
  match s with
  | EmptyString => EmptyString
  | String c s' => if is_space c then lstrip s' else s
  end.

Definition reverse (s : string) : string :=
  string_of_list_ascii (rev (list_ascii_of_string s)).

(** [s.strip()] *)
Definition strip (s : string) : string :=
  reverse (lstrip (reverse (lstrip s))).

(** [s.split(" ", 1)] when [" " in s]: the text before the first space and
    the text after it; [None] when [s] has no space. *)
Fixpoint split_space (s : string) : option (string * string) :=
  match s with
  | EmptyString => None
  | String c s' =>
      if Ascii.eqb c " " then Some (EmptyString, s')
      else match split_space s' with
           | Some (before, after) => Some (String c before, after)
           | None => None
           end
  end.

(** [x.strip()] on an arbitrary value: only a string has [strip]. *)
Definition py_strip (x : pyval) : outcome string :=
  match x with
  | PStr s => Ret (strip s)
  | _ => Raise AttributeError
  end.

Section Builtins.
Context {parsers : StrParsers}.

(** [int(x)] *)
Definition py_int (x : pyval) : outcome Z :=
  match x with
  | PInt z => Ret z
  | PBool b => Ret (if b then 1 else 0)
  | PFloat q => Ret (float_trunc q)
  | PStr s => match int_of_str s with
              | Some z => Ret z
              | None => Raise ValueError
              end
  | PNone | PList _ | PDict _ => Raise TypeError
  end.

(** [float(x)] *)
Definition py_float (x : pyval) : outcome Q :=
  match x with
  | PInt z => Ret (inject_Z z)
  | PBool b => Ret (inject_Z (if b then 1 else 0))
  | PFloat q => Ret q
  | PStr s => match float_of_str s with
              | Some q => Ret q
              | None => Raise ValueError
              end
  | PNone | PList _ | PDict _ => Raise TypeError
  end.

End Builtins.

(** ** The CSV file as [csv.DictReader] reads it *)

(** A statistics file: the records [csv.reader] yields, each a list of
    cells; the first one is the header. *)
Definition csv_file : Type := list (list string).

(** [dict(zip(fieldnames, record))], then [restval = None] under every
    field name the record is too short for.  (Surplus cells go under the
    key [None], which the code never reads; they are left out.) *)
Definition zip_record (fieldnames record : list string) : dict :=
  fold_left (fun d kv => dict_set d (fst kv) (PStr (snd kv)))
            (combine fieldnames record) [].

Definition dict_row (fieldnames record : list string) : dict :=
  fold_left (fun d k => dict_set d k PNone)
            (skipn (length record) fieldnames)
            (zip_record fieldnames record).

Definition is_blank (record : list string) : bool :=
  match record with [] => true | _ :: _ => false end.

(** The rows [for row in csv.DictReader(csvfile)] iterates over: the
    header gives the field names, blank records are skipped. *)
Definition DictReader (file : csv_file) : list dict :=
  match file with
  | [] => []
  | fieldnames :: records =>
      map (dict_row fieldnames) (filter (fun r => negb (is_blank r)) records)
  end.

(** ** extract_metrics *)

(** The dict built inside the [try]. *)
Record metric : Type :=
  { endpoint : string;
    method : string;
    request_count : Z;
    failure_count : Z;
    median_response_time : Q;
    average_response_time : Q;
    min_response_time : Q;
    max_response_time : Q;
    p50_response_time : Q;
    p95_response_time : Q;
    p99_response_time : Q;
    requests_per_second : Q;
    failures_per_second : Q }.

Section Extract.
Context {parsers : StrParsers}.

(** [row.get("Name") == "Aggregated"] *)
Definition is_aggregated (row : dict) : bool :=
  match dict_lookup row "Name" with
  | Some (PStr s) => String.eqb s "Aggregated"
  | _ => false
  end.

(** The body of the [try]: the conversions run in the order written, the
    first one that fails raises. *)
Definition build_metric (row : dict) (method endpoint : string)
  : outcome metric :=
  obind (py_int (dict_get row "Request Count" (PInt 0))) (fun rc =>
  obind (py_int (dict_get row "Failure Count" (PInt 0))) (fun fc =>
  obind (py_float (dict_get row "Median Response Time" (PInt 0))) (fun med =>
  obind (py_float (dict_get row "Average Response Time" (PInt 0))) (fun avg =>
  obind (py_float (dict_get row "Min Response Time" (PInt 0))) (fun mn =>
  obind (py_float (dict_get row "Max Response Time" (PInt 0))) (fun mx =>
  obind (py_float (dict_get row "50%"
           (dict_get row "Median Response Time" (PInt 0)))) (fun p50 =>
  obind (py_float (dict_get row "95%" (PInt 0))) (fun p95 =>
  obind (py_float (dict_get row "99%" (PInt 0))) (fun p99 =>
  obind (py_float (dict_get row "Requests/s" (PInt 0))) (fun rps =>
  obind (py_float (dict_get row "Failures/s" (PInt 0))) (fun fps =>
  Ret {| endpoint := endpoint; method := method;
         request_count := rc; failure_count := fc;
         median_response_time := med; average_response_time := avg;
         min_response_time := mn; max_response_time := mx;
         p50_response_time := p50; p95_response_time := p95;
         p99_response_time := p99;
         requests_per_second := rps; failures_per_second := fps |}
  ))))))))))).

(** [for row in reader: ...], with [metrics] the list built so far.  Only
    a [ValueError] is caught; it drops the row. *)
Fixpoint read_rows (rows : list dict) (metrics : list metric)
  : outcome (list metric) :=
  match rows with
  | [] => Ret metrics
  | row :: rest =>
      if is_aggregated row then read_rows rest metrics
      else
        obind (py_strip (dict_get row "Name" (PStr ""))) (fun name =>
        obind (py_strip (dict_get row "Method" (PStr "GET"))) (fun method =>
        let (method, endpoint) :=
          match split_space name with
          | Some (m, e) => (m, e)
          | None => (method, name)
          end in
        match build_metric row method endpoint with
        | Ret m => read_rows rest (metrics ++ [m])
        | Raise ValueError => read_rows rest metrics
        | Raise e => Raise e
        end))
  end.

(** [LocustCollector.extract_metrics]; [fs] maps a path to the file
    there, if any ([os.path.exists] and [open]). *)
Definition extract_metrics (fs : string -> option csv_file)
    (csv_prefix : string) : outcome (list metric) :=
  let stats_path := csv_prefix ++ "_stats.csv" in
  match fs stats_path with
  | None => Ret []
  | Some csvfile => read_rows (DictReader csvfile) []
  end.

End Extract.

(** ** Sample inputs used in the statements below *)

(** Plain decimal literals, a fragment of what [int] and [float] accept. *)
Definition digit_value (c : ascii) : option Z :=
  let n := nat_of_ascii c in
  if ((48 <=? n) && (n <=? 57))%nat then Some (Z.of_nat n - 48) else None.

Fixpoint digits_from (acc : Z) (s : string) : option Z :=
  match s with
  | EmptyString => Some acc
  | String c s' =>
      match digit_value c with
      | Some d => digits_from (10 * acc + d) s'
      | None => None
      end
  end.

Definition decimal (s : string) : option Z :=
  match s with
  | EmptyString => None
  | String _ _ => digits_from 0 s
  end.

Definition decimal_parsers : StrParsers :=
  {| int_of_str := decimal;
     float_of_str := fun s => option_map inject_Z (decimal s) |}.

Definition stats_header : list string :=
  ["Type"; "Name"; "Request Count"; "Failure Count";
   "Median Response Time"; "Average Response Time";
   "Min Response Time"; "Max Response Time";
   "Requests/s"; "Failures/s"; "50%"; "95%"; "99%"].

(** Scenario 1 of the specification: one endpoint row and the total. *)
Definition posts_stats : csv_file :=
  [ stats_header;
    ["GET"; "GET /api/posts"; "120"; "0"; "35"; "41"; "12"; "230";
     "12"; "0"; "35"; "110"; "200"];
    [""; "Aggregated"; "120"; "0"; "35"; "41"; "12"; "230";
     "12"; "0"; "35"; "110"; "200"] ].

(** The same file cut off in the middle of its last record. *)
Definition truncated_stats : csv_file :=
  [ stats_header;
    ["GET"; "GET /api/posts"; "120"; "0"; "35"; "41"; "12"; "230";
     "12"; "0"; "35"; "110"; "200"];
    ["POST"; "POST /api/posts"] ].

Definition one_file (path : string) (file : csv_file)
  : string -> option csv_file :=
  fun p => if String.eqb p path then Some file else None.

End LocustCollector.

(* ================================================================== *)
(** * benchmark_runner.py                                              *)
(* ================================================================== *)

Module BenchmarkRunner.
Import Py.
Local Open Scope string_scope.

(** ** The world the runner acts on *)

(** The four places where the code calls [time.sleep]. *)
Inductive pause : Type :=
| Settle     (* [time.sleep(2)] after [collector.start_collecting()] *)
| Grace      (* [time.sleep(3)] after [subprocess.Popen] *)
| Flush      (* [time.sleep(2)] before the CSV is read *)
| Cooldown.  (* [time.sleep(cooldown)] *)

(** Every call the runner makes on something outside itself, and every
    error or warning it logs. *)
Inductive event : Type :=
(* self.db *)
| create_benchmark_run (run_id app_name : string) (stage user_count : Z)
                       (duration_seconds : Z) (target_host : string)
| insert_locust_metrics (run_id : string)
                        (metrics : list LocustCollector.metric)
| insert_collector_metrics (run_id : string) (metrics : dict)
| create_run_summary (run_id : string)
(* CollectorClientSync *)
| collector_enter
| collector_exit
| start_collecting
| stop_collecting
| keep_alive
| get_aggregated_metrics
(* self.locust_collector *)
| extract_metrics (csv_prefix : string)
(* files, subprocess, time *)
| open_log (path : string)
| popen (cmd : list string)
| process_wait (timeout : Z)
| process_terminate
| process_kill
| sleep (seconds : Z) (why : pause)
(* logger.error, logger.warning *)
| log_exited_immediately (returncode : Z)
| log_failed_to_start (e : exn)
| log_did_not_terminate
| log_force_stopping
| log_safety_timeout
| log_no_locust_metrics
| log_benchmark_failed (e : exn)
| log_test_failed (users : Z).

(** A child process as [subprocess.Popen] sees it.  [exits_at] is the time
    at which the process is gone ([None]: it never exits by itself),
    [returncode] is the attribute, set once [poll] or [wait] has seen the
    exit. *)
Record process : Type :=
  { exits_at : option Z;
    code : Z;
    heeds_sigterm : bool;
    returncode : option Z }.

(** The runner's mutable fields, the clock, and the calls made so far. *)
Record world : Type :=
  { clock : Z;
    locust_process : option process;
    locust_log_file : bool;
    trace : list event }.

(** How everything outside the runner behaves during one run. *)
Record env : Type :=
  { utcnow : string;
      (* [datetime.utcnow().strftime('%Y%m%d_%H%M%S')] *)
    raises : event -> Z -> option exn;
      (* the exception, if any, that a call made at a given time raises *)
    lifetime : option Z;
      (* seconds after its launch at which locust exits by itself *)
    exit_code : Z;
    obeys_sigterm : bool;
    files : string -> option LocustCollector.csv_file;
      (* the output directory as locust leaves it *)
    published : list dict
      (* the messages buffered by the time they are aggregated *) }.

(** The fields set by [__init__]. *)
Record runner : Type :=
  { app_name : string;
    stage : Z;
    target_host : string;
    locust_file : string;
    output_dir : string }.

(** ** The monad: state, exceptions, and [None] for a loop out of fuel *)

Definition M (A : Type) : Type := world -> option (outcome A * world).

Definition ret {A} (a : A) : M A := fun w => Some (Ret a, w).

Definition throw {A} (e : exn) : M A := fun w => Some (Raise e, w).

Definition bind {A B} (m : M A) (k : A -> M B) : M B :=
  fun w =>
    match m w with
    | None => None
    | Some (Ret a, w') => k a w'
    | Some (Raise e, w') => Some (Raise e, w')
    end.

Declare Scope runner_scope.
Delimit Scope runner_scope with runner.
Notation "x <- m ;; k" := (bind m (fun x => k))
  (at level 61, m at next level, right associativity) : runner_scope.
Notation "m ;; k" := (bind m (fun _ => k))
  (at level 61, right associativity) : runner_scope.
Local Open Scope runner_scope.

(** [try: m  except <matching>: handler] *)
Definition try_except {A} (m : M A) (matching : exn -> bool)
    (handler : exn -> M A) : M A :=
  fun w =>
    match m w with
    | None => None
    | Some (Ret a, w') => Some (Ret a, w')
    | Some (Raise e, w') =>
        if matching e then handler e w' else Some (Raise e, w')
    end.

(** [try: m  finally: cleanup], also [with]: the cleanup runs on every way
    out of [m]; what it raises replaces the result of [m]. *)
Definition try_finally {A} (m : M A) (cleanup : M unit) : M A :=
  fun w =>
    match m w with
    | None => None
    | Some (r, w') =>
        match cleanup w' with
        | None => None
        | Some (Ret _, w'') => Some (r, w'')
        | Some (Raise e, w'') => Some (Raise e, w'')
        end
    end.

Definition lift {A} (r : outcome A) : M A := fun w => Some (r, w).

(** [except Exception] *)
Definition any_exception (e : exn) : bool := true.

(** [except subprocess.TimeoutExpired] *)
Definition timeout_expired (e : exn) : bool :=
  match e with TimeoutExpired => true | _ => false end.

(** ** Primitive actions *)

Definition emit (ev : event) : M unit :=
  fun w => Some (Ret tt, {| clock := clock w;
                           locust_process := locust_process w;
                           locust_log_file := locust_log_file w;
                           trace := trace w ++ [ev] |}).

Definition now : M Z := fun w => Some (Ret (clock w), w).

Definition advance (seconds : Z) : M unit :=
  fun w => Some (Ret tt, {| clock := clock w + seconds;
                           locust_process := locust_process w;
                           locust_log_file := locust_log_file w;
                           trace := trace w |}).

Definition get_process : M (option process) :=
  fun w => Some (Ret (locust_process w), w).

Definition set_process (p : option process) : M unit :=
  fun w => Some (Ret tt, {| clock := clock w;
                           locust_process := p;
                           locust_log_file := locust_log_file w;
                           trace := trace w |}).

Definition get_log_file : M bool :=
  fun w => Some (Ret (locust_log_file w), w).

Definition set_log_file (b : bool) : M unit :=
  fun w => Some (Ret tt, {| clock := clock w;
                           locust_process := locust_process w;
                           locust_log_file := b;
                           trace := trace w |}).

(** A call on a collaborator: it is recorded, then it returns or raises
    as the environment says. *)
Definition external (e : env) (ev : event) : M unit :=
  emit ev ;;
  t <- now ;;
  match raises e ev t with
  | Some x => throw x
  | None => ret tt
  end.

(** [time.sleep(seconds)] *)
Definition time_sleep (seconds : Z) (why : pause) : M unit :=
  emit (sleep seconds why) ;; advance seconds.

(** ** The child process *)

Definition gone (p : process) (t : Z) : bool :=
  match exits_at p with
  | Some t' => (t' <=? t)%Z
  | None => false
  end.

(** [Popen.poll()]: notices an exit that has happened. *)
Definition polled (p : process) (t : Z) : process :=
  match returncode p with
  | Some _ => p
  | None =>
      if gone p t
      then {| exits_at := exits_at p; code := code p;
              heeds_sigterm := heeds_sigterm p; returncode := Some (code p) |}
      else p
  end.

(** [self.locust_process.poll()] *)
Definition poll : M (option Z) :=
  p <- get_process ;;
  match p with
  | None => throw AttributeError
  | Some p =>
      t <- now ;;
      set_process (Some (polled p t)) ;;
      ret (returncode (polled p t))
  end.

(** [self.locust_process.wait(timeout=timeout)] *)
Definition wait (timeout : Z) : M unit :=
  emit (process_wait timeout) ;;
  p <- get_process ;;
  match p with
  | None => throw AttributeError
  | Some p =>
      t <- now ;;
      if gone p (t + timeout)
      then
        advance (match exits_at p with
                 | Some t' => Z.max 0 (t' - t)
                 | None => 0
                 end) ;;
        set_process (Some (polled p (t + timeout)))
      else
        match returncode p with
        | Some _ => ret tt
        | None => advance timeout ;; throw TimeoutExpired
        end
  end.

(** A signal that ends the process now with the given code, unless it has
    ended already. *)
Definition struck (p : process) (t : Z) (c : Z) : process :=
  match returncode (polled p t) with
  | Some _ => polled p t
  | None => {| exits_at := Some t; code := c;
               heeds_sigterm := heeds_sigterm p; returncode := None |}
  end.

(** [self.locust_process.terminate()] *)
Definition terminate : M unit :=
  emit process_terminate ;;
  p <- get_process ;;
  match p with
  | None => throw AttributeError
  | Some p =>
      t <- now ;;
      set_process (Some (if heeds_sigterm p then struck p t (-15)
                         else polled p t))
  end.

(** [self.locust_process.kill()] *)
Definition kill : M unit :=
  emit process_kill ;;
  p <- get_process ;;
  match p with
  | None => throw AttributeError
  | Some p =>
      t <- now ;;
      set_process (Some (struck p t (-9)))
  end.

(** The process [subprocess.Popen] starts. *)
Definition launched (e : env) (t : Z) : process :=
  {| exits_at := option_map (fun l => t + l) (lifetime e);
     code := exit_code e;
     heeds_sigterm := obeys_sigterm e;
     returncode := None |}.

(** ** The methods of [BenchmarkRunner] *)

(** [str(n)] for an int. *)
Definition str (n : Z) : string := NilZero.string_of_int (Z.to_int n).

(** [os.path.join(a, b)] *)
Definition path_join (a b : string) : string :=
  match b with
  | String "/" _ => b
  | _ =>
      match LocustCollector.reverse a with
      | EmptyString | String "/" _ => a ++ b
      | _ => a ++ "/" ++ b
      end
  end.

Section Methods.
Context {parsers : LocustCollector.StrParsers}.
Variable self : runner.

Definition generate_run_id (e : env) (user_count : Z) : string :=
  app_name self ++ "_stage" ++ str (stage self)
    ++ "_u" ++ str user_count ++ "_" ++ utcnow e.

Definition start_locust (e : env) (run_id : string)
    (user_count spawn_rate duration : Z) : M bool :=
  let csv_prefix := path_join (output_dir self) run_id in
  let log_path := path_join (output_dir self) (run_id ++ ".locust.log") in
  let cmd :=
    [ "locust";
      "-f"; locust_file self;
      "--host"; target_host self;
      "--users"; str user_count;
      "--spawn-rate"; str spawn_rate;
      "--run-time"; str duration ++ "s";
      "--headless";
      "--csv"; csv_prefix;
      "--csv-full-history";
      "--only-summary" ] in
  try_except
    (external e (open_log log_path) ;;
     set_log_file true ;;
     external e (popen cmd) ;;
     t <- now ;;
     set_process (Some (launched e t)) ;;
     time_sleep 3 Grace ;;
     rc <- poll ;;
     match rc with
     | Some c => emit (log_exited_immediately c) ;; ret false
     | None => ret true
     end)
    any_exception
    (fun x => emit (log_failed_to_start x) ;; ret false).

Definition close_log_file : M unit :=
  open <- get_log_file ;;
  if open then set_log_file false else ret tt.

Definition wait_for_locust_completion (timeout : Z) : M bool :=
  p <- get_process ;;
  match p with
  | None => ret false
  | Some _ =>
      try_finally
        (try_except
           (wait timeout ;;
            p <- get_process ;;
            ret (match option_map returncode p with
                 | Some (Some 0%Z) => true
                 | _ => false
                 end))
           timeout_expired
           (fun _ => emit log_did_not_terminate ;; ret false))
        close_log_file
  end.

Definition stop_locust : M unit :=
  p <- get_process ;;
  match p with
  | None => ret tt
  | Some _ =>
      emit log_force_stopping ;;
      terminate ;;
      try_except (wait 10) timeout_expired (fun _ => kill) ;;
      set_process None
  end.

(** [while self.locust_process.poll() is None: ...] *)
Fixpoint keep_alive_loop (fuel : nat) (e : env) (start duration : Z)
  : M unit :=
  match fuel with
  | O => fun _ => None
  | S fuel' =>
      rc <- poll ;;
      match rc with
      | Some _ => ret tt
      | None =>
          external e keep_alive ;;
          advance 1 ;;
          t <- now ;;
          if (t - start >? duration + 60)%Z
          then emit log_safety_timeout
          else keep_alive_loop fuel' e start duration
      end
  end.

(** Each turn of the loop takes a second and the loop gives up once more
    than [duration + 60] seconds have passed. *)
Definition loop_fuel (duration : Z) : nat := S (Z.to_nat (duration + 61)).

(** The block under [with CollectorClientSync() as collector:]; its value
    is what the [return] reached inside it returns. *)
Definition collecting (e : env) (run_id csv_prefix : string)
    (user_count duration cooldown : Z) : M bool :=
  external e start_collecting ;;
  time_sleep 2 Settle ;;
  started <- start_locust e run_id user_count 5 duration ;;
  if negb started then ret false
  else
    start <- now ;;
    keep_alive_loop (loop_fuel duration) e start duration ;;
    clean <- wait_for_locust_completion 30 ;;
    if negb clean then stop_locust ;; ret false
    else
      external e stop_collecting ;;
      time_sleep 2 Flush ;;
      emit (extract_metrics csv_prefix) ;;
      locust_metrics <-
        lift (LocustCollector.extract_metrics (files e) csv_prefix) ;;
      match locust_metrics with
      | _ :: _ => external e (insert_locust_metrics run_id locust_metrics)
      | [] => emit log_no_locust_metrics
      end ;;
      emit get_aggregated_metrics ;;
      db_metrics <- lift (CollectorClient.aggregate_metrics (published e)) ;;
      match db_metrics with
      | Some (kv :: rest) =>
          external e (insert_collector_metrics run_id (kv :: rest))
      | Some [] | None => ret tt
      end ;;
      external e (create_run_summary run_id) ;;
      (if (cooldown >? 0)%Z then time_sleep cooldown Cooldown else ret tt) ;;
      ret true.

Definition run_single_test (e : env) (user_count duration cooldown : Z)
  : M bool :=
  let run_id := generate_run_id e user_count in
  let csv_prefix := path_join (output_dir self) run_id in
  try_except
    (external e (create_benchmark_run run_id (app_name self) (stage self)
                   user_count duration (target_host self)) ;;
     external e collector_enter ;;
     try_finally
       (collecting e run_id csv_prefix user_count duration cooldown)
       (external e collector_exit))
    any_exception
    (fun x => emit (log_benchmark_failed x) ;; stop_locust ;; ret false).

(** [for idx, users in enumerate(user_counts, 1): ...]; [envs idx] is how
    the outside behaves during test number [idx]. *)
Fixpoint suite_loop (envs : nat -> env) (idx : nat) (user_counts : list Z)
    (duration cooldown : Z) (success : Z) : M Z :=
  match user_counts with
  | [] => ret success
  | users :: rest =>
      passed <- run_single_test (envs idx) users duration cooldown ;;
      success' <- (if passed then ret (success + 1)%Z
                   else emit (log_test_failed users) ;; ret success) ;;
      suite_loop envs (S idx) rest duration cooldown success'
  end.

Definition run_benchmark_suite (envs : nat -> env) (user_counts : list Z)
    (duration cooldown : Z) : M bool :=
  success <- suite_loop envs 1 user_counts duration cooldown 0%Z ;;
  ret (success =? Z.of_nat (length user_counts))%Z.

End Methods.

(** ** Sample worlds used in the statements below *)

Definition bench : runner :=
  {| app_name := "bad-barber"; stage := 0;
     target_host := "http://localhost:3020";
     locust_file := "bad-barber/locustfile.py";
     output_dir := "outputs" |}.

Definition fresh : world :=
  {| clock := 0; locust_process := None; locust_log_file := false;
     trace := [] |}.

(** Nothing raises; locust leaves the statistics of scenario 1 whatever
    the run is called; the bus delivered the samples of scenario 2. *)
Definition calm (life : option Z) (rc : Z) : env :=
  {| utcnow := "20260101_120000";
     raises := fun _ _ => None;
     lifetime := life;
     exit_code := rc;
     obeys_sigterm := true;
     files := fun _ => Some LocustCollector.posts_stats;
     published := CollectorClient.scenario2 |}.

End BenchmarkRunner.

(* ================================================================== *)
(** * benchmark_runner.py: main                                        *)
(* ================================================================== *)

Module Main.
Import Py LocustCollector.
Local Open Scope string_scope.

(** [s.split(",")]: the pieces between the commas; there is always at
    least one. *)
Fixpoint split_comma (s : string) : list string :=
  match s with
  | EmptyString => [EmptyString]
  | String c s' =>
      if Ascii.eqb c "," then EmptyString :: split_comma s'
      else
        match split_comma s' with
        | piece :: pieces => String c piece :: pieces
        | [] => [String c EmptyString]
        end
  end.

Section Users.
Context {parsers : StrParsers}.

(** [[int(u.strip()) for u in pieces]]: the first piece [int] rejects
    raises. *)
Fixpoint ints_of (pieces : list string) : outcome (list Z) :=
  match pieces with
  | [] => Ret []
  | u :: rest =>
      obind (py_int (PStr (strip u))) (fun n =>
      obind (ints_of rest) (fun ns => Ret (n :: ns)))
  end.

(** The [try] block of [main]: [Ret] is [user_counts], [Raise] what the
    [except ValueError] clause turns into [sys.exit(1)]. *)
Definition user_counts (users : string) : outcome (list Z) :=
  ints_of (split_comma users).

End Users.
End Main.

(* ================================================================== *)
(** * database.py                                                      *)
(* ================================================================== *)

Module Database.
Import Py.
Local Open Scope string_scope.

(** The column list of [INSERT INTO collector_metrics (...)]. *)
Definition collector_metrics_columns : list string :=
  ["run_id"; "active_connections"; "max_connections";
   "cache_hit_rate"; "sequential_scans"; "index_scans";
   "query_health"; "connection_health"; "cache_health"; "overall_health"].

(** [metrics.get(k)] *)
Definition dict_get_none (metrics : dict) (k : string) : pyval :=
  dict_get metrics k PNone.

(** The parameter tuple [insert_collector_metrics] hands to
    [cur.execute]; [PNone] is stored as NULL. *)
Definition insert_collector_metrics_params (run_id : string) (metrics : dict)
  : list pyval :=
  [ PStr run_id;
    dict_get_none metrics "active_connections";
    dict_get_none metrics "max_connections";
    dict_get_none metrics "cache_hit_rate";
    dict_get_none metrics "sequential_scans";
    dict_get_none metrics "index_scans";
    dict_get_none metrics "query_health";
    dict_get_none metrics "connection_health";
    dict_get_none metrics "cache_health";
    dict_get_none metrics "overall_health" ].

(** The row the statement inserts: the i-th [%s] takes the i-th
    parameter and goes into the i-th column. *)
Definition collector_metrics_row (run_id : string) (metrics : dict)
  : list (string * pyval) :=
  combine collector_metrics_columns
          (insert_collector_metrics_params run_id metrics).

End Database.

(* ================================================================== *)
(** * Facts about the Python builtins                                  *)
(* ================================================================== *)

Module PyFacts.
Import Py.

Lemma obind_ret_inv {A B} (m : outcome A) (k : A -> outcome B) (b : B) :
  obind m k = Ret b -> exists a, m = Ret a /\ k a = Ret b.
Proof.
  destruct m as [a | e]; simpl; intros H; [eauto | discriminate].
Qed.

Lemma dict_lookup_set (d : dict) (k k' : string) (v : pyval) :
  dict_lookup (dict_set d k v) k' =
  if String.eqb k k' then Some v else dict_lookup d k'.
Proof.
  induction d as [| [k0 v0] d IH]; simpl.
  - reflexivity.
  - destruct (String.eqb k0 k) eqn:E0; simpl.
    + apply String.eqb_eq in E0; subst k0.
      destruct (String.eqb k k'); reflexivity.
    + rewrite IH.
      destruct (String.eqb k0 k') eqn:E1; [| reflexivity].
      apply String.eqb_eq in E1; subst k0.
      rewrite String.eqb_sym, E0. reflexivity.
Qed.

End PyFacts.

(* ================================================================== *)
(** * Facts about collector_client.py                                  *)
(* ================================================================== *)

Module CollectorFacts.
Import Py PyFacts CollectorClient.
Local Open Scope string_scope.

(** ** Each message contributes on its own *)

(** Both runs of the loop put side by side. *)
Definition merge (s t : samples) : samples :=
  {| connection_samples := connection_samples s ++ connection_samples t;
     cache_samples := cache_samples s ++ cache_samples t;
     scan_samples := scan_samples s ++ scan_samples t;
     health_samples := health_samples s ++ health_samples t |}.

(** What one message alone adds to the four lists. *)
Definition own (metric : dict) : outcome samples := loop_body no_samples metric.

Lemma merge_no_samples_r (s : samples) : merge s no_samples = s.
Proof. destruct s; unfold merge; simpl. rewrite !app_nil_r. reflexivity. Qed.

Lemma merge_assoc (s t u : samples) :
  merge (merge s t) u = merge s (merge t u).
Proof. unfold merge; simpl. rewrite !app_assoc. reflexivity. Qed.

Lemma parse_health_merge (acc o : samples) (metric : dict) :
  parse_health (merge acc o) metric = merge acc (parse_health o metric).
Proof.
  unfold parse_health.
  destruct (py_any _); [| reflexivity].
  unfold merge; simpl. rewrite !app_assoc. reflexivity.
Qed.

Lemma parse_measurements_merge (acc : samples) (x : pyval) :
  parse_measurements acc x =
  obind (parse_measurements no_samples x) (fun o => Ret (merge acc o)).
Proof.
  unfold parse_measurements.
  destruct (py_get x "active_connections" _); [| reflexivity].
  destruct (py_get x "max_connections" _); [| reflexivity].
  destruct (py_get x "cache_hit_rate" _) as [c |]; [| reflexivity].
  simpl. destruct (py_gt0 c) as [[|] |]; [| | reflexivity];
    (destruct (py_get x "sequential_scans" _); [| reflexivity]);
    unfold merge; simpl; rewrite ?app_nil_r; reflexivity.
Qed.

Lemma loop_body_merge (acc : samples) (metric : dict) :
  loop_body acc metric = obind (own metric) (fun o => Ret (merge acc o)).
Proof.
  unfold own, loop_body.
  destruct (truthy _).
  - rewrite parse_measurements_merge.
    destruct (parse_measurements no_samples _) as [o |]; [| reflexivity].
    simpl. rewrite parse_health_merge. reflexivity.
  - simpl. rewrite <- parse_health_merge, merge_no_samples_r. reflexivity.
Qed.

Lemma loop_merge (buffer : list dict) (acc : samples) :
  loop acc buffer = obind (loop no_samples buffer) (fun s => Ret (merge acc s)).
Proof.
  revert acc. induction buffer as [| metric rest IH]; intros acc.
  - simpl. rewrite merge_no_samples_r. reflexivity.
  - simpl. rewrite (loop_body_merge no_samples metric), (loop_body_merge acc metric).
    destruct (own metric) as [o |]; [| reflexivity].
    simpl. rewrite (IH (merge acc o)), (IH (merge no_samples o)).
    destruct (loop no_samples rest) as [s |]; [| reflexivity].
    simpl. rewrite <- merge_assoc.
    replace (merge no_samples o) with o by (destruct o; reflexivity).
    reflexivity.
Qed.

(** The loop over a buffer in two parts is the loop over either part,
    side by side: what a message adds does not depend on the messages
    before it, equal ones included. *)
Lemma loop_app (b1 b2 : list dict) :
  loop no_samples (b1 ++ b2) =
  obind (loop no_samples b1) (fun s1 =>
  obind (loop no_samples b2) (fun s2 => Ret (merge s1 s2))).
Proof.
  induction b1 as [| metric rest IH].
  - simpl. destruct (loop no_samples b2) as [[? ? ? ?] |]; reflexivity.
  - simpl. rewrite (loop_body_merge no_samples).
    destruct (own metric) as [o |]; [| reflexivity].
    simpl.
    replace (merge no_samples o) with o by (destruct o; reflexivity).
    rewrite (loop_merge (rest ++ b2) o), (loop_merge rest o), IH.
    destruct (loop no_samples rest) as [s1 |]; [| reflexivity].
    simpl. destruct (loop no_samples b2) as [s2 |]; [| reflexivity].
    simpl. rewrite merge_assoc. reflexivity.
Qed.

(** ** Reordering the buffer *)

Definition samples_perm (s t : samples) : Prop :=
  Permutation (connection_samples s) (connection_samples t) /\
  Permutation (cache_samples s) (cache_samples t) /\
  Permutation (scan_samples s) (scan_samples t) /\
  Permutation (health_samples s) (health_samples t).

Lemma samples_perm_refl (s : samples) : samples_perm s s.
Proof. repeat split; apply Permutation_refl. Qed.

Lemma samples_perm_trans (s t u : samples) :
  samples_perm s t -> samples_perm t u -> samples_perm s u.
Proof.
  intros (H1 & H2 & H3 & H4) (K1 & K2 & K3 & K4).
  repeat split; eapply Permutation_trans; eassumption.
Qed.

Lemma merge_perm (s s' t t' : samples) :
  samples_perm s s' -> samples_perm t t' ->
  samples_perm (merge s t) (merge s' t').
Proof.
  intros (H1 & H2 & H3 & H4) (K1 & K2 & K3 & K4).
  repeat split; simpl; apply Permutation_app; assumption.
Qed.

Lemma merge_comm_perm (s t : samples) :
  samples_perm (merge s t) (merge t s).
Proof. repeat split; simpl; apply Permutation_app_comm. Qed.

Lemma loop_perm (b b' : list dict) :
  Permutation b b' ->
  forall s, loop no_samples b = Ret s ->
  exists s', loop no_samples b' = Ret s' /\ samples_perm s s'.
Proof.
  induction 1 as [| m b b' _ IH | m1 m2 b | b1 b2 b3 _ IH1 _ IH2]; intros s Hs.
  - exists s. split; [assumption | apply samples_perm_refl].
  - change (m :: b) with ([m] ++ b)%list in Hs. rewrite loop_app in Hs.
    change (m :: b') with ([m] ++ b')%list. rewrite loop_app.
    apply obind_ret_inv in Hs. destruct Hs as (o & Ho & Hs).
    apply obind_ret_inv in Hs. destruct Hs as (t & Ht & Hs).
    injection Hs as <-.
    destruct (IH t Ht) as (t' & Ht' & Hperm).
    rewrite Ho, Ht'. simpl. eexists. split; [reflexivity |].
    apply merge_perm; [apply samples_perm_refl | assumption].
  - change (m2 :: m1 :: b) with ([m2] ++ [m1] ++ b)%list in Hs.
    change (m1 :: m2 :: b) with ([m1] ++ [m2] ++ b)%list.
    rewrite !loop_app in Hs. rewrite !loop_app.
    apply obind_ret_inv in Hs. destruct Hs as (o1 & Ho1 & Hs).
    apply obind_ret_inv in Hs. destruct Hs as (t & Ht & Hs).
    apply obind_ret_inv in Ht. destruct Ht as (o2 & Ho2 & Ht).
    apply obind_ret_inv in Ht. destruct Ht as (u & Hu & Ht).
    injection Hs as <-. injection Ht as <-.
    rewrite Ho1, Ho2, Hu. simpl. eexists. split; [reflexivity |].
    rewrite <- !merge_assoc.
    apply merge_perm; [apply merge_comm_perm | apply samples_perm_refl].
  - destruct (IH1 s Hs) as (t & Ht & H12).
    destruct (IH2 t Ht) as (u & Hu & H23).
    exists u. split; [assumption |].
    eapply samples_perm_trans; eassumption.
Qed.

(** ** The aggregate, field by field *)

(** The non-empty [measurements] object of a message, if it has one. *)
Definition measurements_of (metric : dict) : option dict :=
  match dict_lookup metric "measurements" with
  | Some (PDict (kv :: d)) => Some (kv :: d)
  | _ => None
  end.

(** The measurements of the messages that carry some, in buffer order. *)
Definition measured (buffer : list dict) : list dict :=
  flat_map (fun m => match measurements_of m with
                     | Some d => [d]
                     | None => []
                     end) buffer.

(** A reading of a field, with the default the code gives an absent one. *)
Definition reading (field : string) (default : pyval) (d : dict) : pyval :=
  dict_get d field default.

(** A number above zero. *)
Definition positive (x : pyval) : bool :=
  match as_number x with
  | Some q => (0 <? Qnum q)%Z
  | None => false
  end.

Definition health_scores (metric : dict) : list pyval :=
  [ reading "connection_health" (PInt 0) metric;
    reading "query_health" (PInt 0) metric;
    reading "cache_health" (PInt 0) metric;
    reading "health_score" (PInt 0) metric ].

(** The messages with at least one health score that is not zero. *)
Definition scored (buffer : list dict) : list dict :=
  filter (fun m => py_any (health_scores m)) buffer.

(** The field [k] of the aggregate is the mean of [xs], and is absent when
    there is nothing to average. *)
Definition averaged (agg : dict) (k : string) (xs : list pyval)
    (mean : list pyval -> outcome pyval) : Prop :=
  match xs with
  | [] => dict_lookup agg k = None
  | _ :: _ => exists v, mean xs = Ret v /\ dict_lookup agg k = Some v
  end.

Definition connection_entry (d : dict) : connection_sample :=
  {| active := reading "active_connections" (PInt 0) d;
     max := reading "max_connections" (PInt 100) d |}.

Definition scan_entry (d : dict) : scan_sample :=
  {| sequential := reading "sequential_scans" (PInt 0) d; index := PInt 0 |}.

Definition health_entry (metric : dict) : health_sample :=
  {| query := reading "query_health" (PInt 0) metric;
     connection := reading "connection_health" (PInt 0) metric;
     cache := reading "cache_health" (PInt 0) metric;
     overall := reading "health_score" (PInt 0) metric |}.

(** The four lists, said without the loop. *)
Definition lists_of (buffer : list dict) : samples :=
  {| connection_samples := map connection_entry (measured buffer);
     cache_samples :=
       filter positive (map (reading "cache_hit_rate" (PInt 0))
                            (measured buffer));
     scan_samples := map scan_entry (measured buffer);
     health_samples := map health_entry (scored buffer) |}.

Lemma py_gt0_positive (x : pyval) (b : bool) :
  py_gt0 x = Ret b -> positive x = b.
Proof.
  unfold py_gt0, positive. destruct (as_number x); congruence.
Qed.

Lemma own_lists (metric : dict) (o : samples) :
  own metric = Ret o -> o = lists_of [metric].
Proof.
  unfold own, loop_body, lists_of, measured, scored, measurements_of,
    dict_get, parse_health, health_scores, reading.
  cbn [flat_map filter app map].
  destruct (dict_lookup metric "measurements") as [x |].
  - destruct x as [| [|] | z | q | str | [| y l] | [| kv d]];
      cbn [truthy py_get parse_measurements obind];
      try discriminate.
    + intros H. destruct (py_any _); injection H as <-; reflexivity.
    + intros H. destruct (py_any _); injection H as <-; reflexivity.
    + destruct (negb (z =? 0)%Z); [discriminate |].
      intros H. destruct (py_any _); injection H as <-; reflexivity.
    + destruct (negb (Qnum q =? 0)%Z); [discriminate |].
      intros H. destruct (py_any _); injection H as <-; reflexivity.
    + destruct (negb (String.eqb str "")); [discriminate |].
      intros H. destruct (py_any _); injection H as <-; reflexivity.
    + intros H. destruct (py_any _); injection H as <-; reflexivity.
    + intros H. destruct (py_any _); injection H as <-; reflexivity.
    + unfold parse_measurements, py_get. cbn [obind].
      destruct (py_gt0 _) as [b |] eqn:Hb; [| discriminate].
      apply py_gt0_positive in Hb. unfold dict_get in Hb.
      cbn [obind]. intros H. rewrite app_nil_r.
      unfold dict_get. cbn [map filter]. rewrite Hb.
      destruct b, (py_any _); injection H as <-; reflexivity.
  - cbn [truthy obind].
    intros H. destruct (py_any _); injection H as <-; reflexivity.
Qed.

Lemma lists_of_app (b1 b2 : list dict) :
  lists_of (b1 ++ b2) = merge (lists_of b1) (lists_of b2).
Proof.
  unfold lists_of, merge, measured, scored; simpl.
  rewrite flat_map_app, filter_app, !map_app, filter_app. reflexivity.
Qed.

(** The loop builds exactly these lists, whenever it finishes. *)
Lemma loop_lists (buffer : list dict) (s : samples) :
  loop no_samples buffer = Ret s -> s = lists_of buffer.
Proof.
  revert s. induction buffer as [| metric rest IH]; intros s H.
  - injection H as <-. reflexivity.
  - change (metric :: rest) with ([metric] ++ rest)%list in *.
    rewrite loop_app in H. rewrite lists_of_app.
    apply obind_ret_inv in H. destruct H as (o & Ho & H).
    apply obind_ret_inv in H. destruct H as (t & Ht & H).
    injection H as <-.
    cbn [loop] in Ho. apply obind_ret_inv in Ho.
    destruct Ho as (o' & Ho' & Ho). injection Ho as <-.
    rewrite (own_lists metric o' Ho'), (IH t Ht). reflexivity.
Qed.

(** ** The four averaging blocks *)

Lemma average_connections_inv (s : samples) (d d' : dict) :
  average_connections s d = Ret d' ->
  match connection_samples s with
  | [] => d' = d
  | first :: _ =>
      exists a, int_mean (map active (connection_samples s)) = Ret a /\
        d' = dict_set (dict_set d "active_connections" a)
                      "max_connections" (max first)
  end.
Proof.
  unfold average_connections. destruct (connection_samples s) as [| c cs].
  - intros H; injection H as <-; reflexivity.
  - intros H. apply obind_ret_inv in H. destruct H as (a & Ha & H).
    injection H as <-. eauto.
Qed.

Lemma average_cache_inv (s : samples) (d d' : dict) :
  average_cache s d = Ret d' ->
  match cache_samples s with
  | [] => d' = d
  | _ :: _ =>
      exists c, round_mean (cache_samples s) 4 = Ret c /\
        d' = dict_set d "cache_hit_rate" c
  end.
Proof.
  unfold average_cache. destruct (cache_samples s) as [| c cs].
  - intros H; injection H as <-; reflexivity.
  - intros H. apply obind_ret_inv in H. destruct H as (a & Ha & H).
    injection H as <-. eauto.
Qed.

Lemma average_scans_inv (s : samples) (d d' : dict) :
  average_scans s d = Ret d' ->
  match scan_samples s with
  | [] => d' = d
  | _ :: _ =>
      exists q, int_mean (map sequential (scan_samples s)) = Ret q /\
        d' = dict_set (dict_set d "sequential_scans" q)
                      "index_scans" (PInt 0)
  end.
Proof.
  unfold average_scans. destruct (scan_samples s) as [| c cs].
  - intros H; injection H as <-; reflexivity.
  - intros H. apply obind_ret_inv in H. destruct H as (a & Ha & H).
    injection H as <-. eauto.
Qed.

Lemma average_health_inv (s : samples) (d d' : dict) :
  average_health s d = Ret d' ->
  match health_samples s with
  | [] => d' = d
  | _ :: _ =>
      exists q c h o,
        round_mean (map query (health_samples s)) 2 = Ret q /\
        round_mean (map connection (health_samples s)) 2 = Ret c /\
        round_mean (map cache (health_samples s)) 2 = Ret h /\
        round_mean (map overall (health_samples s)) 2 = Ret o /\
        d' = dict_set (dict_set (dict_set (dict_set d
                 "query_health" q) "connection_health" c)
                 "cache_health" h) "overall_health" o
  end.
Proof.
  unfold average_health. destruct (health_samples s) as [| x xs].
  - intros H; injection H as <-; reflexivity.
  - intros H.
    apply obind_ret_inv in H. destruct H as (q & Hq & H).
    apply obind_ret_inv in H. destruct H as (c & Hc & H).
    apply obind_ret_inv in H. destruct H as (h & Hh & H).
    apply obind_ret_inv in H. destruct H as (o & Ho & H).
    injection H as <-. exists q, c, h, o. auto.
Qed.

(** A returned aggregate went through the loop and the four blocks. *)
Lemma aggregate_metrics_inv (buffer : list dict) (agg : dict) :
  aggregate_metrics buffer = Ret (Some agg) ->
  buffer <> [] /\
  exists s d1 d2 d3,
    loop no_samples buffer = Ret s /\
    average_connections s [] = Ret d1 /\
    average_cache s d1 = Ret d2 /\
    average_scans s d2 = Ret d3 /\
    average_health s d3 = Ret agg.
Proof.
  unfold aggregate_metrics. destruct buffer as [| m rest]; [discriminate |].
  intros H. split; [discriminate |].
  apply obind_ret_inv in H. destruct H as (s & Hs & H).
  apply obind_ret_inv in H. destruct H as (d1 & H1 & H).
  apply obind_ret_inv in H. destruct H as (d2 & H2 & H).
  apply obind_ret_inv in H. destruct H as (d3 & H3 & H).
  apply obind_ret_inv in H. destruct H as (d4 & H4 & H).
  injection H as <-. exists s, d1, d2, d3. auto.
Qed.

(** Every field of a returned aggregate, in terms of the buffer. *)
Lemma aggregate_fields (buffer : list dict) (agg : dict) :
  aggregate_metrics buffer = Ret (Some agg) ->
  averaged agg "active_connections"
    (map (reading "active_connections" (PInt 0)) (measured buffer)) int_mean /\
  dict_lookup agg "max_connections" =
    option_map (reading "max_connections" (PInt 100))
               (hd_error (measured buffer)) /\
  averaged agg "cache_hit_rate"
    (filter positive
       (map (reading "cache_hit_rate" (PInt 0)) (measured buffer)))
    (fun xs => round_mean xs 4) /\
  averaged agg "sequential_scans"
    (map (reading "sequential_scans" (PInt 0)) (measured buffer)) int_mean /\
  dict_lookup agg "index_scans" =
    match measured buffer with [] => None | _ :: _ => Some (PInt 0) end /\
  averaged agg "query_health"
    (map (reading "query_health" (PInt 0)) (scored buffer))
    (fun xs => round_mean xs 2) /\
  averaged agg "connection_health"
    (map (reading "connection_health" (PInt 0)) (scored buffer))
    (fun xs => round_mean xs 2) /\
  averaged agg "cache_health"
    (map (reading "cache_health" (PInt 0)) (scored buffer))
    (fun xs => round_mean xs 2) /\
  averaged agg "overall_health"
    (map (reading "health_score" (PInt 0)) (scored buffer))
    (fun xs => round_mean xs 2).
Proof.
  intros H. apply aggregate_metrics_inv in H.
  destruct H as (_ & s & d1 & d2 & d3 & Hs & H1 & H2 & H3 & H4).
  apply loop_lists in Hs. subst s.
  apply average_connections_inv in H1. apply average_cache_inv in H2.
  apply average_scans_inv in H3. apply average_health_inv in H4.
  unfold lists_of in *.
  cbn [connection_samples cache_samples scan_samples health_samples] in *.
  rewrite map_map in H1, H3, H4.
  remember (filter positive _) as cs eqn:Hcs in *.
  destruct (measured buffer) as [| d ds]; cbn [map hd_error option_map] in *.
  - cbn [filter] in Hcs. subst cs. cbn iota in *. subst d1 d2 d3.
    destruct (scored buffer) as [| m ms]; cbn [map] in *.
    + subst agg. repeat split; reflexivity.
    + destruct H4 as (q & c & h & o & Hq & Hc & Hh & Ho & ->).
      rewrite map_map in Hc, Hh, Ho.
      repeat split; try reflexivity; eexists; (split; [eassumption |]);
        reflexivity.
  - destruct H1 as (a & Ha & ->). destruct H3 as (q & Hq & ->).
    clear Hcs.
    destruct cs as [| c0 cs].
    + subst d2.
      destruct (scored buffer) as [| m ms]; cbn [map] in *.
      * subst agg.
        repeat split; try reflexivity; eexists; (split; [eassumption |]);
          reflexivity.
      * destruct H4 as (q' & c & h & o & Hq' & Hc & Hh & Ho & ->).
        rewrite map_map in Hc, Hh, Ho.
        repeat split; try reflexivity; eexists; (split; [eassumption |]);
          reflexivity.
    + destruct H2 as (c & Hc & ->).
      destruct (scored buffer) as [| m ms]; cbn [map] in *.
      * subst agg.
        repeat split; try reflexivity; eexists; (split; [eassumption |]);
          reflexivity.
      * destruct H4 as (q' & c' & h & o & Hq' & Hc' & Hh & Ho & ->).
        rewrite map_map in Hc', Hh, Ho.
        repeat split; try reflexivity; eexists; (split; [eassumption |]);
          reflexivity.
Qed.

(** ** Sample buffers *)

Definition pool_of_100 : dict :=
  measurement_sample
    [("active_connections", PInt 4); ("max_connections", PInt 100)].

Definition pool_of_200 : dict :=
  measurement_sample
    [("active_connections", PInt 6); ("max_connections", PInt 200)].

(** One message reports ten connections, the next one none at all. *)
Definition one_reading_of_two : list dict :=
  [ measurement_sample [("active_connections", PInt 10)];
    measurement_sample [("cache_hit_rate", PFloat (1 # 2))] ].

(** The readings of a field in the messages where it is there and is not
    zero, as the specification words it. *)
Definition present (field : string) (buffer : list dict) : list pyval :=
  flat_map (fun d => match dict_lookup d field with
                     | Some v => if truthy v then [v] else []
                     | None => []
                     end) (measured buffer).

(** ** The claims *)

(** C6. [aggregate_metrics] returns [None] on the empty buffer, and on no
    other: an empty buffer never yields a record, zeroed or not. *)
Theorem aggregate_metrics_empty_buffer :
  aggregate_metrics [] = Ret None /\
  forall buffer, aggregate_metrics buffer = Ret None -> buffer = [].
Proof.
  split; [reflexivity |].
  intros [| m rest] H; [reflexivity |].
  unfold aggregate_metrics in H.
  destruct (loop no_samples (m :: rest)) as [s |]; [| discriminate].
  cbn [obind] in H.
  destruct (average_connections s []) as [d1 |]; [| discriminate].
  cbn [obind] in H.
  destruct (average_cache s d1) as [d2 |]; [| discriminate].
  cbn [obind] in H.
  destruct (average_scans s d2) as [d3 |]; [| discriminate].
  cbn [obind] in H.
  destruct (average_health s d3) as [d4 |]; discriminate.
Qed.

(** C3, as stated, fails: the aggregate is not invariant under every
    permutation of the buffer.  Two messages that report different
    [max_connections] give a different aggregate in either order. *)
Lemma aggregate_metrics_depends_on_order :
  ~ (forall buffer buffer',
       Permutation buffer buffer' ->
       aggregate_metrics buffer = aggregate_metrics buffer').
Proof.
  intros H.
  specialize (H [pool_of_100; pool_of_200] [pool_of_200; pool_of_100]
                (perm_swap _ _ _)).
  vm_compute in H. discriminate H.
Qed.

(** C4, as stated, fails: a field is not always averaged over only the
    messages where it is present and is not zero.  Of two messages with
    measurements, one reports ten active connections and the other none;
    the aggregate says five, the mean of the readings that are there is
    ten. *)
Lemma absent_reading_is_averaged_as_zero :
  exists agg,
    aggregate_metrics one_reading_of_two = Ret (Some agg) /\
    dict_lookup agg "active_connections" = Some (PInt 5) /\
    int_mean (present "active_connections" one_reading_of_two)
      = Ret (PInt 10).
Proof. eexists. repeat split; vm_compute; reflexivity. Qed.

(** C4, amended.  In a returned aggregate, [cache_hit_rate] is the mean,
    rounded to four places, over only the measurements whose
    [cache_hit_rate] is above zero, so that the five samples of scenario 2
    give 0.8833.  The other means leave no reading out:
    [active_connections] and [sequential_scans] are the truncated means
    over all messages with measurements, and the four health scores the
    means, rounded to two places, over all messages with some health score
    that is not zero; a reading that is absent counts as zero in them. *)
Theorem aggregate_metrics_means (buffer : list dict) (agg : dict) :
  aggregate_metrics buffer = Ret (Some agg) ->
  (averaged agg "cache_hit_rate"
     (filter positive
        (map (reading "cache_hit_rate" (PInt 0)) (measured buffer)))
     (fun xs => round_mean xs 4) /\
   averaged agg "active_connections"
     (map (reading "active_connections" (PInt 0)) (measured buffer))
     int_mean /\
   averaged agg "sequential_scans"
     (map (reading "sequential_scans" (PInt 0)) (measured buffer))
     int_mean /\
   averaged agg "query_health"
     (map (reading "query_health" (PInt 0)) (scored buffer))
     (fun xs => round_mean xs 2) /\
   averaged agg "connection_health"
     (map (reading "connection_health" (PInt 0)) (scored buffer))
     (fun xs => round_mean xs 2) /\
   averaged agg "cache_health"
     (map (reading "cache_health" (PInt 0)) (scored buffer))
     (fun xs => round_mean xs 2) /\
   averaged agg "overall_health"
     (map (reading "health_score" (PInt 0)) (scored buffer))
     (fun xs => round_mean xs 2)) /\
  (exists agg2,
     aggregate_metrics scenario2 = Ret (Some agg2) /\
     dict_lookup agg2 "cache_hit_rate" = Some (PFloat (8833 # 10000)) /\
     filter positive
       (map (reading "cache_hit_rate" (PInt 0)) (measured scenario2))
     = [PFloat (9 # 10); PFloat (8 # 10); PFloat (95 # 100)]).
Proof.
  intros H. split.
  - destruct (aggregate_fields buffer agg H)
      as (Ha & _ & Hc & Hs & _ & Hq & Hn & Hh & Ho).
    repeat split; assumption.
  - eexists. repeat split; vm_compute; reflexivity.
Qed.

Lemma aggregate_metrics_means_witness :
  aggregate_metrics one_reading_of_two =
    Ret (Some [("active_connections", PInt 5);
               ("max_connections", PInt 100);
               ("cache_hit_rate", PFloat (1 # 2));
               ("sequential_scans", PInt 0); ("index_scans", PInt 0)]) /\
  averaged [("active_connections", PInt 5); ("max_connections", PInt 100);
            ("cache_hit_rate", PFloat (1 # 2));
            ("sequential_scans", PInt 0); ("index_scans", PInt 0)]
    "active_connections"
    (map (reading "active_connections" (PInt 0))
         (measured one_reading_of_two))
    int_mean.
Proof.
  split; [reflexivity |].
  exact (proj1 (proj2 (proj1
    (aggregate_metrics_means one_reading_of_two _ eq_refl)))).
Defined.

(** C10, as stated, fails: a message can carry a [measurements] object and
    the aggregate still have no [index_scans].  An empty object is
    skipped like an absent one, and the aggregate is the empty dict. *)
Lemma empty_measurements_give_no_index_scans :
  dict_lookup (measurement_sample []) "measurements" = Some (PDict []) /\
  aggregate_metrics [measurement_sample []] = Ret (Some []).
Proof. split; reflexivity. Qed.

(** C10, amended.  When at least one message of the buffer carries a
    [measurements] object that is not empty, every aggregate that
    [aggregate_metrics] returns has [index_scans] equal to the int 0,
    whatever the messages hold. *)
Theorem aggregate_metrics_index_scans (buffer : list dict) (agg : dict) :
  (exists metric, In metric buffer /\ measurements_of metric <> None) ->
  aggregate_metrics buffer = Ret (Some agg) ->
  dict_lookup agg "index_scans" = Some (PInt 0).
Proof.
  intros (metric & Hin & Hm) H.
  destruct (aggregate_fields buffer agg H) as (_ & _ & _ & _ & Hi & _).
  rewrite Hi.
  destruct (measured buffer) as [| d ds] eqn:E; [| reflexivity].
  exfalso. unfold measured in E.
  assert (Hd : forall d, ~ In d (flat_map (fun m =>
              match measurements_of m with
              | Some d => [d]
              | None => []
              end) buffer)) by (rewrite E; intros d []).
  destruct (measurements_of metric) as [d |] eqn:Em; [| congruence].
  apply (Hd d). apply in_flat_map. exists metric.
  split; [assumption |]. rewrite Em. left. reflexivity.
Qed.

Lemma aggregate_metrics_index_scans_witness :
  measurements_of (measurement_sample [("cache_hit_rate", PFloat (9 # 10))])
    <> None /\
  aggregate_metrics scenario2 =
    Ret (Some [("active_connections", PInt 0); ("max_connections", PInt 100);
               ("cache_hit_rate", PFloat (8833 # 10000));
               ("sequential_scans", PInt 0); ("index_scans", PInt 0)]) /\
  dict_lookup
    [("active_connections", PInt 0); ("max_connections", PInt 100);
     ("cache_hit_rate", PFloat (8833 # 10000));
     ("sequential_scans", PInt 0); ("index_scans", PInt 0)]
    "index_scans" = Some (PInt 0).
Proof.
  split; [discriminate |]. split; [reflexivity |].
  refine (aggregate_metrics_index_scans scenario2 _ _ eq_refl).
  exists (measurement_sample [("cache_hit_rate", PFloat (9 # 10))]).
  split; [left; reflexivity | discriminate].
Defined.

End CollectorFacts.

(* ================================================================== *)
(** * Facts about locust_collector.py                                  *)
(* ================================================================== *)

Module LocustFacts.
Import Py PyFacts LocustCollector.
Local Open Scope string_scope.

Section WithParsers.
Context {parsers : StrParsers}.

(** ** Rows without a [None] cell *)

(** Every cell of the row is a string: the record was at least as long
    as the header. *)
Definition complete (row : dict) : Prop :=
  forall k v, dict_lookup row k = Some v -> exists s, v = PStr s.

(** The value of a conversion that did not raise, or raised what the
    [except] clause catches. *)
Definition caught_or_value {A} (r : outcome A) : Prop :=
  match r with
  | Ret _ => True
  | Raise ValueError => True
  | Raise _ => False
  end.

Lemma py_int_complete (row : dict) (k : string) (z : Z) :
  complete row -> caught_or_value (py_int (dict_get row k (PInt z))).
Proof.
  intros Hc. unfold dict_get.
  destruct (dict_lookup row k) as [v |] eqn:E; [| exact I].
  destruct (Hc k v E) as (s & ->). simpl.
  destruct (int_of_str s); exact I.
Qed.

Lemma py_float_complete (row : dict) (k : string) (d : pyval) :
  complete row -> (exists z, d = PInt z) \/ (exists s, d = PStr s) ->
  caught_or_value (py_float (dict_get row k d)).
Proof.
  intros Hc Hd. unfold dict_get.
  destruct (dict_lookup row k) as [v |] eqn:E.
  - destruct (Hc k v E) as (s & ->). simpl.
    destruct (float_of_str s); exact I.
  - destruct Hd as [(z & ->) | (s & ->)]; simpl; [exact I |].
    destruct (float_of_str s); exact I.
Qed.

Lemma caught_or_value_bind {A B} (m : outcome A) (k : A -> outcome B) :
  caught_or_value m -> (forall a, caught_or_value (k a)) ->
  caught_or_value (obind m k).
Proof.
  destruct m as [a | []]; simpl; intros Hm Hk; try contradiction; auto.
Qed.

Lemma dict_get_complete (row : dict) (k : string) (z : Z) :
  complete row ->
  (exists z', dict_get row k (PInt z) = PInt z') \/
  (exists s, dict_get row k (PInt z) = PStr s).
Proof.
  intros Hc. unfold dict_get.
  destruct (dict_lookup row k) as [v |] eqn:E; [| eauto].
  destruct (Hc k v E) as (s & ->). eauto.
Qed.

(** On such a row the [try] block either builds the metric or raises a
    [ValueError]. *)
Lemma build_metric_complete (row : dict) (method endpoint : string) :
  complete row -> caught_or_value (build_metric row method endpoint).
Proof.
  intros Hc. unfold build_metric.
  repeat (apply caught_or_value_bind;
          [ first [ apply py_int_complete; exact Hc
                  | apply py_float_complete;
                    [ exact Hc
                    | first [ left; eexists; reflexivity
                            | apply dict_get_complete; exact Hc ] ] ]
          | intros ? ]).
  exact I.
Qed.

Lemma py_strip_complete (row : dict) (k d : string) :
  complete row -> exists s, py_strip (dict_get row k (PStr d)) = Ret s.
Proof.
  intros Hc. unfold dict_get.
  destruct (dict_lookup row k) as [v |] eqn:E; [| simpl; eauto].
  destruct (Hc k v E) as (s & ->). simpl. eauto.
Qed.

(** The metric of a row, if the row yields one. *)
Definition metric_of (row : dict) : list metric :=
  if is_aggregated row then []
  else
    match py_strip (dict_get row "Name" (PStr "")),
          py_strip (dict_get row "Method" (PStr "GET")) with
    | Ret name, Ret method =>
        let (method, endpoint) :=
          match split_space name with
          | Some (m, e) => (m, e)
          | None => (method, name)
          end in
        match build_metric row method endpoint with
        | Ret m => [m]
        | Raise _ => []
        end
    | _, _ => []
    end.

(** When no row has a [None] cell, the loop finishes, with the metrics of
    the rows in file order: none for the total, none for a row whose
    numbers do not parse, one for every other row. *)
Lemma read_rows_complete (rows : list dict) (metrics : list metric) :
  Forall complete rows ->
  read_rows rows metrics = Ret (metrics ++ flat_map metric_of rows)%list.
Proof.
  intros H. revert metrics.
  induction H as [| row rows Hrow _ IH]; intros metrics.
  - simpl. rewrite app_nil_r. reflexivity.
  - cbn [read_rows flat_map]. unfold metric_of at 1.
    destruct (is_aggregated row); [apply IH |].
    destruct (py_strip_complete row "Name" "" Hrow) as (name & ->).
    destruct (py_strip_complete row "Method" "GET" Hrow) as (method & ->).
    cbn [obind].
    destruct (match split_space name with
              | Some (m, e) => (m, e)
              | None => (method, name)
              end) as [method' endpoint].
    pose proof (build_metric_complete row method' endpoint Hrow) as Hb.
    destruct (build_metric row method' endpoint) as [m | []];
      simpl in Hb; try contradiction.
    + rewrite IH, <- app_assoc. reflexivity.
    + apply IH.
Qed.

(** ** Records as long as the header *)

Lemma complete_set (d : dict) (k s : string) :
  complete d -> complete (dict_set d k (PStr s)).
Proof.
  intros Hc k' v. rewrite dict_lookup_set.
  destruct (String.eqb k k'); [| apply Hc].
  intros H. injection H as <-. eauto.
Qed.

Lemma zip_record_complete (fieldnames record : list string) :
  complete (zip_record fieldnames record).
Proof.
  unfold zip_record.
  assert (H : complete []) by (intros k v; discriminate).
  revert H. generalize (@nil (string * pyval)).
  induction (combine fieldnames record) as [| [k s] kvs IH]; intros d Hd.
  - exact Hd.
  - simpl. apply IH, complete_set, Hd.
Qed.

Lemma dict_row_complete (fieldnames record : list string) :
  (length fieldnames <= length record)%nat ->
  complete (dict_row fieldnames record).
Proof.
  intros Hlen. unfold dict_row.
  rewrite skipn_all2 by exact Hlen. apply zip_record_complete.
Qed.

(** X1 (C8 on full records).  A statistics file none of whose records is
    shorter than the header is read to the end.  The result holds the metrics of its rows in file
    order: none for a row named "Aggregated", wherever it stands, none
    for a row with a number that does not parse, exactly one for every
    other row. *)
Lemma extract_metrics_full_records
    (fs : string -> option csv_file) (csv_prefix : string)
    (fieldnames : list string) (records : list (list string)) :
  fs (csv_prefix ++ "_stats.csv") = Some (fieldnames :: records) ->
  Forall (fun r => (length fieldnames <= length r)%nat) records ->
  extract_metrics fs csv_prefix =
  Ret (flat_map metric_of (DictReader (fieldnames :: records))).
Proof.
  intros Hfs Hlen. unfold extract_metrics. rewrite Hfs.
  rewrite read_rows_complete; [reflexivity |].
  unfold DictReader. apply Forall_map. clear Hfs.
  induction Hlen as [| r rs Hr _ IH]; simpl; [constructor |].
  destruct (is_blank r); simpl; [exact IH |].
  constructor; [apply dict_row_complete, Hr | exact IH].
Qed.

(** ** The claims *)

(** C7. When the statistics file does not exist, [extract_metrics] returns
    the empty list and raises nothing; it returns the same for a file
    that holds a header and no data row, so the caller cannot tell the
    two apart. *)
Theorem extract_metrics_missing_file
    (fs fs' : string -> option csv_file) (csv_prefix : string)
    (header : list string) (blanks : list (list string)) :
  fs (csv_prefix ++ "_stats.csv") = None ->
  fs' (csv_prefix ++ "_stats.csv") = Some (header :: blanks) ->
  forallb is_blank blanks = true ->
  extract_metrics fs csv_prefix = Ret [] /\
  extract_metrics fs' csv_prefix = extract_metrics fs csv_prefix.
Proof.
  intros Hfs Hfs' Hblank. unfold extract_metrics.
  rewrite Hfs, Hfs'. split; [reflexivity |].
  unfold DictReader.
  replace (filter (fun r => negb (is_blank r)) blanks) with (@nil (list string));
    [reflexivity |].
  clear Hfs'. induction blanks as [| r rs IH]; [reflexivity |].
  simpl in *. apply andb_prop in Hblank. destruct Hblank as (Hr & Hrs).
  rewrite Hr. simpl. apply IH, Hrs.
Qed.

(** C8, on the code.  A statistics file cut off inside its last record,
    after the name: the cells that are missing read as [None], [int(None)]
    raises a [TypeError], which the [except ValueError] clause does not
    catch.  [extract_metrics] raises, whatever [int] and [float] accept,
    and the metric of the complete row before is lost with it. *)
Theorem extract_metrics_truncated_record :
  extract_metrics (one_file "outputs/run_stats.csv" truncated_stats)
                  "outputs/run"
  = Raise TypeError.
Proof.
  unfold extract_metrics. cbn [append]. unfold one_file.
  rewrite String.eqb_refl.
  unfold DictReader, truncated_stats. cbn [filter is_blank negb map].
  set (row1 := dict_row stats_header (_ :: _ :: _ :: _)).
  set (row2 := dict_row stats_header _).
  assert (Hrow1 : complete row1)
    by (apply dict_row_complete; cbn [length stats_header]; lia).
  assert (Hrow2 : forall metrics, read_rows [row2] metrics = Raise TypeError)
    by (intros metrics; vm_compute; reflexivity).
  cbn [read_rows] in *.
  replace (is_aggregated row1) with false by (vm_compute; reflexivity).
  destruct (py_strip_complete row1 "Name" "" Hrow1) as (name & ->).
  destruct (py_strip_complete row1 "Method" "GET" Hrow1) as (method & ->).
  cbn [obind].
  destruct (match split_space name with
            | Some (m, e) => (m, e)
            | None => (method, name)
            end) as [method' endpoint].
  pose proof (build_metric_complete row1 method' endpoint Hrow1) as Hb.
  destruct (build_metric row1 method' endpoint) as [m | []];
    simpl in Hb; try contradiction; apply Hrow2.
Qed.

End WithParsers.

Lemma extract_metrics_full_records_witness :
  one_file "outputs/run_stats.csv" posts_stats "outputs/run_stats.csv"
    = Some posts_stats /\
  @extract_metrics decimal_parsers
     (one_file "outputs/run_stats.csv" posts_stats) "outputs/run"
    = Ret (flat_map (@metric_of decimal_parsers) (DictReader posts_stats)) /\
  length (flat_map (@metric_of decimal_parsers) (DictReader posts_stats))
    = 1%nat.
Proof.
  split; [reflexivity |]. split; [| reflexivity].
  apply (@extract_metrics_full_records decimal_parsers
           (one_file "outputs/run_stats.csv" posts_stats) "outputs/run"
           stats_header (tl posts_stats) eq_refl).
  repeat constructor.
Defined.

Lemma extract_metrics_missing_file_witness :
  one_file "outputs/other_stats.csv" posts_stats "outputs/run_stats.csv"
    = None /\
  @extract_metrics decimal_parsers
     (one_file "outputs/other_stats.csv" posts_stats) "outputs/run"
    = Ret [] /\
  @extract_metrics decimal_parsers
     (one_file "outputs/run_stats.csv" [stats_header; []]) "outputs/run"
    = @extract_metrics decimal_parsers
        (one_file "outputs/other_stats.csv" posts_stats) "outputs/run".
Proof.
  split; [reflexivity |].
  exact (@extract_metrics_missing_file decimal_parsers
           (one_file "outputs/other_stats.csv" posts_stats)
           (one_file "outputs/run_stats.csv" [stats_header; []])
           "outputs/run" stats_header [[]] eq_refl eq_refl eq_refl).
Defined.

End LocustFacts.

(* ================================================================== *)
(** * Facts about benchmark_runner.py                                  *)
(* ================================================================== *)

Module RunnerFacts.
Import Py BenchmarkRunner.
Local Open Scope runner_scope.

(** ** Running a block to its end *)

(** The block [m], started in [w], ends (it does not run out of fuel),
    and its result and final world satisfy [Q]. *)
Definition wp {A} (m : M A) (Q : outcome A -> world -> Prop) (w : world)
  : Prop :=
  exists r w', m w = Some (r, w') /\ Q r w'.

Lemma wp_mono {A} (m : M A) (Q Q' : outcome A -> world -> Prop) w :
  (forall r w', Q r w' -> Q' r w') -> wp m Q w -> wp m Q' w.
Proof. intros H (r & w' & Hm & HQ). exists r, w'. auto. Qed.

Lemma wp_ret {A} (a : A) Q w : Q (Ret a) w -> wp (ret a) Q w.
Proof. intros H. exists (Ret a), w. auto. Qed.

Lemma wp_throw {A} (x : exn) (Q : outcome A -> world -> Prop) w :
  Q (Raise x) w -> wp (throw x) Q w.
Proof. intros H. exists (Raise x), w. auto. Qed.

Lemma wp_lift {A} (r : outcome A) Q w : Q r w -> wp (lift r) Q w.
Proof. intros H. exists r, w. auto. Qed.

Lemma wp_bind {A B} (m : M A) (k : A -> M B) Q w :
  wp m (fun r w' => match r with
                    | Ret a => wp (k a) Q w'
                    | Raise x => Q (Raise x) w'
                    end) w ->
  wp (bind m k) Q w.
Proof.
  intros (r & w' & Hm & H). unfold wp, bind. rewrite Hm.
  destruct r as [a | x]; [exact H | eauto].
Qed.

Lemma wp_try_except {A} (m : M A) (matching : exn -> bool)
    (handler : exn -> M A) Q w :
  wp m (fun r w' => match r with
                    | Ret a => Q (Ret a) w'
                    | Raise x => if matching x then wp (handler x) Q w'
                                 else Q (Raise x) w'
                    end) w ->
  wp (try_except m matching handler) Q w.
Proof.
  intros (r & w' & Hm & H). unfold wp, try_except. rewrite Hm.
  destruct r as [a | x]; [eauto |].
  destruct (matching x); [exact H | eauto].
Qed.

Lemma wp_try_finally {A} (m : M A) (cleanup : M unit) Q w :
  wp m (fun r w' =>
          wp cleanup (fun rc w'' => match rc with
                                    | Ret _ => Q r w''
                                    | Raise x => Q (Raise x) w''
                                    end) w') w ->
  wp (try_finally m cleanup) Q w.
Proof.
  intros (r & w' & Hm & rc & w'' & Hc & H). unfold wp, try_finally.
  rewrite Hm, Hc. destruct rc; eauto.
Qed.

(** ** The world after a primitive action *)

Definition recorded (ev : event) (w : world) : world :=
  {| clock := clock w; locust_process := locust_process w;
     locust_log_file := locust_log_file w; trace := trace w ++ [ev] |}.

Definition later (seconds : Z) (w : world) : world :=
  {| clock := clock w + seconds; locust_process := locust_process w;
     locust_log_file := locust_log_file w; trace := trace w |}.

Definition holding (p : option process) (w : world) : world :=
  {| clock := clock w; locust_process := p;
     locust_log_file := locust_log_file w; trace := trace w |}.

Definition logging (b : bool) (w : world) : world :=
  {| clock := clock w; locust_process := locust_process w;
     locust_log_file := b; trace := trace w |}.

Lemma wp_emit ev Q w : Q (Ret tt) (recorded ev w) -> wp (emit ev) Q w.
Proof. intros H. eexists _, _. split; [reflexivity | exact H]. Qed.

Lemma wp_now Q w : Q (Ret (clock w)) w -> wp now Q w.
Proof. intros H. eexists _, _. split; [reflexivity | exact H]. Qed.

Lemma wp_advance n Q w : Q (Ret tt) (later n w) -> wp (advance n) Q w.
Proof. intros H. eexists _, _. split; [reflexivity | exact H]. Qed.

Lemma wp_get_process Q w :
  Q (Ret (locust_process w)) w -> wp get_process Q w.
Proof. intros H. eexists _, _. split; [reflexivity | exact H]. Qed.

Lemma wp_set_process p Q w :
  Q (Ret tt) (holding p w) -> wp (set_process p) Q w.
Proof. intros H. eexists _, _. split; [reflexivity | exact H]. Qed.

Lemma wp_get_log_file Q w :
  Q (Ret (locust_log_file w)) w -> wp get_log_file Q w.
Proof. intros H. eexists _, _. split; [reflexivity | exact H]. Qed.

Lemma wp_set_log_file b Q w :
  Q (Ret tt) (logging b w) -> wp (set_log_file b) Q w.
Proof. intros H. eexists _, _. split; [reflexivity | exact H]. Qed.

Lemma wp_external e ev Q w :
  match raises e ev (clock w) with
  | Some x => Q (Raise x) (recorded ev w)
  | None => Q (Ret tt) (recorded ev w)
  end ->
  wp (external e ev) Q w.
Proof.
  intros H. unfold external.
  apply wp_bind, wp_emit. apply wp_bind, wp_now. cbn [clock recorded].
  destruct (raises e ev (clock w)); [apply wp_throw | apply wp_ret]; exact H.
Qed.

Lemma wp_time_sleep n why Q w :
  Q (Ret tt) (later n (recorded (sleep n why) w)) ->
  wp (time_sleep n why) Q w.
Proof.
  intros H. unfold time_sleep. apply wp_bind, wp_emit, wp_advance, H.
Qed.

Lemma wp_poll Q w :
  match locust_process w with
  | None => Q (Raise AttributeError) w
  | Some p => Q (Ret (returncode (polled p (clock w))))
                (holding (Some (polled p (clock w))) w)
  end ->
  wp poll Q w.
Proof.
  intros H. unfold poll. apply wp_bind, wp_get_process.
  destruct (locust_process w) as [p |]; [| apply wp_throw, H].
  apply wp_bind, wp_now. apply wp_bind, wp_set_process, wp_ret, H.
Qed.

Lemma wp_wait timeout Q w :
  match locust_process w with
  | None => Q (Raise AttributeError) (recorded (process_wait timeout) w)
  | Some p =>
      if gone p (clock w + timeout)
      then Q (Ret tt)
             (holding (Some (polled p (clock w + timeout)))
                (later (match exits_at p with
                        | Some t' => Z.max 0 (t' - clock w)
                        | None => 0
                        end) (recorded (process_wait timeout) w)))
      else match returncode p with
           | Some _ => Q (Ret tt) (recorded (process_wait timeout) w)
           | None => Q (Raise TimeoutExpired)
                       (later timeout (recorded (process_wait timeout) w))
           end
  end ->
  wp (wait timeout) Q w.
Proof.
  intros H. unfold wait. apply wp_bind, wp_emit. apply wp_bind, wp_get_process.
  cbn [locust_process recorded].
  destruct (locust_process w) as [p |]; [| apply wp_throw, H].
  apply wp_bind, wp_now. cbn [clock recorded].
  destruct (gone p (clock w + timeout)).
  - apply wp_bind, wp_advance. apply wp_set_process, H.
  - destruct (returncode p); [apply wp_ret, H |].
    apply wp_bind, wp_advance, wp_throw, H.
Qed.

Lemma wp_terminate Q w :
  match locust_process w with
  | None => Q (Raise AttributeError) (recorded process_terminate w)
  | Some p =>
      Q (Ret tt)
        (holding (Some (if heeds_sigterm p then struck p (clock w) (-15)
                        else polled p (clock w)))
                 (recorded process_terminate w))
  end ->
  wp terminate Q w.
Proof.
  intros H. unfold terminate. apply wp_bind, wp_emit.
  apply wp_bind, wp_get_process. cbn [locust_process recorded].
  destruct (locust_process w) as [p |]; [| apply wp_throw, H].
  apply wp_bind, wp_now. apply wp_set_process, H.
Qed.

Lemma wp_kill Q w :
  match locust_process w with
  | None => Q (Raise AttributeError) (recorded process_kill w)
  | Some p =>
      Q (Ret tt) (holding (Some (struck p (clock w) (-9)))
                          (recorded process_kill w))
  end ->
  wp kill Q w.
Proof.
  intros H. unfold kill. apply wp_bind, wp_emit.
  apply wp_bind, wp_get_process. cbn [locust_process recorded].
  destruct (locust_process w) as [p |]; [| apply wp_throw, H].
  apply wp_bind, wp_now. apply wp_set_process, H.
Qed.

Ltac wp_step :=
  lazymatch goal with
  | |- wp (bind _ _) _ _ => apply wp_bind
  | |- wp (ret _) _ _ => apply wp_ret
  | |- wp (throw _) _ _ => apply wp_throw
  | |- wp (lift _) _ _ => apply wp_lift
  | |- wp (emit _) _ _ => apply wp_emit
  | |- wp now _ _ => apply wp_now
  | |- wp (advance _) _ _ => apply wp_advance
  | |- wp get_process _ _ => apply wp_get_process
  | |- wp (set_process _) _ _ => apply wp_set_process
  | |- wp get_log_file _ _ => apply wp_get_log_file
  | |- wp (set_log_file _) _ _ => apply wp_set_log_file
  | |- wp (external _ _) _ _ => apply wp_external
  | |- wp (time_sleep _ _) _ _ => apply wp_time_sleep
  | |- wp (try_except _ _ _) _ _ => apply wp_try_except
  | |- wp (try_finally _ _) _ _ => apply wp_try_finally
  | |- wp poll _ _ => apply wp_poll
  | |- wp (wait _) _ _ => apply wp_wait
  | |- wp terminate _ _ => apply wp_terminate
  | |- wp kill _ _ => apply wp_kill
  end;
  cbn beta iota;
  cbn [clock trace locust_process locust_log_file
       recorded later holding logging].

Ltac wp_steps := repeat wp_step.

(** ** The events that matter below *)

Definition notable (ev : event) : bool :=
  match ev with
  | create_benchmark_run _ _ _ _ _ _
  | insert_locust_metrics _ _
  | insert_collector_metrics _ _
  | create_run_summary _
  | get_aggregated_metrics
  | extract_metrics _
  | process_terminate
  | sleep _ Grace
  | sleep _ Cooldown
  | log_benchmark_failed _ => true
  | _ => false
  end.

(** The events from [w] to [w']. *)
Definition since (w w' : world) (evs : list event) : Prop :=
  trace w' = (trace w ++ evs)%list.

Lemma since_trans w w' w'' evs evs' :
  since w w' evs -> since w' w'' evs' -> since w w'' (evs ++ evs').
Proof. unfold since. intros -> ->. apply eq_sym, app_assoc. Qed.

(** ** The child process *)

(** A return code was only ever read off a process that had exited. *)
Definition sound (p : process) (t : Z) : Prop :=
  match returncode p with
  | None => True
  | Some c => c = code p /\ gone p t = true
  end.

Lemma gone_mono p t t' : gone p t = true -> t <= t' -> gone p t' = true.
Proof.
  unfold gone. destruct (exits_at p); [| discriminate].
  rewrite !Z.leb_le. lia.
Qed.

Lemma sound_mono p t t' : sound p t -> t <= t' -> sound p t'.
Proof.
  unfold sound. destruct (returncode p); [| auto].
  intros (Hc & Hg) Ht. split; [exact Hc | eapply gone_mono; eassumption].
Qed.

Lemma polled_sound p t : sound p t -> sound (polled p t) t.
Proof.
  unfold sound, polled. destruct (returncode p) eqn:E.
  - rewrite E. auto.
  - destruct (gone p t) eqn:G; cbn [returncode code]; [| rewrite E; auto].
    intros _. split; [reflexivity | exact G].
Qed.

Lemma polled_exits_at p t : exits_at (polled p t) = exits_at p.
Proof.
  unfold polled. destruct (returncode p); [reflexivity |].
  destruct (gone p t); reflexivity.
Qed.

Lemma polled_code p t : code (polled p t) = code p.
Proof.
  unfold polled. destruct (returncode p); [reflexivity |].
  destruct (gone p t); reflexivity.
Qed.

Lemma polled_gone p t t' : gone (polled p t) t' = gone p t'.
Proof. unfold gone. rewrite polled_exits_at. reflexivity. Qed.

Lemma polled_returncode_some p t c :
  sound p t -> returncode (polled p t) = Some c ->
  c = code p /\ gone p t = true.
Proof.
  intros Hs Hr. apply polled_sound in Hs. unfold sound in Hs.
  rewrite Hr, polled_code, polled_gone in Hs. exact Hs.
Qed.

Ltac since_tac :=
  unfold since in *;
  cbn [clock trace locust_process locust_log_file
       recorded later holding logging] in *;
  repeat match goal with
         | H : trace ?w = _ |- context [trace ?w] => rewrite H
         end;
  rewrite <- ?app_assoc;
  first [ reflexivity | symmetry; apply app_nil_r ].

Section Blocks.
Context {parsers : LocustCollector.StrParsers}.
Variable self : runner.

Lemma stop_locust_spec Q w :
  (forall w' evs,
      since w w' evs ->
      filter notable evs =
        match locust_process w with
        | Some _ => [process_terminate]
        | None => []
        end ->
      locust_process w' = None ->
      Q (Ret tt) w') ->
  wp stop_locust Q w.
Proof.
  intros H. unfold stop_locust. wp_step. wp_step.
  destruct (locust_process w) as [p |] eqn:E.
  - wp_step. wp_step. wp_step. wp_step. rewrite E.
    wp_step. wp_step. wp_step.
    set (p' := if heeds_sigterm p then _ else _).
    destruct (gone p' (clock w + 10)).
    + wp_step. eapply H; [since_tac | reflexivity | reflexivity].
    + destruct (returncode p').
      * wp_step. eapply H; [since_tac | reflexivity | reflexivity].
      * cbn [timeout_expired]. wp_step. wp_step.
        eapply H; [since_tac | reflexivity | reflexivity].
  - wp_step. eapply H; [since_tac | reflexivity | exact E].
Qed.


Lemma launched_sound e t t' : sound (launched e t) t'.
Proof. exact I. Qed.

Lemma start_locust_spec e run_id u sr d Q w :
  (forall b w' evs,
      since w w' evs ->
      match b with
      | true =>
          exists T p',
            filter notable evs = [sleep 3 Grace] /\
            locust_process w' = Some p' /\
            exits_at p' = option_map (fun l => T + l) (lifetime e) /\
            code p' = exit_code e /\
            sound p' (clock w') /\
            clock w' = T + 3
      | false =>
          (filter notable evs = [] /\ locust_process w' = locust_process w)
          \/
          (filter notable evs = [sleep 3 Grace] /\
           (exists p', locust_process w' = Some p') /\
           exists l, lifetime e = Some l /\ l <= 3)
      end ->
      Q (Ret b) w') ->
  wp (start_locust self e run_id u sr d) Q w.
Proof.
  intros H. unfold start_locust. cbv zeta.
  wp_step. wp_step. wp_step.
  destruct (raises e (open_log _) (clock w)) as [x |].
  { cbn [any_exception]. wp_steps.
    eapply (H false); [since_tac | left; split; reflexivity]. }
  wp_steps.
  destruct (raises e (popen _) (clock w)) as [x |].
  { cbn [any_exception]. wp_steps.
    eapply (H false); [since_tac | left; split; reflexivity]. }
  wp_steps.
  destruct (returncode (polled (launched e (clock w)) (clock w + 3)))
    as [c |] eqn:Hrc.
  - wp_steps. eapply (H false); [since_tac | right].
    split; [reflexivity |]. split; [eexists; reflexivity |].
    apply polled_returncode_some in Hrc; [| apply launched_sound].
    destruct Hrc as (_ & Hg). unfold gone, launched in Hg.
    cbn [exits_at] in Hg.
    destruct (lifetime e) as [l |]; [| discriminate].
    exists l. split; [reflexivity |].
    cbn [option_map] in Hg. apply Z.leb_le in Hg. lia.
  - wp_steps. eapply (H true); [since_tac |].
    exists (clock w), (polled (launched e (clock w)) (clock w + 3)).
    split; [reflexivity |]. split; [reflexivity |].
    rewrite polled_exits_at, polled_code.
    split; [reflexivity |]. split; [reflexivity |].
    split; [| reflexivity].
    apply polled_sound, launched_sound.
Qed.

Lemma wait_for_locust_completion_spec timeout Q w p :
  locust_process w = Some p ->
  sound p (clock w) ->
  0 <= timeout ->
  (forall b w' evs p',
      since w w' evs ->
      filter notable evs = [] ->
      locust_process w' = Some p' ->
      (b = true -> code p = 0 /\ gone p (clock w + timeout) = true) ->
      Q (Ret b) w') ->
  wp (wait_for_locust_completion timeout) Q w.
Proof.
  intros Hp Hs Ht H. unfold wait_for_locust_completion.
  wp_step. wp_step. rewrite Hp.
  assert (Hclose : forall b w1 evs p',
             since w w1 evs -> filter notable evs = [] ->
             locust_process w1 = Some p' ->
             (b = true -> code p = 0 /\ gone p (clock w + timeout) = true) ->
             wp close_log_file
                (fun rc w'' => match rc with
                               | Ret _ => Q (Ret b) w''
                               | Raise x => Q (Raise x) w''
                               end) w1).
  { intros b w1 evs p' Hw1 Hn Hp1 Hb. unfold close_log_file.
    wp_step. wp_step. destruct (locust_log_file w1); wp_step.
    - eapply H; [| exact Hn | exact Hp1 | exact Hb].
      unfold since in *. cbn [trace logging]. exact Hw1.
    - eapply H; eassumption. }
  wp_step. wp_step. wp_step. wp_step. rewrite Hp.
  destruct (gone p (clock w + timeout)) eqn:Hg.
  - wp_steps.
    eapply Hclose; [since_tac | reflexivity | reflexivity |].
    intros Hb. cbn [option_map] in Hb.
    destruct (returncode (polled p (clock w + timeout))) as [c |] eqn:Hrc;
      [| discriminate].
    apply polled_returncode_some in Hrc;
      [| eapply sound_mono; [exact Hs | lia]].
    destruct Hrc as (-> & _).
    destruct (code p); try discriminate. auto.
  - destruct (returncode p) as [c |] eqn:Hrc.
    + exfalso. unfold sound in Hs. rewrite Hrc in Hs. destruct Hs as (_ & Hg0).
      apply (gone_mono _ _ (clock w + timeout)) in Hg0; [congruence | lia].
    + cbn [timeout_expired]. wp_steps.
      eapply Hclose; [since_tac | reflexivity | exact Hp | discriminate].
Qed.


Lemma keep_alive_loop_spec e start d fuel : forall w p Q,
  locust_process w = Some p ->
  sound p (clock w) ->
  start <= clock w ->
  (1 <= fuel)%nat ->
  d + 60 - (clock w - start) < Z.of_nat fuel ->
  (forall r w' evs p',
      since w w' evs ->
      filter notable evs = [] ->
      locust_process w' = Some p' ->
      exits_at p' = exits_at p ->
      code p' = code p ->
      sound p' (clock w') ->
      clock w <= clock w' ->
      clock w' - start <= Z.max (clock w - start + 1) (d + 61) ->
      Q r w') ->
  wp (keep_alive_loop fuel e start d) Q w.
Proof.
  induction fuel as [| fuel IH]; intros w p Q Hp Hs Hst Hf1 Hf H; [lia |].
  cbn [keep_alive_loop]. wp_step. wp_step. rewrite Hp.
  destruct (returncode (polled p (clock w))) as [c |] eqn:Hrc.
  - wp_step.
    eapply H; [since_tac | reflexivity | reflexivity
              | apply polled_exits_at | apply polled_code
              | apply polled_sound, Hs | cbn; lia | cbn; lia].
  - wp_step. wp_step.
    destruct (raises e keep_alive (clock w)) as [x |].
    + eapply H; [since_tac | reflexivity | reflexivity
                | apply polled_exits_at | apply polled_code
                | apply polled_sound, Hs | cbn; lia | cbn; lia].
    + wp_steps.
      destruct (clock w + 1 - start >? d + 60) eqn:Hlate.
      * wp_step.
        eapply H; [since_tac | reflexivity | reflexivity
                  | apply polled_exits_at | apply polled_code
                  | | cbn; lia | cbn; lia].
        cbn. eapply sound_mono; [apply polled_sound, Hs | lia].
      * assert (Hle : clock w + 1 - start <= d + 60)
          by (destruct (Z.gtb_spec (clock w + 1 - start) (d + 60));
              [discriminate | lia]).
        eapply IH;
          [ reflexivity
          | cbn; eapply sound_mono; [apply polled_sound, Hs | lia]
          | cbn; lia | lia | cbn; lia |].
        intros r w' evs p' Hw' Hn Hp' Hx Hc Hs' Hc1 Hc2.
        cbn [clock recorded later holding] in Hc1, Hc2.
        eapply (H r w' ([keep_alive] ++ evs)%list p').
        -- eapply since_trans; [| exact Hw']. since_tac.
        -- rewrite filter_app, Hn. reflexivity.
        -- exact Hp'.
        -- rewrite Hx. apply polled_exits_at.
        -- rewrite Hc. apply polled_code.
        -- exact Hs'.
        -- lia.
        -- lia.
Qed.


(** ** What a run did, read off its notable events *)

Definition is_metrics (ev : event) : bool :=
  match ev with
  | extract_metrics _ | insert_locust_metrics _ _ | get_aggregated_metrics
  | insert_collector_metrics _ _ | create_run_summary _ => true
  | _ => false
  end.

Definition is_summary (ev : event) : bool :=
  match ev with create_run_summary _ => true | _ => false end.

Definition is_cooldown (ev : event) : bool :=
  match ev with sleep _ Cooldown => true | _ => false end.

Definition is_cooldown_of (c : Z) (ev : event) : bool :=
  match ev with sleep s Cooldown => s =? c | _ => false end.

(** The grace sleep follows a successful [Popen]. *)
Definition is_launch (ev : event) : bool :=
  match ev with sleep _ Grace => true | _ => false end.

Definition is_terminate (ev : event) : bool :=
  match ev with process_terminate => true | _ => false end.

Definition is_failed (ev : event) : bool :=
  match ev with log_benchmark_failed _ => true | _ => false end.

Definition is_create (ev : event) : bool :=
  match ev with create_benchmark_run _ _ _ _ _ _ => true | _ => false end.

(** Locust exited by itself with code 0, before the wait that follows
    the polling loop gave up. *)
Definition clean_exit (e : env) (duration : Z) : Prop :=
  exit_code e = 0 /\
  exists l, lifetime e = Some l /\ l <= 3 + Z.max 1 (duration + 61) + 30.

Record collected (e : env) (d c : Z) (r : outcome bool) (N : list event)
    (w' : world) : Prop :=
  { col_clean :
      r = Ret true \/ existsb is_metrics N = true -> clean_exit e d;
    col_true :
      r = Ret true ->
      existsb is_summary N = true /\
      (0 < c -> existsb (is_cooldown_of c) N = true);
    col_cool :
      existsb is_cooldown N = true ->
      existsb is_summary N = true /\ 0 < c;
    col_term :
      r = Ret false -> existsb is_launch N = true ->
      (forall l, lifetime e = Some l -> 3 < l) ->
      existsb is_terminate N = true;
    col_held :
      existsb is_launch N = true ->
      existsb is_terminate N = true \/ locust_process w' <> None;
    col_quiet :
      existsb is_failed N = false /\ existsb is_create N = false }.

Ltac notable_tac :=
  rewrite ?filter_app;
  repeat match goal with
         | H : filter notable _ = _ |- _ => rewrite H
         end;
  cbn [filter notable app].

Ltac collected_tac :=
  repeat match goal with
         | H : (_ >? _) = true |- _ =>
             rewrite Z.gtb_ltb in H; apply Z.ltb_lt in H
         | H : (_ >? _) = false |- _ =>
             rewrite Z.gtb_ltb in H; apply Z.ltb_ge in H
         end;
  constructor;
  cbn [existsb is_metrics is_summary is_cooldown is_cooldown_of is_launch
       is_terminate is_failed is_create orb
       locust_process recorded later holding logging];
  rewrite ?Z.eqb_refl;
  try solve [ intuition (try discriminate; try congruence; try lia) ];
  try solve [ intros;
              match goal with
              | Hl : lifetime ?e = Some ?l,
                Hlate : forall l0, lifetime ?e = Some l0 -> _ |- _ =>
                  specialize (Hlate l Hl); lia
              end ].

Ltac tail_step :=
  first
    [ wp_step
    | match goal with
      | |- match raises ?e ?ev ?t with _ => _ end =>
          destruct (raises e ev t)
      | |- wp (if ?b then _ else _) _ _ => destruct b eqn:?
      | |- wp (match ?x with _ => _ end) _ _ => destruct x
      | |- match ?r with Ret _ => _ | Raise _ => _ end => destruct r
      end; cbn beta iota ].

Lemma collecting_spec e run_id csv_prefix u d c Q w :
  (forall r w' evs,
      since w w' evs ->
      collected e d c r (filter notable evs) w' ->
      Q r w') ->
  wp (collecting self e run_id csv_prefix u d c) Q w.
Proof.
  intros H. unfold collecting.
  wp_step. wp_step.
  destruct (raises e start_collecting (clock w)) as [x |].
  { eapply H; [since_tac | notable_tac; collected_tac]. }
  wp_step. wp_step. wp_step.
  apply start_locust_spec. intros [|] w1 evs1 Hw1 Hstart.
  2:{ cbn beta iota. cbn [negb]. wp_step.
      eapply H; [since_tac |].
      destruct Hstart as [(Hn1 & Hp1) | (Hn1 & (p1 & Hp1) & l & Hl & Hl3)];
        notable_tac; collected_tac. }
  destruct Hstart as (T & p1 & Hn1 & Hp1 & Hx1 & Hc1 & Hs1 & Ht1).
  cbn beta iota. cbn [negb]. wp_step. wp_step. wp_step.
  eapply (keep_alive_loop_spec e (clock w1) d (loop_fuel d) w1 p1);
    [exact Hp1 | exact Hs1 | lia | unfold loop_fuel; lia
    | unfold loop_fuel; lia |].
  intros r w2 evs2 p2 Hw2 Hn2 Hp2 Hx2 Hc2 Hs2 Hge2 Hle2.
  destruct r as [[] | x]; cbn beta iota.
  2:{ eapply H; [since_tac | notable_tac; collected_tac]. }
  wp_step.
  eapply (wait_for_locust_completion_spec 30 _ w2 p2);
    [exact Hp2 | exact Hs2 | lia |].
  intros clean w3 evs3 p3 Hw3 Hn3 Hp3 Hclean.
  destruct clean; cbn beta iota; cbn [negb].
  2:{ wp_step. apply stop_locust_spec. intros w4 evs4 Hw4 Hn4 Hp4.
      rewrite Hp3 in Hn4. cbn beta iota. wp_step.
      eapply H; [since_tac | notable_tac; collected_tac]. }
  destruct (Hclean eq_refl) as (Hcode & Hgone).
  assert (Hce : clean_exit e d).
  { unfold clean_exit. split; [congruence |].
    unfold gone in Hgone. rewrite Hx2, Hx1 in Hgone.
    destruct (lifetime e) as [l |]; [| discriminate].
    exists l. split; [reflexivity |].
    cbn [option_map] in Hgone. apply Z.leb_le in Hgone. lia. }
  assert (Hheld : locust_process w3 <> None) by congruence.
  clear Hclean Hcode Hgone.
  repeat tail_step;
    (eapply H; [since_tac | notable_tac; collected_tac]).
Qed.


Record reported (e : env) (d c : Z) (b : bool) (N : list event)
    (w' : world) : Prop :=
  { rep_clean :
      b = true \/ existsb is_metrics N = true -> clean_exit e d;
    rep_true :
      b = true ->
      existsb is_summary N = true /\
      (0 < c -> existsb (is_cooldown_of c) N = true);
    rep_cool :
      existsb is_cooldown N = true ->
      existsb is_summary N = true /\ 0 < c;
    rep_term :
      b = false -> existsb is_launch N = true ->
      (forall l, lifetime e = Some l -> 3 < l) ->
      existsb is_terminate N = true;
    rep_failed :
      existsb is_failed N = true ->
      b = false /\ locust_process w' = None /\
      (existsb is_launch N = true -> existsb is_terminate N = true);
    rep_create : length (filter is_create N) = 1%nat }.

Lemma filter_none {A} (P : A -> bool) (l : list A) :
  existsb P l = false -> filter P l = [].
Proof.
  induction l as [| a l IH]; [reflexivity |].
  simpl. destruct (P a); [discriminate | exact IH].
Qed.

Ltac reported_tac Hcol :=
  destruct Hcol as [Hclean Htrue Hcool Hterm Hheld (Hnofail & Hnocreate)];
  constructor;
  rewrite ?filter_app, ?existsb_app, ?length_app;
  cbn [existsb filter length app is_metrics is_summary is_cooldown
       is_cooldown_of is_launch is_terminate is_failed is_create orb
       locust_process recorded later holding logging];
  rewrite ?existsb_app, ?(filter_none _ _ Hnocreate), ?Hnofail;
  cbn [existsb filter length app is_metrics is_summary is_cooldown
       is_cooldown_of is_launch is_terminate is_failed is_create orb];
  rewrite ?orb_false_r, ?orb_true_r;
  try solve [ intuition (try discriminate; try congruence) ].

Lemma collected_weaken e d c r x N w1 w2 :
  locust_process w2 = locust_process w1 ->
  collected e d c r N w1 -> collected e d c (Raise x) N w2.
Proof.
  intros Hp [Hclean Htrue Hcool Hterm Hheld Hquiet].
  constructor; try discriminate; try assumption.
  - intros [Hr | Hm]; [discriminate | auto].
  - rewrite Hp. exact Hheld.
Qed.

(** What [run_single_test] ends with. *)
Definition finished (e : env) (d c : Z) (w : world)
    (r : outcome bool) (w' : world) : Prop :=
  exists b evs,
    r = Ret b /\ since w w' evs /\
    reported e d c b (filter notable evs) w'.

(** The [except Exception] block of [run_single_test]. *)
Lemma handler_spec e d c x w w1 evs1 rid name st u tgt N1 :
  since w w1 evs1 ->
  filter notable evs1 = create_benchmark_run rid name st u d tgt :: N1 ->
  collected e d c (Raise x) N1 w1 ->
  wp (emit (log_benchmark_failed x) ;; stop_locust ;; ret false)
     (finished e d c w) w1.
Proof.
  intros Hw1 Hn1 Hcol. wp_step. wp_step. wp_step.
  apply stop_locust_spec. intros w2 evs2 Hw2 Hn2 Hp2.
  cbn beta iota. wp_step.
  exists false, (evs1 ++ [log_benchmark_failed x] ++ evs2)%list.
  split; [reflexivity |]. split; [since_tac |].
  cbn [locust_process recorded] in Hn2.
  rewrite !filter_app, Hn1, Hn2. cbn [filter notable app].
  destruct (locust_process w1) as [p |] eqn:Hp1; reported_tac Hcol.
  all: try solve [ rewrite ?filter_app, ?(filter_none _ _ Hnocreate);
                   reflexivity ].
  all: try solve [ intuition (try discriminate; try congruence) ].
Qed.

Lemma run_single_test_wp e u d c w :
  wp (run_single_test self e u d c) (finished e d c w) w.
Proof.
  unfold run_single_test. cbv zeta.
  wp_step. wp_step. wp_step.
  destruct (raises e (create_benchmark_run _ _ _ _ _ _) (clock w)) as [x |].
  { cbn [any_exception].
    eapply handler_spec; [since_tac | reflexivity | collected_tac]. }
  wp_step. wp_step.
  destruct (raises e collector_enter (clock w)) as [x |].
  { cbn [any_exception].
    eapply handler_spec; [since_tac | reflexivity | collected_tac]. }
  wp_step. apply collecting_spec. intros r w1 evs1 Hw1 Hcol.
  wp_step.
  destruct (raises e collector_exit (clock w1)) as [x |].
  { cbn [any_exception].
    eapply handler_spec;
      [ since_tac
      | rewrite !filter_app; cbn [filter notable app];
        rewrite ?app_nil_r; reflexivity
      | eapply collected_weaken; [| exact Hcol]; reflexivity ]. }
  destruct r as [b | x]; cbn beta iota.
  - exists b. eexists. split; [reflexivity |]. split; [since_tac |].
    rewrite !filter_app. cbn [filter notable app]. rewrite app_nil_r.
    destruct b; reported_tac Hcol.
    all: try solve [ rewrite ?filter_app, ?(filter_none _ _ Hnocreate);
                     reflexivity ].
  - cbn [any_exception].
    eapply handler_spec;
      [ since_tac
      | rewrite !filter_app; cbn [filter notable app];
        rewrite ?app_nil_r; reflexivity
      | eapply collected_weaken; [| exact Hcol]; reflexivity ].
Qed.


(** ** The notable events are all that the reports look at *)

Lemma existsb_notable (P : event -> bool) (evs : list event) :
  (forall ev, P ev = true -> notable ev = true) ->
  existsb P (filter notable evs) = existsb P evs.
Proof.
  intros HP. induction evs as [| ev evs IH]; [reflexivity |].
  cbn [filter existsb]. destruct (notable ev) eqn:En; cbn [existsb].
  - rewrite IH. reflexivity.
  - rewrite IH. destruct (P ev) eqn:Ep; [| reflexivity].
    apply HP in Ep. congruence.
Qed.

Lemma filter_notable (P : event -> bool) (evs : list event) :
  (forall ev, P ev = true -> notable ev = true) ->
  filter P (filter notable evs) = filter P evs.
Proof.
  intros HP. induction evs as [| ev evs IH]; [reflexivity |].
  cbn [filter]. destruct (notable ev) eqn:En; cbn [filter].
  - rewrite IH. reflexivity.
  - rewrite IH. destruct (P ev) eqn:Ep; [| reflexivity].
    apply HP in Ep. congruence.
Qed.

Ltac notable_class :=
  let ev := fresh "ev" in
  intros ev; destruct ev; try discriminate; try reflexivity;
  match goal with
  | why : pause |- _ => destruct why; try discriminate; reflexivity
  end.

Lemma reported_all e d c b evs w' :
  reported e d c b (filter notable evs) w' -> reported e d c b evs w'.
Proof.
  assert (H1 : forall ev, is_metrics ev = true -> notable ev = true)
    by notable_class.
  assert (H2 : forall ev, is_summary ev = true -> notable ev = true)
    by notable_class.
  assert (H3 : forall ev, is_cooldown ev = true -> notable ev = true)
    by notable_class.
  assert (H4 : forall ev, is_cooldown_of c ev = true -> notable ev = true)
    by notable_class.
  assert (H5 : forall ev, is_launch ev = true -> notable ev = true)
    by notable_class.
  assert (H6 : forall ev, is_terminate ev = true -> notable ev = true)
    by notable_class.
  assert (H7 : forall ev, is_failed ev = true -> notable ev = true)
    by notable_class.
  assert (H8 : forall ev, is_create ev = true -> notable ev = true)
    by notable_class.
  intros [A B C D E F].
  rewrite ?(existsb_notable _ _ H1), ?(existsb_notable _ _ H2),
    ?(existsb_notable _ _ H3), ?(existsb_notable _ _ H4),
    ?(existsb_notable _ _ H5), ?(existsb_notable _ _ H6),
    ?(existsb_notable _ _ H7), ?(filter_notable _ _ H8) in *.
  constructor; assumption.
Qed.

(** [run_single_test] always returns, and returns a bool. *)
Lemma run_single_test_report e u d c w :
  exists b w' evs,
    run_single_test self e u d c w = Some (Ret b, w') /\
    trace w' = (trace w ++ evs)%list /\
    reported e d c b evs w'.
Proof.
  destruct (run_single_test_wp e u d c w)
    as (r & w' & Hrun & b & evs & -> & Hw' & Hrep).
  exists b, w', evs. split; [exact Hrun |]. split; [exact Hw' |].
  apply reported_all, Hrep.
Qed.

(** ** The suite *)

(** One turn of the suite's loop: the test that ran, the world it
    started in, what it returned, the calls it made and the world it
    left. *)
Record segment : Type :=
  { seg_env : env;
    seg_users : Z;
    seg_start : world;
    seg_passed : bool;
    seg_events : list event;
    seg_world : world }.

(** The calls of a turn, with the error the suite logs for a failed test. *)
Definition segment_trace (s : segment) : list event :=
  (seg_events s ++
   (if seg_passed s then [] else [log_test_failed (seg_users s)]))%list.

(** The turn is a call of [run_single_test] that returned. *)
Definition segment_run (d c : Z) (s : segment) : Prop :=
  run_single_test self (seg_env s) (seg_users s) d c (seg_start s)
    = Some (Ret (seg_passed s), seg_world s) /\
  trace (seg_world s) = (trace (seg_start s) ++ seg_events s)%list /\
  reported (seg_env s) d c (seg_passed s) (seg_events s) (seg_world s).

Lemma wp_bind_ret {A B} (m : M A) (k : A -> M B) Q w a w1 :
  m w = Some (Ret a, w1) -> wp (k a) Q w1 -> wp (bind m k) Q w.
Proof.
  intros Hm (r & w' & Hk & HQ). exists r, w'. split; [| exact HQ].
  unfold bind. rewrite Hm. exact Hk.
Qed.

Lemma suite_loop_wp envs d c user_counts : forall idx success w,
  wp (suite_loop self envs idx user_counts d c success)
     (fun r w' =>
        exists segs,
          r = Ret (success + Z.of_nat (length (filter seg_passed segs))) /\
          since w w' (concat (map segment_trace segs)) /\
          map seg_users segs = user_counts /\
          map seg_env segs = map envs (seq idx (length user_counts)) /\
          Forall (segment_run d c) segs) w.
Proof.
  induction user_counts as [| users rest IH]; intros idx success w.
  - cbn [suite_loop]. wp_step. exists []. cbn.
    split; [f_equal; lia |]. split; [since_tac |]. auto.
  - cbn [suite_loop].
    destruct (run_single_test_report (envs idx) users d c w)
      as (b & w1 & evs & Hrun & Hw1 & Hrep).
    eapply wp_bind_ret; [exact Hrun |]. wp_step.
    set (s := {| seg_env := envs idx; seg_users := users; seg_start := w;
                 seg_passed := b; seg_events := evs; seg_world := w1 |}).
    assert (Hnext : forall success' w2,
              since w w2 (segment_trace s) ->
              success' = success + Z.of_nat (length (filter seg_passed [s])) ->
              wp (suite_loop self envs (S idx) rest d c success')
                 (fun r w' =>
                    exists segs,
                      r = Ret (success +
                               Z.of_nat (length (filter seg_passed segs))) /\
                      since w w' (concat (map segment_trace segs)) /\
                      map seg_users segs = users :: rest /\
                      map seg_env segs =
                        map envs (seq idx (length (users :: rest))) /\
                      Forall (segment_run d c) segs) w2).
    { intros success' w2 Hw2 ->.
      eapply wp_mono; [| apply IH].
      intros r w3 (segs & -> & Hw3 & Hu & He & Hall).
      exists (s :: segs). cbn [map concat filter length seq].
      split.
      - f_equal. cbn [filter]. destruct (seg_passed s); cbn [length]; lia.
      - split; [eapply since_trans; eassumption |].
        split; [rewrite Hu; reflexivity |].
        split; [rewrite He; reflexivity |].
        constructor; [| exact Hall].
        split; [exact Hrun |]. split; [exact Hw1 | exact Hrep]. }
    destruct b.
    + wp_step. apply Hnext; [| cbn; lia].
      unfold segment_trace. cbn [seg_events seg_passed s].
      rewrite app_nil_r. exact Hw1.
    + wp_step. wp_step. wp_step. apply Hnext; [| cbn; lia].
      unfold segment_trace. cbn [seg_events seg_passed seg_users s].
      since_tac.
Qed.

Lemma all_passed (segs : list segment) :
  (Z.of_nat (length (filter seg_passed segs)) =? Z.of_nat (length segs))
  = forallb seg_passed segs.
Proof.
  assert (Hle : forall l : list segment,
             (length (filter seg_passed l) <= length l)%nat).
  { induction l as [| s l IH]; [apply le_n |].
    cbn. destruct (seg_passed s); cbn; lia. }
  induction segs as [| s segs IH]; [reflexivity |].
  cbn [filter forallb length]. destruct (seg_passed s); cbn [andb length].
  - rewrite <- IH.
    destruct (Z.eqb_spec (Z.of_nat (length (filter seg_passed segs)))
                         (Z.of_nat (length segs)));
      destruct (Z.eqb_spec
                  (Z.of_nat (S (length (filter seg_passed segs))))
                  (Z.of_nat (S (length segs)))); try reflexivity; lia.
  - specialize (Hle segs).
    destruct (Z.eqb_spec (Z.of_nat (length (filter seg_passed segs)))
                         (Z.of_nat (S (length segs)))); [lia | reflexivity].
Qed.

(** The suite runs every test of the list, in order, whatever the tests
    before it did, and returns whether all of them passed. *)
Lemma run_benchmark_suite_report envs user_counts d c w :
  exists w' segs,
    run_benchmark_suite self envs user_counts d c w
      = Some (Ret (forallb seg_passed segs), w') /\
    trace w' = (trace w ++ concat (map segment_trace segs))%list /\
    map seg_users segs = user_counts /\
    map seg_env segs = map envs (seq 1 (length user_counts)) /\
    Forall (segment_run d c) segs.
Proof.
  assert (H : wp (run_benchmark_suite self envs user_counts d c)
     (fun r w' =>
        exists segs,
          r = Ret (forallb seg_passed segs) /\
          since w w' (concat (map segment_trace segs)) /\
          map seg_users segs = user_counts /\
          map seg_env segs = map envs (seq 1 (length user_counts)) /\
          Forall (segment_run d c) segs) w).
  { unfold run_benchmark_suite. wp_step.
    eapply wp_mono; [| apply suite_loop_wp].
    intros r w' (segs & -> & Hw' & Hu & He & Hall). wp_step.
    exists segs. split; [| auto].
    f_equal. rewrite <- Hu, length_map. cbn [Z.add]. apply all_passed. }
  destruct H as (r & w' & Hrun & segs & -> & H).
  exists w', segs. split; [exact Hrun | exact H].
Qed.


(** ** The claims *)

(** C1, amended.  When locust ends with an exit code other than zero,
    [run_single_test] returns [False] and reads no metrics: it neither
    parses the CSV, nor inserts a row, nor aggregates the health samples,
    nor asks for the run summary. *)
Theorem nonzero_exit_fails_the_run e u d c w :
  exit_code e <> 0 ->
  exists w' evs,
    run_single_test self e u d c w = Some (Ret false, w') /\
    trace w' = (trace w ++ evs)%list /\
    existsb is_metrics evs = false.
Proof.
  intros Hcode.
  destruct (run_single_test_report e u d c w)
    as (b & w' & evs & Hrun & Hw' & [Hclean _ _ _ _ _]).
  assert (Hdirty : ~ clean_exit e d) by (intros (H0 & _); contradiction).
  destruct b; [exfalso; apply Hdirty, Hclean; left; reflexivity |].
  exists w', evs. split; [exact Hrun |]. split; [exact Hw' |].
  destruct (existsb is_metrics evs); [| reflexivity].
  exfalso. apply Hdirty, Hclean. right. reflexivity.
Qed.

(** C2, amended.  When locust is still alive thirty seconds after the
    polling loop has given up, that is more than
    [3 + max 1 (duration + 61) + 30] seconds after its launch,
    [run_single_test] returns [False] and reads no metrics; if locust was
    launched at all, [terminate] was called on it. *)
Theorem hung_locust_fails_the_run e u d c w :
  (forall l, lifetime e = Some l -> 3 + Z.max 1 (d + 61) + 30 < l) ->
  exists w' evs,
    run_single_test self e u d c w = Some (Ret false, w') /\
    trace w' = (trace w ++ evs)%list /\
    existsb is_metrics evs = false /\
    (existsb is_launch evs = true -> existsb is_terminate evs = true).
Proof.
  intros Hhang.
  destruct (run_single_test_report e u d c w)
    as (b & w' & evs & Hrun & Hw' & [Hclean _ _ Hterm _ _]).
  assert (Hdirty : ~ clean_exit e d).
  { intros (_ & l & Hl & Hle). specialize (Hhang l Hl). lia. }
  destruct b; [exfalso; apply Hdirty, Hclean; left; reflexivity |].
  exists w', evs. split; [exact Hrun |]. split; [exact Hw' |]. split.
  - destruct (existsb is_metrics evs); [| reflexivity].
    exfalso. apply Hdirty, Hclean. right. reflexivity.
  - intros Hlaunch. apply Hterm; [reflexivity | exact Hlaunch |].
    intros l Hl. specialize (Hhang l Hl). lia.
Qed.

End Blocks.

(** ** Concrete runs *)

Local Open Scope string_scope.

(** The first test's locust is gone within the grace period, the second
    one's runs for twelve seconds and exits with code 0. *)
Definition first_fails (idx : nat) : env :=
  if Nat.eqb idx 1 then calm (Some 2) 1 else calm (Some 12) 0.

(** Where a test starts, where the suite reports it as failed, and where
    a cooldown is slept. *)
Definition milestone (ev : event) : bool :=
  match ev with
  | create_benchmark_run _ _ _ _ _ _ | log_test_failed _
  | sleep _ Cooldown => true
  | _ => false
  end.

(** C1, as stated, fails.  Locust runs for twelve seconds, leaves the
    statistics of one endpoint and exits with code 1: the run returns
    [False] and has neither parsed the CSV, nor inserted a row, nor asked
    for the summary. *)
Lemma exit_code_1_skips_the_metrics :
  exists w',
    @run_single_test LocustCollector.decimal_parsers bench
       (calm (Some 12) 1) 50 10 30 fresh = Some (Ret false, w') /\
    existsb is_metrics (trace w') = false /\
    exists m,
      @LocustCollector.extract_metrics LocustCollector.decimal_parsers
         (files (calm (Some 12) 1))
         "outputs/bad-barber_stage0_u50_20260101_120000" = Ret [m].
Proof.
  eexists. split; [vm_compute; reflexivity |].
  split; [vm_compute; reflexivity |].
  eexists. vm_compute. reflexivity.
Qed.

Lemma nonzero_exit_fails_the_run_witness :
  exit_code (calm (Some 12) 1) <> 0 /\
  exists w' evs,
    @run_single_test LocustCollector.decimal_parsers bench
       (calm (Some 12) 1) 50 10 30 fresh = Some (Ret false, w') /\
    trace w' = (trace fresh ++ evs)%list /\
    existsb is_metrics evs = false.
Proof.
  split; [discriminate |].
  apply (@nonzero_exit_fails_the_run LocustCollector.decimal_parsers bench).
  discriminate.
Defined.

(** C2, as stated, fails.  Locust never exits by itself: the run of two
    seconds gives up after the safety timeout and the wait, calls
    [terminate], returns [False], and has not tried to read any metrics,
    though the statistics file is there. *)
Lemma hung_locust_skips_the_metrics :
  exists w',
    @run_single_test LocustCollector.decimal_parsers bench
       (calm None 0) 50 2 30 fresh = Some (Ret false, w') /\
    existsb is_terminate (trace w') = true /\
    existsb is_metrics (trace w') = false /\
    files (calm None 0) "outputs/bad-barber_stage0_u50_20260101_120000_stats.csv"
      = Some LocustCollector.posts_stats.
Proof.
  eexists. split; [vm_compute; reflexivity |].
  split; [vm_compute; reflexivity |].
  split; [vm_compute; reflexivity | reflexivity].
Qed.

Lemma hung_locust_fails_the_run_witness :
  (forall l, lifetime (calm None 0) = Some l ->
             3 + Z.max 1 (2 + 61) + 30 < l) /\
  exists w' evs,
    @run_single_test LocustCollector.decimal_parsers bench
       (calm None 0) 50 2 30 fresh = Some (Ret false, w') /\
    trace w' = (trace fresh ++ evs)%list /\
    existsb is_metrics evs = false /\
    (existsb is_launch evs = true -> existsb is_terminate evs = true).
Proof.
  split; [intros l H; discriminate H |].
  apply (@hung_locust_fails_the_run LocustCollector.decimal_parsers bench).
  intros l H. discriminate H.
Defined.

(** C5, as stated, fails.  In a suite of two levels whose first test
    fails, the second test starts right after the failure is logged: the
    only cooldown is the one the second test, which passes, sleeps
    itself. *)
Lemma failed_test_is_not_followed_by_a_cooldown :
  exists w',
    @run_benchmark_suite LocustCollector.decimal_parsers bench
       first_fails [10; 20] 10 30 fresh = Some (Ret false, w') /\
    filter milestone (trace w') =
      [ create_benchmark_run "bad-barber_stage0_u10_20260101_120000"
          "bad-barber" 0 10 10 "http://localhost:3020";
        log_test_failed 10;
        create_benchmark_run "bad-barber_stage0_u20_20260101_120000"
          "bad-barber" 0 20 10 "http://localhost:3020";
        sleep 30 Cooldown ].
Proof.
  eexists. split; vm_compute; reflexivity.
Qed.

End RunnerFacts.

(* ================================================================== *)
(** * More about collector_client.py: the aggregate                    *)
(* ================================================================== *)

Module AggregateExtras.
Import Py PyFacts CollectorClient CollectorFacts.
Local Open Scope string_scope.

(** ** Which fields an aggregate has *)

Definition measurement_keys : list string :=
  ["active_connections"; "max_connections"; "sequential_scans"; "index_scans"].

Definition health_keys : list string :=
  ["query_health"; "connection_health"; "cache_health"; "overall_health"].

Definition aggregate_keys : list string :=
  (measurement_keys ++ ["cache_hit_rate"] ++ health_keys)%list.

(** The readings of [cache_hit_rate] that are above zero. *)
Definition cache_readings (buffer : list dict) : list pyval :=
  filter positive (map (reading "cache_hit_rate" (PInt 0)) (measured buffer)).

Lemma dict_set_key (d : dict) (k k' : string) (v : pyval) :
  dict_lookup (dict_set d k v) k' <> None ->
  k' = k \/ dict_lookup d k' <> None.
Proof.
  rewrite dict_lookup_set. destruct (String.eqb k k') eqn:E.
  - apply String.eqb_eq in E. auto.
  - auto.
Qed.

Lemma averaged_present (agg : dict) (k : string) (xs : list pyval) mean :
  averaged agg k xs mean -> (dict_lookup agg k <> None <-> xs <> []).
Proof.
  unfold averaged. destruct xs as [| x xs].
  - intros ->. split; intros H; contradiction.
  - intros (v & _ & ->). split; intros _; discriminate.
Qed.

Lemma map_not_nil {A B} (f : A -> B) (l : list A) :
  map f l <> [] <-> l <> [].
Proof. destruct l; simpl; split; intros H; congruence. Qed.

Lemma aggregate_known_keys (buffer : list dict) (agg : dict) (k : string) :
  aggregate_metrics buffer = Ret (Some agg) ->
  dict_lookup agg k <> None -> In k aggregate_keys.
Proof.
  intros H Hk. apply aggregate_metrics_inv in H.
  destruct H as (_ & s & d1 & d2 & d3 & _ & H1 & H2 & H3 & H4).
  apply average_connections_inv in H1. apply average_cache_inv in H2.
  apply average_scans_inv in H3. apply average_health_inv in H4.
  assert (K4 : In k aggregate_keys \/ dict_lookup d3 k <> None).
  { destruct (health_samples s).
    - subst agg. auto.
    - destruct H4 as (vq & vc & vh & vo & _ & _ & _ & _ & ->).
      repeat (apply dict_set_key in Hk; destruct Hk as [-> | Hk];
              [left; cbn; tauto |]).
      auto. }
  destruct K4 as [K4 | K4]; [exact K4 |].
  assert (K3 : In k aggregate_keys \/ dict_lookup d2 k <> None).
  { destruct (scan_samples s).
    - subst d3. auto.
    - destruct H3 as (q & _ & ->).
      repeat (apply dict_set_key in K4; destruct K4 as [-> | K4];
              [left; cbn; tauto |]).
      auto. }
  destruct K3 as [K3 | K3]; [exact K3 |].
  assert (K2 : In k aggregate_keys \/ dict_lookup d1 k <> None).
  { destruct (cache_samples s).
    - subst d2. auto.
    - destruct H2 as (q & _ & ->).
      apply dict_set_key in K3. destruct K3 as [-> | K3];
        [left; cbn; tauto | auto]. }
  destruct K2 as [K2 | K2]; [exact K2 |].
  destruct (connection_samples s).
  - subst d1. contradiction.
  - destruct H1 as (q & _ & ->).
    repeat (apply dict_set_key in K2; destruct K2 as [-> | K2];
            [cbn; tauto |]).
    contradiction.
Qed.

(** X2.  A returned aggregate has no other field than the nine the code
    writes, and the fields come in groups: the four measurement fields
    are there exactly when some message carries measurements, the four
    health fields exactly when some message has a health score that is
    not zero, [cache_hit_rate] exactly when some reading of it is above
    zero. *)
Theorem aggregate_metrics_fields_present (buffer : list dict) (agg : dict) :
  aggregate_metrics buffer = Ret (Some agg) ->
  (forall k, dict_lookup agg k <> None -> In k aggregate_keys) /\
  (forall k, In k measurement_keys ->
     (dict_lookup agg k <> None <-> measured buffer <> [])) /\
  (forall k, In k health_keys ->
     (dict_lookup agg k <> None <-> scored buffer <> [])) /\
  (dict_lookup agg "cache_hit_rate" <> None <-> cache_readings buffer <> []).
Proof.
  intros H. split.
  { intros k. exact (aggregate_known_keys buffer agg k H). }
  destruct (aggregate_fields buffer agg H)
    as (Ha & Hm & Hc & Hs & Hi & Hq & Hn & Hh & Ho).
  apply averaged_present in Ha, Hc, Hs, Hq, Hn, Hh, Ho.
  rewrite map_not_nil in Ha, Hs, Hq, Hn, Hh, Ho.
  split; [| split; [| exact Hc]].
  - intros k [<- | [<- | [<- | [<- | []]]]]; try assumption.
    + rewrite Hm. destruct (measured buffer); cbn; split; congruence.
    + rewrite Hi. destruct (measured buffer); split; congruence.
  - intros k [<- | [<- | [<- | [<- | []]]]]; assumption.
Qed.

Lemma aggregate_metrics_fields_present_witness :
  aggregate_metrics [pool_of_200; pool_of_100] =
    Ret (Some [("active_connections", PInt 5); ("max_connections", PInt 200);
               ("sequential_scans", PInt 0); ("index_scans", PInt 0)]) /\
  (forall k, In k health_keys ->
     (dict_lookup [("active_connections", PInt 5);
                   ("max_connections", PInt 200);
                   ("sequential_scans", PInt 0); ("index_scans", PInt 0)] k
        <> None <-> scored [pool_of_200; pool_of_100] <> [])).
Proof.
  split; [reflexivity |].
  exact (proj1 (proj2 (proj2
    (aggregate_metrics_fields_present [pool_of_200; pool_of_100] _ eq_refl)))).
Defined.

(** ** When aggregation raises *)

(** A number: [int], [bool] or [float]. *)
Definition is_number (x : pyval) : bool :=
  match as_number x with
  | Some _ => true
  | None => false
  end.

(** What the code asks of [metric.get('measurements', {})]: a value that
    is false, or an object whose three averaged readings are numbers.
    [max_connections] is never added up and may be anything. *)
Definition measurements_ok (measurements : pyval) : bool :=
  match measurements with
  | PDict [] => true
  | PDict d =>
      is_number (reading "active_connections" (PInt 0) d) &&
      is_number (reading "cache_hit_rate" (PInt 0) d) &&
      is_number (reading "sequential_scans" (PInt 0) d)
  | x => negb (truthy x)
  end.

(** What the code asks of the four health scores: all of them false, or
    all of them numbers. *)
Definition health_ok (metric : dict) : bool :=
  negb (py_any (health_scores metric)) ||
  forallb is_number (health_scores metric).

Definition well_typed (metric : dict) : bool :=
  measurements_ok (dict_get metric "measurements" (PDict [])) &&
  health_ok metric.

Lemma py_add_number (a b : pyval) :
  is_number a = true ->
  if is_number b
  then exists v, py_add a b = Ret v /\ is_number v = true
  else py_add a b = Raise TypeError.
Proof.
  unfold is_number, py_add.
  destruct a as [| [|] | x | p | | |]; try discriminate; intros _;
    destruct b as [| [|] | y | q | | |]; cbn; eauto.
Qed.

Lemma py_sum_from_number (xs : list pyval) (acc : pyval) :
  is_number acc = true ->
  if forallb is_number xs
  then exists v, py_sum_from acc xs = Ret v /\ is_number v = true
  else py_sum_from acc xs = Raise TypeError.
Proof.
  revert acc. induction xs as [| x xs IH]; intros acc Hacc.
  - cbn. eauto.
  - cbn [forallb py_sum_from]. pose proof (py_add_number acc x Hacc) as Hx.
    destruct (is_number x).
    + destruct Hx as (v & -> & Hv). cbn [andb obind]. apply IH, Hv.
    + rewrite Hx. reflexivity.
Qed.

(** A mean of a list that is not empty is computed exactly when all its
    elements are numbers, and fails with a [TypeError] otherwise. *)
Lemma int_mean_number (x : pyval) (xs : list pyval) :
  if forallb is_number (x :: xs)
  then exists v, int_mean (x :: xs) = Ret v
  else int_mean (x :: xs) = Raise TypeError.
Proof.
  unfold int_mean, py_sum.
  pose proof (py_sum_from_number (x :: xs) (PInt 0) eq_refl) as H.
  destruct (forallb is_number (x :: xs)).
  - destruct H as (v & -> & Hv). cbn [obind length py_truediv].
    unfold is_number in Hv. unfold py_truediv.
    destruct (as_number v); [| discriminate].
    cbn [obind]. eexists; reflexivity.
  - rewrite H. reflexivity.
Qed.

Lemma round_mean_number (x : pyval) (xs : list pyval) (n : nat) :
  if forallb is_number (x :: xs)
  then exists v, round_mean (x :: xs) n = Ret v
  else round_mean (x :: xs) n = Raise TypeError.
Proof.
  unfold round_mean, py_sum.
  pose proof (py_sum_from_number (x :: xs) (PInt 0) eq_refl) as H.
  destruct (forallb is_number (x :: xs)).
  - destruct H as (v & -> & Hv). cbn [obind length py_truediv].
    unfold is_number in Hv. unfold py_truediv.
    destruct (as_number v); [| discriminate].
    cbn [obind]. eexists; reflexivity.
  - rewrite H. reflexivity.
Qed.

(** What the loop itself asks of a message: it calls [get] on a
    [measurements] value that is true and compares [cache_hit_rate]
    with zero. *)
Definition loop_ok (metric : dict) : bool :=
  match dict_get metric "measurements" (PDict []) with
  | PDict [] => true
  | PDict d => is_number (reading "cache_hit_rate" (PInt 0) d)
  | x => negb (truthy x)
  end.

(** What the four averaging blocks ask of the lists the loop built. *)
Definition sums_ok (buffer : list dict) : bool :=
  forallb is_number
    (map (reading "active_connections" (PInt 0)) (measured buffer)) &&
  forallb is_number
    (map (reading "sequential_scans" (PInt 0)) (measured buffer)) &&
  forallb (fun m => forallb is_number (health_scores m)) (scored buffer).

Definition type_or_attribute (A : Type) (r : outcome A) : Prop :=
  r = Raise TypeError \/ r = Raise AttributeError.
Arguments type_or_attribute {A} r.

Lemma own_typed (metric : dict) :
  if loop_ok metric
  then own metric = Ret (lists_of [metric])
  else type_or_attribute (own metric).
Proof.
  destruct (own metric) as [o | e] eqn:Ho.
  - rewrite (own_lists metric o Ho).
    destruct (loop_ok metric) eqn:Hok; [reflexivity | exfalso].
    revert Ho Hok. unfold own, loop_body, loop_ok, dict_get.
    destruct (dict_lookup metric "measurements") as [x |]; [| discriminate].
    destruct x as [| [|] | z | q | str | [| y l] | [| kv d]];
      cbn [truthy py_get parse_measurements obind negb]; try discriminate.
    + destruct (negb (z =? 0)%Z); discriminate.
    + destruct (negb (Qnum q =? 0)%Z); discriminate.
    + destruct (negb (String.eqb str "")); discriminate.
    + unfold parse_measurements, py_get, reading, is_number, py_gt0.
      cbn [obind]. destruct (as_number _); discriminate.
  - destruct (loop_ok metric) eqn:Hok; [exfalso |].
    + revert Ho Hok. unfold own, loop_body, loop_ok, dict_get.
      destruct (dict_lookup metric "measurements") as [x |]; [| discriminate].
      destruct x as [| [|] | z | q | str | [| y l] | [| kv d]];
        cbn [truthy py_get parse_measurements obind negb]; try discriminate.
      * destruct (negb (z =? 0)%Z); discriminate.
      * destruct (negb (Qnum q =? 0)%Z); discriminate.
      * destruct (negb (String.eqb str "")); discriminate.
      * unfold parse_measurements, py_get, reading, is_number, py_gt0.
        cbn [obind]. destruct (as_number _); discriminate.
    + revert Ho. unfold own, loop_body, dict_get, type_or_attribute.
      destruct (dict_lookup metric "measurements") as [x |]; [| discriminate].
      destruct x as [| [|] | z | q | str | [| y l] | [| kv d]];
        cbn [truthy py_get parse_measurements obind negb]; try discriminate;
        try (intros H; injection H as <-; auto; fail).
      * destruct (negb (z =? 0)%Z); [| discriminate].
        cbn. intros H; injection H as <-; auto.
      * destruct (negb (Qnum q =? 0)%Z); [| discriminate].
        cbn. intros H; injection H as <-; auto.
      * destruct (negb (String.eqb str "")); [| discriminate].
        cbn. intros H; injection H as <-; auto.
      * unfold parse_measurements, py_get, py_gt0. cbn [obind].
        destruct (as_number _); cbn [obind]; [discriminate |].
        intros H; injection H as <-; auto.
Qed.

Lemma loop_typed (buffer : list dict) :
  if forallb loop_ok buffer
  then loop no_samples buffer = Ret (lists_of buffer)
  else type_or_attribute (loop no_samples buffer).
Proof.
  induction buffer as [| metric rest IH]; [reflexivity |].
  change (metric :: rest) with ([metric] ++ rest)%list at 2 3 4.
  rewrite loop_app, lists_of_app. cbn [forallb loop].
  rewrite (loop_body_merge no_samples metric).
  pose proof (own_typed metric) as Hm.
  destruct (loop_ok metric); cbn [andb].
  - rewrite Hm. cbn [obind].
    destruct (forallb loop_ok rest).
    + rewrite IH. reflexivity.
    + destruct IH as [-> | ->]; [left | right]; reflexivity.
  - destruct Hm as [-> | ->]; [left | right]; reflexivity.
Qed.

Lemma map_active_entries (l : list dict) :
  map active (map connection_entry l) =
  map (reading "active_connections" (PInt 0)) l.
Proof. rewrite map_map. reflexivity. Qed.

Lemma map_sequential_entries (l : list dict) :
  map sequential (map scan_entry l) =
  map (reading "sequential_scans" (PInt 0)) l.
Proof. rewrite map_map. reflexivity. Qed.

Lemma positive_is_number (x : pyval) : positive x = true -> is_number x = true.
Proof. unfold positive, is_number. destruct (as_number x); auto. Qed.

Lemma cache_readings_numbers (buffer : list dict) :
  forallb is_number (cache_readings buffer) = true.
Proof.
  apply forallb_forall. intros x Hx. apply filter_In in Hx.
  apply positive_is_number, Hx.
Qed.

Lemma average_connections_typed (buffer : list dict) (d : dict) :
  if forallb is_number
       (map (reading "active_connections" (PInt 0)) (measured buffer))
  then exists d', average_connections (lists_of buffer) d = Ret d'
  else average_connections (lists_of buffer) d = Raise TypeError.
Proof.
  unfold average_connections, lists_of. cbn [connection_samples].
  rewrite map_active_entries.
  destruct (measured buffer) as [| m ms]; [cbn; eauto |].
  cbn [map]. pose proof (int_mean_number
    (reading "active_connections" (PInt 0) m)
    (map (reading "active_connections" (PInt 0)) ms)) as H.
  destruct (forallb is_number _).
  - destruct H as (v & ->). cbn [obind]. eauto.
  - rewrite H. reflexivity.
Qed.

Lemma average_scans_typed (buffer : list dict) (d : dict) :
  if forallb is_number
       (map (reading "sequential_scans" (PInt 0)) (measured buffer))
  then exists d', average_scans (lists_of buffer) d = Ret d'
  else average_scans (lists_of buffer) d = Raise TypeError.
Proof.
  unfold average_scans, lists_of. cbn [scan_samples].
  rewrite map_sequential_entries.
  destruct (measured buffer) as [| m ms]; [cbn; eauto |].
  cbn [map]. pose proof (int_mean_number
    (reading "sequential_scans" (PInt 0) m)
    (map (reading "sequential_scans" (PInt 0)) ms)) as H.
  destruct (forallb is_number _).
  - destruct H as (v & ->). cbn [obind]. eauto.
  - rewrite H. reflexivity.
Qed.

Lemma average_cache_typed (buffer : list dict) (d : dict) :
  exists d', average_cache (lists_of buffer) d = Ret d'.
Proof.
  unfold average_cache, lists_of. cbn [cache_samples].
  pose proof (cache_readings_numbers buffer) as Hn. unfold cache_readings in Hn.
  destruct (filter positive _) as [| c cs]; [eauto |].
  pose proof (round_mean_number c cs 4) as H. rewrite Hn in H.
  destruct H as (v & ->). cbn [obind]. eauto.
Qed.

Lemma health_columns (l : list dict) :
  forallb (fun m => forallb is_number (health_scores m)) l =
  forallb is_number (map (reading "query_health" (PInt 0)) l) &&
  forallb is_number (map (reading "connection_health" (PInt 0)) l) &&
  forallb is_number (map (reading "cache_health" (PInt 0)) l) &&
  forallb is_number (map (reading "health_score" (PInt 0)) l).
Proof.
  induction l as [| m ms IH]; [reflexivity |].
  change (forallb (fun m => forallb is_number (health_scores m)) (m :: ms))
    with (forallb is_number (health_scores m) &&
          forallb (fun m => forallb is_number (health_scores m)) ms).
  rewrite IH. cbn [forallb map health_scores].
  destruct (is_number (reading "query_health" (PInt 0) m)),
           (is_number (reading "connection_health" (PInt 0) m)),
           (is_number (reading "cache_health" (PInt 0) m)),
           (is_number (reading "health_score" (PInt 0) m)),
           (forallb is_number (map (reading "query_health" (PInt 0)) ms)),
           (forallb is_number (map (reading "connection_health" (PInt 0)) ms)),
           (forallb is_number (map (reading "cache_health" (PInt 0)) ms)),
           (forallb is_number (map (reading "health_score" (PInt 0)) ms));
    reflexivity.
Qed.

Lemma average_health_typed (buffer : list dict) (d : dict) :
  if forallb (fun m => forallb is_number (health_scores m)) (scored buffer)
  then exists d', average_health (lists_of buffer) d = Ret d'
  else average_health (lists_of buffer) d = Raise TypeError.
Proof.
  rewrite health_columns.
  unfold average_health, lists_of. cbn [health_samples].
  rewrite !map_map.
  change (fun x => query (health_entry x))
    with (reading "query_health" (PInt 0)).
  change (fun x => connection (health_entry x))
    with (reading "connection_health" (PInt 0)).
  change (fun x => cache (health_entry x))
    with (reading "cache_health" (PInt 0)).
  change (fun x => overall (health_entry x))
    with (reading "health_score" (PInt 0)).
  destruct (scored buffer) as [| m ms]; [cbn; eauto |].
  cbn [map].
  pose proof (round_mean_number (reading "query_health" (PInt 0) m)
    (map (reading "query_health" (PInt 0)) ms) 2) as Hq.
  pose proof (round_mean_number (reading "connection_health" (PInt 0) m)
    (map (reading "connection_health" (PInt 0)) ms) 2) as Hc.
  pose proof (round_mean_number (reading "cache_health" (PInt 0) m)
    (map (reading "cache_health" (PInt 0)) ms) 2) as Hh.
  pose proof (round_mean_number (reading "health_score" (PInt 0) m)
    (map (reading "health_score" (PInt 0)) ms) 2) as Ho.
  destruct (forallb is_number (_ :: map (reading "query_health" _) ms));
    [destruct Hq as (vq & ->) | rewrite Hq; reflexivity].
  destruct (forallb is_number (_ :: map (reading "connection_health" _) ms));
    [destruct Hc as (vc & ->) | rewrite Hc; reflexivity].
  destruct (forallb is_number (_ :: map (reading "cache_health" _) ms));
    [destruct Hh as (vh & ->) | rewrite Hh; reflexivity].
  destruct (forallb is_number (_ :: map (reading "health_score" _) ms));
    [destruct Ho as (vo & ->) | rewrite Ho; reflexivity].
  cbn [obind andb]. eauto.
Qed.

Lemma aggregate_metrics_typed (buffer : list dict) :
  if forallb loop_ok buffer && sums_ok buffer
  then exists r, aggregate_metrics buffer = Ret r
  else type_or_attribute (aggregate_metrics buffer).
Proof.
  unfold aggregate_metrics, sums_ok.
  destruct buffer as [| m rest]; [cbn; eauto |].
  pose proof (loop_typed (m :: rest)) as Hl.
  destruct (forallb loop_ok (m :: rest)); cbn [andb];
    [rewrite Hl; cbn [obind]
    | destruct Hl as [-> | ->]; [left | right]; reflexivity].
  pose proof (average_connections_typed (m :: rest) []) as H1.
  destruct (forallb is_number (map (reading "active_connections" _) _));
    cbn [andb];
    [destruct H1 as (d1 & ->); cbn [obind] | rewrite H1; left; reflexivity].
  destruct (average_cache_typed (m :: rest) d1) as (d2 & ->). cbn [obind].
  pose proof (average_scans_typed (m :: rest) d2) as H3.
  destruct (forallb is_number (map (reading "sequential_scans" _) _));
    cbn [andb];
    [destruct H3 as (d3 & ->); cbn [obind] | rewrite H3; left; reflexivity].
  pose proof (average_health_typed (m :: rest) d3) as H4.
  destruct (forallb _ (scored (m :: rest)));
    [destruct H4 as (d4 & ->); cbn [obind]; eauto
    | rewrite H4; left; reflexivity].
Qed.

Lemma sums_ok_cons (metric : dict) (rest : list dict) :
  sums_ok (metric :: rest) = sums_ok [metric] && sums_ok rest.
Proof.
  unfold sums_ok.
  change (metric :: rest) with ([metric] ++ rest)%list.
  unfold measured, scored. rewrite flat_map_app, filter_app, !map_app.
  rewrite !forallb_app.
  repeat match goal with
         | |- context [forallb ?f ?l] =>
             let b := fresh "b" in generalize (forallb f l); intros b
         end.
  repeat match goal with b : bool |- _ => destruct b end; reflexivity.
Qed.

Lemma well_typed_split (metric : dict) :
  well_typed metric = loop_ok metric && sums_ok [metric].
Proof.
  unfold well_typed, loop_ok, sums_ok, health_ok, measured, scored,
    measurements_of, measurements_ok, dict_get.
  cbn [flat_map filter app].
  assert (Hh : negb (py_any (health_scores metric)) ||
               forallb is_number (health_scores metric) =
               forallb (fun m => forallb is_number (health_scores m))
                 (if py_any (health_scores metric) then [metric] else [])).
  { destruct (py_any (health_scores metric)); cbn [negb orb forallb];
      rewrite ?andb_true_r; reflexivity. }
  rewrite Hh. clear Hh.
  generalize (forallb (fun m => forallb is_number (health_scores m))
                (if py_any (health_scores metric) then [metric] else [])).
  intros h.
  destruct (dict_lookup metric "measurements") as [x |]; [| reflexivity].
  destruct x as [| [|] | z | q | str | [| y l] | [| kv d]];
    cbn [truthy negb map forallb andb app]; try reflexivity;
    try (destruct (negb _); reflexivity).
  destruct (is_number (reading "active_connections" (PInt 0) (kv :: d))),
             (is_number (reading "cache_hit_rate" (PInt 0) (kv :: d))),
             (is_number (reading "sequential_scans" (PInt 0) (kv :: d))), h;
    reflexivity.
Qed.

Lemma well_typed_all (buffer : list dict) :
  forallb well_typed buffer = forallb loop_ok buffer && sums_ok buffer.
Proof.
  induction buffer as [| metric rest IH]; [reflexivity |].
  cbn [forallb]. rewrite IH, sums_ok_cons, well_typed_split.
  destruct (loop_ok metric), (sums_ok [metric]), (forallb loop_ok rest),
           (sums_ok rest); reflexivity.
Qed.

(** X3.  A message that is not well typed makes the aggregation raise.
    When some buffered message has a [measurements] that is true and is
    no object, or a reading of [active_connections], [cache_hit_rate] or
    [sequential_scans] that is no number, or health scores of which one
    is true and one is no number, [aggregate_metrics] raises and returns
    no aggregate.  When it is the loop that cannot go on, because
    [measurements] has no [get] or [cache_hit_rate] cannot be compared
    with zero, what is raised is a [TypeError] or an [AttributeError]. *)
Theorem aggregate_metrics_raises_on_ill_typed (buffer : list dict) :
  forallb well_typed buffer = false ->
  (exists e, aggregate_metrics buffer = Raise e) /\
  (forallb loop_ok buffer = false ->
   aggregate_metrics buffer = Raise TypeError \/
   aggregate_metrics buffer = Raise AttributeError).
Proof.
  intros H. pose proof (aggregate_metrics_typed buffer) as T.
  rewrite <- well_typed_all, H in T.
  split; [destruct T as [T | T]; eauto | intros _; exact T].
Qed.

(** A message that reports its connections in words. *)
Definition wordy : list dict :=
  [ pool_of_100;
    measurement_sample [("active_connections", PStr "many")] ].

Lemma aggregate_metrics_raises_on_ill_typed_witness :
  forallb well_typed wordy = false /\
  exists e, aggregate_metrics wordy = Raise e.
Proof.
  split; [reflexivity |].
  exact (proj1 (aggregate_metrics_raises_on_ill_typed wordy eq_refl)).
Defined.

(** ** The two integer fields *)

Definition total (zs : list Z) : Z := fold_right Z.add 0 zs.

Lemma py_sum_from_ints (zs : list Z) (a : Z) :
  py_sum_from (PInt a) (map PInt zs) = Ret (PInt (a + total zs)).
Proof.
  revert a. induction zs as [| z zs IH]; intros a;
    cbn [map py_sum_from total fold_right].
  - rewrite Z.add_0_r. reflexivity.
  - cbn [py_add as_int obind]. rewrite IH. fold (total zs).
    rewrite Z.add_assoc. reflexivity.
Qed.

Lemma float_trunc_quotient (s : Z) (n : nat) :
  float_trunc (Qdiv (inject_Z s) (inject_Z (Z.of_nat (S n)))) =
  Z.quot s (Z.of_nat (S n)).
Proof.
  unfold float_trunc, Qdiv, Qmult, Qinv, inject_Z.
  cbn [Qnum Qden Z.of_nat]. rewrite Z.mul_1_r, Pos.mul_1_l. reflexivity.
Qed.

Lemma int_mean_ints (z : Z) (zs : list Z) :
  int_mean (map PInt (z :: zs)) =
  Ret (PInt (Z.quot (total (z :: zs)) (Z.of_nat (length (z :: zs))))).
Proof.
  unfold int_mean, py_sum. rewrite py_sum_from_ints. cbn [obind].
  rewrite length_map. cbn [length py_truediv as_number obind].
  rewrite float_trunc_quotient. reflexivity.
Qed.

Lemma total_bounds (zs : list Z) (lo hi : Z) :
  Forall (fun z => lo <= z <= hi) zs ->
  lo * Z.of_nat (length zs) <= total zs <= hi * Z.of_nat (length zs).
Proof.
  induction 1 as [| z zs Hz _ IH]; cbn [total fold_right length].
  - lia.
  - fold (total zs). rewrite Nat2Z.inj_succ. lia.
Qed.

(** X4.  When the readings of [active_connections] or [sequential_scans]
    are integers, and their sum and their number together do not exceed
    2^53, so that the double Python divides into holds the quotient to
    the unit, the field of the aggregate is their sum divided by their
    number, cut towards zero, and therefore lies between the smallest and
    the largest reading. *)
Theorem aggregate_metrics_integer_mean
    (buffer : list dict) (agg : dict) (k : string) (z : Z) (zs : list Z) :
  aggregate_metrics buffer = Ret (Some agg) ->
  In k ["active_connections"; "sequential_scans"] ->
  map (reading k (PInt 0)) (measured buffer) = map PInt (z :: zs) ->
  Z.abs (total (z :: zs)) + Z.of_nat (length (z :: zs)) <= 2 ^ 53 ->
  dict_lookup agg k =
    Some (PInt (Z.quot (total (z :: zs)) (Z.of_nat (length (z :: zs))))) /\
  forall lo hi, Forall (fun x => lo <= x <= hi) (z :: zs) ->
    lo <= Z.quot (total (z :: zs)) (Z.of_nat (length (z :: zs))) <= hi.
Proof.
  intros H Hk Hzs _. split.
  - destruct (aggregate_fields buffer agg H) as (Ha & _ & _ & Hs & _).
    assert (Hav : averaged agg k (map PInt (z :: zs)) int_mean).
    { rewrite <- Hzs. destruct Hk as [<- | [<- | []]]; assumption. }
    cbn [averaged map] in Hav. destruct Hav as (v & Hv & ->).
    change (PInt z :: map PInt zs) with (map PInt (z :: zs)) in Hv.
    rewrite int_mean_ints in Hv. congruence.
  - intros lo hi Hb. apply total_bounds in Hb.
    set (n := Z.of_nat (length (z :: zs))) in *.
    assert (Hn : 0 < n) by (subst n; cbn [length]; lia).
    rewrite <- (Z.quot_mul lo n), <- (Z.quot_mul hi n) by lia.
    split; apply Z.quot_le_mono; lia.
Qed.

Lemma aggregate_metrics_integer_mean_witness :
  Z.abs (total [6; 4]) + 2 <= 2 ^ 53 /\
  dict_lookup [("active_connections", PInt 5); ("max_connections", PInt 200);
               ("sequential_scans", PInt 0); ("index_scans", PInt 0)]
              "active_connections"
    = Some (PInt (Z.quot (total [6; 4]) 2)) /\
  forall lo hi, Forall (fun x => lo <= x <= hi) [6; 4] ->
    lo <= Z.quot (total [6; 4]) 2 <= hi.
Proof.
  split; [unfold total; cbn [fold_right]; lia |].
  refine (aggregate_metrics_integer_mean [pool_of_200; pool_of_100] _
            "active_connections" 6 [4] eq_refl (or_introl eq_refl) eq_refl _).
  unfold total. cbn [fold_right length]. lia.
Defined.

End AggregateExtras.

(* ================================================================== *)
(** * More about collector_client.py: reordering the buffer            *)
(* ================================================================== *)

Module ReorderingFacts.
Import Py PyFacts CollectorClient CollectorFacts AggregateExtras.
Local Open Scope string_scope.

(** ** Sums of ints *)

(** An [int] or a [bool]: what Python adds without rounding. *)
Definition is_int (x : pyval) : bool :=
  match as_int x with
  | Some _ => true
  | None => false
  end.

Definition int_value (x : pyval) : Z :=
  match as_int x with
  | Some z => z
  | None => 0
  end.

Lemma py_sum_from_int_values (xs : list pyval) (a : Z) :
  forallb is_int xs = true ->
  py_sum_from (PInt a) xs = Ret (PInt (a + total (map int_value xs))).
Proof.
  revert a. induction xs as [| x xs IH]; intros a H;
    cbn [map py_sum_from total fold_right].
  - rewrite Z.add_0_r. reflexivity.
  - cbn [forallb] in H. apply andb_prop in H. destruct H as (Hx & Hxs).
    unfold is_int, int_value in *. unfold py_add. cbn [as_int].
    destruct (as_int x) as [z |]; [| discriminate].
    cbn [obind]. rewrite (IH _ Hxs). fold (total (map int_value xs)).
    rewrite Z.add_assoc. reflexivity.
Qed.

Lemma total_perm (zs zs' : list Z) :
  Permutation zs zs' -> total zs = total zs'.
Proof.
  unfold total. induction 1; cbn [fold_right] in *; lia.
Qed.

Lemma is_int_perm (xs ys : list pyval) :
  Permutation xs ys -> forallb is_int xs = true -> forallb is_int ys = true.
Proof.
  intros Hp H. rewrite forallb_forall in *. intros y Hy.
  apply H. eapply Permutation_in; [apply Permutation_sym, Hp | exact Hy].
Qed.

(** The sum of ints is the same in any order: no rounding is involved. *)
Lemma py_sum_ints_perm (xs ys : list pyval) :
  Permutation xs ys -> forallb is_int xs = true -> py_sum xs = py_sum ys.
Proof.
  intros Hp H. unfold py_sum.
  rewrite (py_sum_from_int_values xs 0 H).
  rewrite (py_sum_from_int_values ys 0 (is_int_perm _ _ Hp H)).
  rewrite (total_perm _ _ (Permutation_map int_value Hp)). reflexivity.
Qed.

Lemma int_mean_ints_perm (xs ys : list pyval) :
  Permutation xs ys -> forallb is_int xs = true -> int_mean xs = int_mean ys.
Proof.
  intros Hp H. unfold int_mean.
  rewrite (py_sum_ints_perm _ _ Hp H), (Permutation_length Hp). reflexivity.
Qed.

Lemma round_mean_ints_perm (xs ys : list pyval) (n : nat) :
  Permutation xs ys -> forallb is_int xs = true ->
  round_mean xs n = round_mean ys n.
Proof.
  intros Hp H. unfold round_mean.
  rewrite (py_sum_ints_perm _ _ Hp H), (Permutation_length Hp). reflexivity.
Qed.

(** ** The readings of a reordered buffer *)

Lemma filter_perm {A} (f : A -> bool) (l l' : list A) :
  Permutation l l' -> Permutation (filter f l) (filter f l').
Proof.
  induction 1 as [| x l l' _ IH | x y l | l1 l2 l3 _ IH1 _ IH2];
    cbn [filter].
  - constructor.
  - destruct (f x); [constructor |]; exact IH.
  - destruct (f x), (f y);
      first [apply perm_swap | apply Permutation_refl].
  - eapply Permutation_trans; eassumption.
Qed.

Lemma measured_perm (b b' : list dict) :
  Permutation b b' -> Permutation (measured b) (measured b').
Proof. intros H. unfold measured. apply Permutation_flat_map, H. Qed.

Lemma scored_perm (b b' : list dict) :
  Permutation b b' -> Permutation (scored b) (scored b').
Proof. intros H. unfold scored. apply filter_perm, H. Qed.

(** The lists that are added up, by the field they are averaged into. *)
Definition readings (buffer : list dict) : list (string * list pyval) :=
  [ ("active_connections",
     map (reading "active_connections" (PInt 0)) (measured buffer));
    ("cache_hit_rate", cache_readings buffer);
    ("sequential_scans",
     map (reading "sequential_scans" (PInt 0)) (measured buffer));
    ("query_health", map (reading "query_health" (PInt 0)) (scored buffer));
    ("connection_health",
     map (reading "connection_health" (PInt 0)) (scored buffer));
    ("cache_health", map (reading "cache_health" (PInt 0)) (scored buffer));
    ("overall_health", map (reading "health_score" (PInt 0)) (scored buffer)) ].

(** Reordering the buffer reorders the readings of each field. *)
Lemma readings_perm (b b' : list dict) :
  Permutation b b' ->
  Forall2 (fun r r' => fst r = fst r' /\ Permutation (snd r) (snd r'))
          (readings b) (readings b').
Proof.
  intros H. pose proof (measured_perm _ _ H) as Hm.
  pose proof (scored_perm _ _ H) as Hs.
  unfold readings, cache_readings.
  repeat constructor; cbn [fst snd];
    first [ apply filter_perm, Permutation_map, Hm
          | apply Permutation_map, Hm | apply Permutation_map, Hs ].
Qed.

Lemma map_nil_iff {A B} (f : A -> B) (l : list A) : map f l = [] <-> l = [].
Proof. destruct l; cbn; split; intros H; congruence. Qed.

Lemma perm_nil_iff {A} (l l' : list A) :
  Permutation l l' -> (l = [] <-> l' = []).
Proof.
  intros H. split; intros ->.
  - apply Permutation_nil, H.
  - apply Permutation_nil, Permutation_sym, H.
Qed.

Lemma averaged_absent (agg : dict) (k : string) (xs : list pyval) mean :
  averaged agg k xs mean -> (dict_lookup agg k = None <-> xs = []).
Proof.
  unfold averaged. destruct xs as [| x xs].
  - intros ->. split; reflexivity.
  - intros (v & _ & ->). split; discriminate.
Qed.

(** The same mean over two lists gives the same field. *)
Lemma averaged_same (agg agg' : dict) (k : string) (xs xs' : list pyval)
    mean :
  averaged agg k xs mean -> averaged agg' k xs' mean ->
  Permutation xs xs' -> mean xs = mean xs' ->
  dict_lookup agg' k = dict_lookup agg k.
Proof.
  unfold averaged. intros H H' Hp Hmean.
  destruct xs as [| x xs], xs' as [| x' xs'].
  - congruence.
  - apply Permutation_nil in Hp. discriminate.
  - apply Permutation_sym, Permutation_nil in Hp. discriminate.
  - destruct H as (v & Hv & ->), H' as (v' & Hv' & ->). congruence.
Qed.

Lemma unknown_key_absent (b : list dict) (agg : dict) (k : string) :
  aggregate_metrics b = Ret (Some agg) ->
  ~ In k aggregate_keys -> dict_lookup agg k = None.
Proof.
  intros H Hk. destruct (dict_lookup agg k) eqn:E; [| reflexivity].
  exfalso. apply Hk, (aggregate_known_keys b agg k H). congruence.
Qed.

(** Reordering the buffer does not change which fields the aggregate
    has. *)
Lemma fields_absent (b b' : list dict) (agg agg' : dict) :
  Permutation b b' ->
  aggregate_metrics b = Ret (Some agg) ->
  aggregate_metrics b' = Ret (Some agg') ->
  forall k, dict_lookup agg' k = None <-> dict_lookup agg k = None.
Proof.
  intros Hp H H' k.
  destruct (in_dec string_dec k aggregate_keys) as [Hin | Hout].
  2:{ rewrite (unknown_key_absent b agg k H Hout),
        (unknown_key_absent b' agg' k H' Hout). tauto. }
  pose proof (measured_perm _ _ Hp) as Hm.
  pose proof (scored_perm _ _ Hp) as Hs.
  pose proof (perm_nil_iff _ _
    (filter_perm positive _ _
       (Permutation_map (reading "cache_hit_rate" (PInt 0)) Hm))) as Hcn.
  pose proof (perm_nil_iff _ _ Hm) as Hmn.
  pose proof (perm_nil_iff _ _ Hs) as Hsn.
  destruct (aggregate_fields b agg H)
    as (Ha & Hx & Hc & Hq & Hi & Hqh & Hch & Hkh & Hoh).
  destruct (aggregate_fields b' agg' H')
    as (Ha' & Hx' & Hc' & Hq' & Hi' & Hqh' & Hch' & Hkh' & Hoh').
  apply averaged_absent in Ha, Ha', Hc, Hc', Hq, Hq', Hqh, Hqh', Hch, Hch',
    Hkh, Hkh', Hoh, Hoh'.
  rewrite map_nil_iff in Ha, Ha', Hq, Hq', Hqh, Hqh', Hch, Hch', Hkh, Hkh',
    Hoh, Hoh'.
  cbn in Hin.
  destruct Hin
    as [<- | [<- | [<- | [<- | [<- | [<- | [<- | [<- | [<- | []]]]]]]]]];
    try tauto.
  - rewrite Hx, Hx'.
    destruct (measured b), (measured b'); cbn; split; intros E;
      try reflexivity; try discriminate; exfalso.
    + apply Permutation_nil in Hm. discriminate.
    + apply Permutation_sym, Permutation_nil in Hm. discriminate.
  - rewrite Hi, Hi'.
    destruct (measured b), (measured b'); split; intros E;
      try reflexivity; try discriminate; exfalso.
    + apply Permutation_nil in Hm. discriminate.
    + apply Permutation_sym, Permutation_nil in Hm. discriminate.
Qed.

Lemma int_fields_same (b b' : list dict) (agg agg' : dict) :
  Permutation b b' ->
  aggregate_metrics b = Ret (Some agg) ->
  aggregate_metrics b' = Ret (Some agg') ->
  forall k xs, In (k, xs) (readings b) -> forallb is_int xs = true ->
    dict_lookup agg' k = dict_lookup agg k.
Proof.
  intros Hp H H' k xs Hin Hint.
  pose proof (measured_perm _ _ Hp) as Hm.
  pose proof (scored_perm _ _ Hp) as Hs.
  destruct (aggregate_fields b agg H)
    as (Ha & _ & Hc & Hq & _ & Hqh & Hch & Hkh & Hoh).
  destruct (aggregate_fields b' agg' H')
    as (Ha' & _ & Hc' & Hq' & _ & Hqh' & Hch' & Hkh' & Hoh').
  unfold readings, cache_readings in Hin. cbn [In] in Hin.
  destruct Hin as [Hin | [Hin | [Hin | [Hin | [Hin | [Hin | [Hin | []]]]]]]];
    injection Hin as <- <-.
  - eapply averaged_same; [exact Ha | exact Ha' | |];
      [| apply int_mean_ints_perm; [| exact Hint]];
      apply Permutation_map, Hm.
  - eapply averaged_same; [exact Hc | exact Hc' | |];
      [| apply round_mean_ints_perm; [| exact Hint]];
      apply filter_perm, Permutation_map, Hm.
  - eapply averaged_same; [exact Hq | exact Hq' | |];
      [| apply int_mean_ints_perm; [| exact Hint]];
      apply Permutation_map, Hm.
  - eapply averaged_same; [exact Hqh | exact Hqh' | |];
      [| apply round_mean_ints_perm; [| exact Hint]];
      apply Permutation_map, Hs.
  - eapply averaged_same; [exact Hch | exact Hch' | |];
      [| apply round_mean_ints_perm; [| exact Hint]];
      apply Permutation_map, Hs.
  - eapply averaged_same; [exact Hkh | exact Hkh' | |];
      [| apply round_mean_ints_perm; [| exact Hint]];
      apply Permutation_map, Hs.
  - eapply averaged_same; [exact Hoh | exact Hoh' | |];
      [| apply round_mean_ints_perm; [| exact Hint]];
      apply Permutation_map, Hs.
Qed.

(** ** Buffers whose readings are all ints *)

Definition int_readings (buffer : list dict) : Prop :=
  forall k xs, In (k, xs) (readings buffer) -> forallb is_int xs = true.

(** A mean that was computed over ints is computed over them in any
    order. *)
Lemma averaged_returns (agg : dict) (k : string) (xs ys : list pyval) mean :
  averaged agg k xs mean -> Permutation xs ys -> mean xs = mean ys ->
  ys = [] \/ exists v, mean ys = Ret v.
Proof.
  unfold averaged. intros H Hp Hmean. destruct xs as [| x xs].
  - left. apply Permutation_nil, Hp.
  - right. destruct H as (v & Hv & _). exists v. congruence.
Qed.

Lemma average_connections_returns (b : list dict) (d : dict) :
  let xs := map (reading "active_connections" (PInt 0)) (measured b) in
  xs = [] \/ (exists v, int_mean xs = Ret v) ->
  exists d', average_connections (lists_of b) d = Ret d'.
Proof.
  cbv zeta. unfold average_connections, lists_of. cbn [connection_samples].
  rewrite map_active_entries.
  destruct (measured b) as [| m ms]; [cbn; eauto |].
  intros [H | (v & ->)]; [discriminate | cbn [map obind]; eauto].
Qed.

Lemma average_cache_returns (b : list dict) (d : dict) :
  cache_readings b = [] \/
  (exists v, round_mean (cache_readings b) 4 = Ret v) ->
  exists d', average_cache (lists_of b) d = Ret d'.
Proof.
  unfold average_cache, lists_of, cache_readings. cbn [cache_samples].
  destruct (filter positive _) as [| c cs]; [eauto |].
  intros [H | (v & ->)]; [discriminate | cbn [obind]; eauto].
Qed.

Lemma average_scans_returns (b : list dict) (d : dict) :
  let xs := map (reading "sequential_scans" (PInt 0)) (measured b) in
  xs = [] \/ (exists v, int_mean xs = Ret v) ->
  exists d', average_scans (lists_of b) d = Ret d'.
Proof.
  cbv zeta. unfold average_scans, lists_of. cbn [scan_samples].
  rewrite map_sequential_entries.
  destruct (measured b) as [| m ms]; [cbn; eauto |].
  intros [H | (v & ->)]; [discriminate | cbn [map obind]; eauto].
Qed.

Lemma average_health_returns (b : list dict) (d : dict) :
  let column k := map (reading k (PInt 0)) (scored b) in
  (column "query_health" = [] \/
   exists v, round_mean (column "query_health") 2 = Ret v) ->
  (column "connection_health" = [] \/
   exists v, round_mean (column "connection_health") 2 = Ret v) ->
  (column "cache_health" = [] \/
   exists v, round_mean (column "cache_health") 2 = Ret v) ->
  (column "health_score" = [] \/
   exists v, round_mean (column "health_score") 2 = Ret v) ->
  exists d', average_health (lists_of b) d = Ret d'.
Proof.
  cbv zeta. unfold average_health, lists_of. cbn [health_samples].
  rewrite !map_map.
  change (fun x => query (health_entry x))
    with (reading "query_health" (PInt 0)).
  change (fun x => connection (health_entry x))
    with (reading "connection_health" (PInt 0)).
  change (fun x => cache (health_entry x))
    with (reading "cache_health" (PInt 0)).
  change (fun x => overall (health_entry x))
    with (reading "health_score" (PInt 0)).
  destruct (scored b) as [| m ms]; [cbn; eauto |].
  intros [H | (q & ->)]; [discriminate |].
  intros [H | (c & ->)]; [discriminate |].
  intros [H | (h & ->)]; [discriminate |].
  intros [H | (o & ->)]; [discriminate |].
  cbn [map obind]. eauto.
Qed.

(** When every reading is an int, an aggregate that is returned for a
    buffer is returned for the buffer in any order. *)
Lemma int_readings_return (b b' : list dict) (agg : dict) :
  Permutation b b' ->
  aggregate_metrics b = Ret (Some agg) ->
  int_readings b ->
  exists agg', aggregate_metrics b' = Ret (Some agg').
Proof.
  intros Hp H Hint.
  pose proof (measured_perm _ _ Hp) as Hm.
  pose proof (scored_perm _ _ Hp) as Hs.
  destruct (aggregate_fields b agg H)
    as (Ha & _ & Hc & Hq & _ & Hqh & Hch & Hkh & Hoh).
  destruct (aggregate_metrics_inv b agg H) as (Hne & s & _ & _ & _ & Hl & _).
  destruct (loop_perm b b' Hp s Hl) as (s' & Hl' & _).
  pose proof (loop_lists b' s' Hl') as ->.
  assert (Ha' := averaged_returns _ _ _ _ _ Ha
    (Permutation_map _ Hm)
    (int_mean_ints_perm _ _ (Permutation_map _ Hm)
       (Hint _ _ (or_introl eq_refl)))).
  assert (Hc' := averaged_returns _ _ _ _ _ Hc
    (filter_perm positive _ _ (Permutation_map _ Hm))
    (round_mean_ints_perm _ _ 4
       (filter_perm positive _ _ (Permutation_map _ Hm))
       (Hint _ _ (or_intror (or_introl eq_refl))))).
  assert (Hq' := averaged_returns _ _ _ _ _ Hq
    (Permutation_map _ Hm)
    (int_mean_ints_perm _ _ (Permutation_map _ Hm)
       (Hint _ _ (or_intror (or_intror (or_introl eq_refl)))))).
  assert (Hqh' := averaged_returns _ _ _ _ _ Hqh
    (Permutation_map _ Hs)
    (round_mean_ints_perm _ _ 2 (Permutation_map _ Hs)
       (Hint _ _ (or_intror (or_intror (or_intror (or_introl eq_refl))))))).
  assert (Hch' := averaged_returns _ _ _ _ _ Hch
    (Permutation_map _ Hs)
    (round_mean_ints_perm _ _ 2 (Permutation_map _ Hs)
       (Hint _ _ (or_intror (or_intror (or_intror (or_intror
                    (or_introl eq_refl)))))))).
  assert (Hkh' := averaged_returns _ _ _ _ _ Hkh
    (Permutation_map _ Hs)
    (round_mean_ints_perm _ _ 2 (Permutation_map _ Hs)
       (Hint _ _ (or_intror (or_intror (or_intror (or_intror (or_intror
                    (or_introl eq_refl))))))))).
  assert (Hoh' := averaged_returns _ _ _ _ _ Hoh
    (Permutation_map _ Hs)
    (round_mean_ints_perm _ _ 2 (Permutation_map _ Hs)
       (Hint _ _ (or_intror (or_intror (or_intror (or_intror (or_intror
                    (or_intror (or_introl eq_refl)))))))))).
  unfold aggregate_metrics. destruct b' as [| m' rest'].
  { apply Permutation_sym, Permutation_nil in Hp. contradiction. }
  rewrite Hl'. cbn [obind].
  destruct (average_connections_returns (m' :: rest') [] Ha') as (d1 & ->).
  cbn [obind].
  destruct (average_cache_returns (m' :: rest') d1 Hc') as (d2 & ->).
  cbn [obind].
  destruct (average_scans_returns (m' :: rest') d2 Hq') as (d3 & ->).
  cbn [obind].
  destruct (average_health_returns (m' :: rest') d3 Hqh' Hch' Hkh' Hoh')
    as (d4 & ->).
  cbn [obind]. eauto.
Qed.

(** ** The claim *)

(** C3, amended.  Reordering the buffer reorders the readings that
    [aggregate_metrics] adds up for each field, and changes nothing else
    about them: the loop over the reordered buffer ends as the loop over
    the buffer does, and the four lists it builds are permutations of
    one another.  Nothing is deduplicated: the lists of a buffer in two
    parts are those of either part, put end to end, so a message that
    occurs again adds its entries again.  When both orders give an
    aggregate, the two have the same fields, and a field whose readings
    are all ints has the same value in both, [max_connections] left
    aside, which is read off the first message that has measurements;
    when all the readings are ints, an aggregate that one order gives is
    given by the other.  (Nothing is said of the value of a field with a
    float among its readings.) *)
Theorem aggregate_metrics_permutation (buffer buffer' : list dict) :
  Permutation buffer buffer' ->
  Forall2 (fun r r' => fst r = fst r' /\ Permutation (snd r) (snd r'))
          (readings buffer) (readings buffer') /\
  (forall s, loop no_samples buffer = Ret s ->
     exists s', loop no_samples buffer' = Ret s' /\ samples_perm s s') /\
  (forall b1 b2, buffer = (b1 ++ b2)%list ->
     loop no_samples buffer =
     obind (loop no_samples b1) (fun s1 =>
     obind (loop no_samples b2) (fun s2 => Ret (merge s1 s2)))) /\
  (forall agg agg',
     aggregate_metrics buffer = Ret (Some agg) ->
     aggregate_metrics buffer' = Ret (Some agg') ->
     (forall k, dict_lookup agg' k = None <-> dict_lookup agg k = None) /\
     (forall k xs, In (k, xs) (readings buffer) ->
        forallb is_int xs = true ->
        dict_lookup agg' k = dict_lookup agg k)) /\
  (forall agg,
     aggregate_metrics buffer = Ret (Some agg) ->
     int_readings buffer ->
     exists agg', aggregate_metrics buffer' = Ret (Some agg')).
Proof.
  intros Hp. split; [exact (readings_perm buffer buffer' Hp) |].
  split; [exact (loop_perm buffer buffer' Hp) |].
  split; [intros b1 b2 ->; apply loop_app |].
  split.
  - intros agg agg' H H'.
    split; [exact (fields_absent _ _ _ _ Hp H H') |].
    exact (int_fields_same _ _ _ _ Hp H H').
  - intros agg H Hint. exact (int_readings_return _ _ _ Hp H Hint).
Qed.

Lemma aggregate_metrics_permutation_witness :
  Permutation [pool_of_100; pool_of_200] [pool_of_200; pool_of_100] /\
  aggregate_metrics [pool_of_100; pool_of_200] =
    Ret (Some [("active_connections", PInt 5);
               ("max_connections", PInt 100);
               ("sequential_scans", PInt 0);
               ("index_scans", PInt 0)]) /\
  aggregate_metrics [pool_of_200; pool_of_100] =
    Ret (Some [("active_connections", PInt 5);
               ("max_connections", PInt 200);
               ("sequential_scans", PInt 0);
               ("index_scans", PInt 0)]) /\
  (forall k xs, In (k, xs) (readings [pool_of_100; pool_of_200]) ->
     forallb is_int xs = true ->
     dict_lookup [("active_connections", PInt 5);
                  ("max_connections", PInt 200);
                  ("sequential_scans", PInt 0);
                  ("index_scans", PInt 0)] k =
     dict_lookup [("active_connections", PInt 5);
                  ("max_connections", PInt 100);
                  ("sequential_scans", PInt 0);
                  ("index_scans", PInt 0)] k).
Proof.
  split; [apply perm_swap |]. split; [reflexivity |].
  split; [reflexivity |].
  exact (proj2 (proj1 (proj2 (proj2 (proj2
    (aggregate_metrics_permutation
       [pool_of_100; pool_of_200] [pool_of_200; pool_of_100]
       (perm_swap _ _ _))))) _ _ eq_refl eq_refl)).
Defined.

End ReorderingFacts.

(* ================================================================== *)
(** * More about collector_client.py: the message handler              *)
(* ================================================================== *)

Module HandlerFacts.
Import Py PyFacts CollectorClient CollectorFacts.
Local Open Scope string_scope.

Section Handler.
Variable msg : Type.
Variable json_loads : msg -> outcome pyval.

(** The JSON object a message holds, if it holds one. *)
Definition object_of (m : msg) : list dict :=
  match json_loads m with
  | Ret (PDict d) => [d]
  | _ => []
  end.

(** The same object with the time of its arrival written into it. *)
Definition stamped (arrival : msg * string) : list dict :=
  map (fun d => dict_set d "_received_at" (PStr (snd arrival)))
      (object_of (fst arrival)).

Lemma message_handler_stamped (buffer : list dict) (m : msg) (t : string) :
  message_handler msg json_loads buffer m t =
  Ret (buffer ++ stamped (m, t))%list.
Proof.
  unfold message_handler, stamped, object_of. cbn [fst snd].
  destruct (json_loads m) as [[| b | z | q | s | l | d] | e];
    cbn [obind py_setitem map]; rewrite ?app_nil_r; reflexivity.
Qed.

Lemma deliver_stamped (arrivals : list (msg * string)) (buffer : list dict) :
  deliver msg json_loads buffer arrivals =
  Ret (buffer ++ flat_map stamped arrivals)%list.
Proof.
  revert buffer. induction arrivals as [| [m t] rest IH]; intros buffer.
  - cbn. rewrite app_nil_r. reflexivity.
  - cbn [deliver flat_map]. rewrite message_handler_stamped. cbn [obind].
    rewrite IH, app_assoc. reflexivity.
Qed.

(** X5.  The message handler never raises.  After any run of deliveries
    the buffer is what it was, followed by the JSON objects among the
    messages, in order of arrival, each with its ['_received_at']; a
    message that does not decode, or decodes to something that is not an
    object, leaves no trace in it. *)
Theorem deliver_keeps_the_objects
    (buffer : list dict) (arrivals : list (msg * string)) :
  deliver msg json_loads buffer arrivals =
    Ret (buffer ++ flat_map stamped arrivals)%list /\
  forall d, In d (flat_map stamped arrivals) ->
    dict_lookup d "_received_at" <> None.
Proof.
  split; [apply deliver_stamped |].
  intros d Hd. apply in_flat_map in Hd. destruct Hd as ([m t] & _ & Hd).
  unfold stamped in Hd. apply in_map_iff in Hd.
  destruct Hd as (d0 & <- & _). rewrite dict_lookup_set, String.eqb_refl.
  discriminate.
Qed.

(** What the aggregation reads of a message. *)
Definition read_keys : list string :=
  ["measurements"; "connection_health"; "query_health"; "cache_health";
   "health_score"].

Definition same_reads (m m' : dict) : Prop :=
  forall k, In k read_keys -> dict_lookup m k = dict_lookup m' k.

Lemma loop_body_same_reads (acc : samples) (m m' : dict) :
  same_reads m m' -> loop_body acc m = loop_body acc m'.
Proof.
  intros H. unfold loop_body, parse_health, dict_get.
  rewrite (H "measurements"), (H "connection_health"), (H "query_health"),
    (H "cache_health"), (H "health_score") by (cbn; tauto).
  reflexivity.
Qed.

Lemma loop_same_reads (b b' : list dict) :
  Forall2 same_reads b b' -> forall acc, loop acc b = loop acc b'.
Proof.
  induction 1 as [| m m' b b' Hm _ IH]; intros acc; [reflexivity |].
  cbn [loop]. rewrite (loop_body_same_reads acc m m' Hm).
  destruct (loop_body acc m'); cbn [obind]; [apply IH | reflexivity].
Qed.

Lemma aggregate_metrics_same_reads (b b' : list dict) :
  Forall2 same_reads b b' -> aggregate_metrics b = aggregate_metrics b'.
Proof.
  intros H. unfold aggregate_metrics.
  rewrite (loop_same_reads b b' H). destruct H; reflexivity.
Qed.

Lemma stamp_same_reads (d : dict) (v : pyval) :
  same_reads (dict_set d "_received_at" v) d.
Proof.
  intros k Hk. rewrite dict_lookup_set.
  cbn in Hk. decompose [or] Hk; subst; try contradiction; reflexivity.
Qed.

(** X6.  Aggregating what the handler buffered is aggregating the JSON
    objects that were published: neither the time of arrival written into
    a message nor the messages the handler dropped change the result. *)
Theorem aggregate_metrics_of_deliveries (arrivals : list (msg * string)) :
  obind (deliver msg json_loads [] arrivals) aggregate_metrics =
  aggregate_metrics (flat_map object_of (map fst arrivals)).
Proof.
  rewrite deliver_stamped.
  cbn [obind app]. apply aggregate_metrics_same_reads.
  induction arrivals as [| [m t] rest IH]; [constructor |].
  cbn [flat_map map fst]. apply Forall2_app; [| exact IH].
  unfold stamped. cbn [fst snd].
  induction (object_of m) as [| d ds IHd]; constructor;
    [apply stamp_same_reads | exact IHd].
Qed.

End Handler.
End HandlerFacts.

(* ================================================================== *)
(** * collector_client.py and database.py together                     *)
(* ================================================================== *)

Module DatabaseFacts.
Import Py PyFacts CollectorClient CollectorFacts AggregateExtras Database.
Local Open Scope string_scope.

(** X7.  Nothing [aggregate_metrics] computed is lost on the way into
    the database: the row [insert_collector_metrics] inserts has every
    field of the aggregate in the column of the same name, the run id in
    [run_id], and NULL in the column of every field the aggregate does
    not have. *)
Theorem collector_row_keeps_every_field
    (buffer : list dict) (agg : dict) (run_id : string) :
  aggregate_metrics buffer = Ret (Some agg) ->
  In ("run_id", PStr run_id) (collector_metrics_row run_id agg) /\
  (forall k v, dict_lookup agg k = Some v ->
     In (k, v) (collector_metrics_row run_id agg)) /\
  (forall k, In k aggregate_keys -> dict_lookup agg k = None ->
     In (k, PNone) (collector_metrics_row run_id agg)).
Proof.
  intros H.
  assert (Hrow : forall k, In k aggregate_keys ->
            In (k, dict_get_none agg k) (collector_metrics_row run_id agg)).
  { intros k Hk. cbn in Hk. cbn [collector_metrics_row combine
      collector_metrics_columns insert_collector_metrics_params].
    decompose [or] Hk; subst; try contradiction;
      cbn [In]; auto 12. }
  split; [left; reflexivity |]. split.
  - intros k v Hv.
    assert (Hk : In k aggregate_keys).
    { apply (aggregate_known_keys buffer agg k H). congruence. }
    specialize (Hrow k Hk). unfold dict_get_none, dict_get in Hrow.
    rewrite Hv in Hrow. exact Hrow.
  - intros k Hk Hnone. specialize (Hrow k Hk).
    unfold dict_get_none, dict_get in Hrow. rewrite Hnone in Hrow. exact Hrow.
Qed.

Lemma collector_row_keeps_every_field_witness :
  collector_metrics_row "run"
    [("active_connections", PInt 5); ("max_connections", PInt 200);
     ("sequential_scans", PInt 0); ("index_scans", PInt 0)] =
  [("run_id", PStr "run"); ("active_connections", PInt 5);
   ("max_connections", PInt 200); ("cache_hit_rate", PNone);
   ("sequential_scans", PInt 0); ("index_scans", PInt 0);
   ("query_health", PNone); ("connection_health", PNone);
   ("cache_health", PNone); ("overall_health", PNone)] /\
  forall k v,
    dict_lookup
      [("active_connections", PInt 5); ("max_connections", PInt 200);
       ("sequential_scans", PInt 0); ("index_scans", PInt 0)] k = Some v ->
    In (k, v)
       (collector_metrics_row "run"
          [("active_connections", PInt 5); ("max_connections", PInt 200);
           ("sequential_scans", PInt 0); ("index_scans", PInt 0)]).
Proof.
  split; [reflexivity |].
  exact (proj1 (proj2
    (collector_row_keeps_every_field [pool_of_200; pool_of_100] _ "run"
       eq_refl))).
Defined.

End DatabaseFacts.

(* ================================================================== *)
(** * More about locust_collector.py                                   *)
(* ================================================================== *)

Module LocustExtras.
Import Py PyFacts LocustCollector LocustFacts.
Local Open Scope string_scope.

(** ** Where the method and the endpoint of a metric come from *)

Definition has_space (s : string) : bool :=
  existsb (fun c => Ascii.eqb c " ") (list_ascii_of_string s).

Lemma split_space_some (s a b : string) :
  split_space s = Some (a, b) ->
  s = a ++ " " ++ b /\ has_space a = false.
Proof.
  revert a b. induction s as [| c s IH]; intros a b; cbn [split_space].
  - discriminate.
  - destruct (Ascii.eqb c " ") eqn:E.
    + intros H. injection H as <- <-. apply Ascii.eqb_eq in E. subst c.
      split; reflexivity.
    + destruct (split_space s) as [[a' b'] |]; [| discriminate].
      intros H. injection H as <- <-.
      destruct (IH a' b' eq_refl) as (-> & Ha).
      split; [reflexivity |].
      unfold has_space in *. cbn [list_ascii_of_string existsb].
      rewrite E, Ha. reflexivity.
Qed.

Lemma split_space_none (s : string) :
  split_space s = None -> has_space s = false.
Proof.
  induction s as [| c s IH]; cbn [split_space]; [reflexivity |].
  destruct (Ascii.eqb c " ") eqn:E; [discriminate |].
  destruct (split_space s) as [[a b] |]; [discriminate |].
  intros _. unfold has_space in *. cbn [list_ascii_of_string existsb].
  rewrite E. apply IH. reflexivity.
Qed.

Section WithParsers.
Context {parsers : StrParsers}.

Lemma build_metric_names (row : dict) (mt ep : string) (m : metric) :
  build_metric row mt ep = Ret m -> method m = mt /\ endpoint m = ep.
Proof.
  unfold build_metric. intros H.
  repeat (apply obind_ret_inv in H; destruct H as (? & _ & H)).
  injection H as <-. split; reflexivity.
Qed.

(** The row a metric was built from, and with which names. *)
Definition built_from (row : dict) (m : metric) : Prop :=
  is_aggregated row = false /\
  exists name column,
    py_strip (dict_get row "Name" (PStr "")) = Ret name /\
    py_strip (dict_get row "Method" (PStr "GET")) = Ret column /\
    build_metric row
      (match split_space name with Some (a, _) => a | None => column end)
      (match split_space name with Some (_, b) => b | None => name end)
    = Ret m.

Lemma read_rows_inv (rows : list dict) : forall (acc ms : list metric),
  read_rows rows acc = Ret ms ->
  exists new,
    ms = (acc ++ new)%list /\
    Forall (fun m => exists row, In row rows /\ built_from row m) new.
Proof.
  induction rows as [| row rest IH]; intros acc ms H; cbn [read_rows] in H.
  - injection H as <-. exists []. rewrite app_nil_r. auto.
  - assert (Hrest : forall acc' new0,
              read_rows rest acc' = Ret ms -> acc' = (acc ++ new0)%list ->
              Forall (fun m => exists r, In r (row :: rest) /\ built_from r m)
                     new0 ->
              exists new, ms = (acc ++ new)%list /\
                Forall (fun m => exists r, In r (row :: rest) /\ built_from r m)
                       new).
    { intros acc' new0 Hr -> Hnew0.
      destruct (IH _ _ Hr) as (new & -> & Hnew).
      exists (new0 ++ new)%list. split; [apply eq_sym, app_assoc |].
      apply Forall_app. split; [exact Hnew0 |].
      eapply Forall_impl; [| exact Hnew].
      intros m (r & Hin & Hb). exists r. split; [right; exact Hin | exact Hb]. }
    destruct (is_aggregated row) eqn:Hagg.
    { apply (Hrest acc [] H); [rewrite app_nil_r; reflexivity | constructor]. }
    apply obind_ret_inv in H. destruct H as (name & Hname & H).
    apply obind_ret_inv in H. destruct H as (column & Hcol & H).
    destruct (split_space name) as [[a b] |] eqn:Hsplit.
    + destruct (build_metric row a b) as [m | []] eqn:Hb; try discriminate.
      * apply (Hrest _ [m] H); [reflexivity |].
        constructor; [| constructor]. exists row. split; [left; reflexivity |].
        split; [exact Hagg |]. exists name, column.
        rewrite Hsplit. auto.
      * apply (Hrest acc [] H); [rewrite app_nil_r; reflexivity | constructor].
    + destruct (build_metric row column name) as [m | []] eqn:Hb;
        try discriminate.
      * apply (Hrest _ [m] H); [reflexivity |].
        constructor; [| constructor]. exists row. split; [left; reflexivity |].
        split; [exact Hagg |]. exists name, column.
        rewrite Hsplit. auto.
      * apply (Hrest acc [] H); [rewrite app_nil_r; reflexivity | constructor].
Qed.

Lemma fold_set_absent {X} (key : X -> string) (val : X -> pyval)
    (xs : list X) (k : string) : forall d : dict,
  dict_lookup d k = None ->
  (forall x, In x xs -> key x <> k) ->
  dict_lookup (fold_left (fun d x => dict_set d (key x) (val x)) xs d) k
  = None.
Proof.
  induction xs as [| x xs IH]; intros d Hd Hxs; [exact Hd |].
  cbn [fold_left]. apply IH.
  - rewrite dict_lookup_set.
    destruct (String.eqb (key x) k) eqn:E; [| exact Hd].
    apply String.eqb_eq in E. exfalso.
    apply (Hxs x); [left; reflexivity | exact E].
  - intros y Hy. apply Hxs. right. exact Hy.
Qed.

Lemma In_skipn {X} (n : nat) (l : list X) (x : X) :
  In x (skipn n l) -> In x l.
Proof.
  revert l. induction n as [| n IH]; intros l; [auto |].
  destruct l as [| y l]; cbn [skipn]; [auto |]. intros H. right. auto.
Qed.

(** A column the header does not have is absent from every row. *)
Lemma dict_row_absent (fieldnames record : list string) (k : string) :
  ~ In k fieldnames -> dict_lookup (dict_row fieldnames record) k = None.
Proof.
  intros Hk. unfold dict_row, zip_record.
  apply (fold_set_absent (fun k => k) (fun _ => PNone)).
  - apply (fold_set_absent fst (fun kv => PStr (snd kv))); [reflexivity |].
    intros [k' v] Hin <-. apply Hk. eapply in_combine_l. exact Hin.
  - intros k' Hin <-. apply Hk. eapply In_skipn. exact Hin.
Qed.

Lemma In_DictReader (fieldnames : list string) (records : list (list string))
    (row : dict) :
  In row (DictReader (fieldnames :: records)) ->
  exists record, In record records /\ row = dict_row fieldnames record.
Proof.
  unfold DictReader. intros H. apply in_map_iff in H.
  destruct H as (record & <- & Hin). apply filter_In in Hin.
  exists record. split; [apply Hin | reflexivity].
Qed.

(** Every metric [extract_metrics] returns was built from a record of the
    file. *)
Lemma extract_metrics_inv (fs : string -> option csv_file)
    (csv_prefix : string) (fieldnames : list string)
    (records : list (list string)) (ms : list metric) (m : metric) :
  fs (csv_prefix ++ "_stats.csv") = Some (fieldnames :: records) ->
  extract_metrics fs csv_prefix = Ret ms ->
  In m ms ->
  exists record,
    In record records /\ built_from (dict_row fieldnames record) m.
Proof.
  intros Hfs H Hm. unfold extract_metrics in H. rewrite Hfs in H.
  apply read_rows_inv in H. destruct H as (new & -> & Hnew).
  cbn [app] in Hm. rewrite Forall_forall in Hnew.
  destruct (Hnew m Hm) as (row & Hrow & Hb).
  apply In_DictReader in Hrow. destruct Hrow as (record & Hin & ->).
  exists record. auto.
Qed.

(** X8.  The method and the endpoint of a metric are read off the name of
    its row, stripped: a name with a space gives the text before its
    first space as the method and the text after it as the endpoint,
    whatever the two are; a name without one is the endpoint, and the
    method is then the [Method] cell of the row, ["GET"] when the file has
    no such column.  The [Type] column is not looked at. *)
Theorem extract_metrics_method_and_endpoint
    (fs : string -> option csv_file) (csv_prefix : string)
    (fieldnames : list string) (records : list (list string))
    (ms : list metric) (m : metric) :
  fs (csv_prefix ++ "_stats.csv") = Some (fieldnames :: records) ->
  extract_metrics fs csv_prefix = Ret ms ->
  In m ms ->
  exists record name column,
    In record records /\
    py_strip (dict_get (dict_row fieldnames record) "Name" (PStr ""))
      = Ret name /\
    py_strip (dict_get (dict_row fieldnames record) "Method" (PStr "GET"))
      = Ret column /\
    (~ In "Method" fieldnames -> column = "GET") /\
    ((has_space name = false /\ endpoint m = name /\ method m = column) \/
     (name = method m ++ " " ++ endpoint m /\ has_space (method m) = false)).
Proof.
  intros Hfs H Hm.
  destruct (extract_metrics_inv fs csv_prefix fieldnames records ms m Hfs H Hm)
    as (record & Hin & _ & name & column & Hname & Hcol & Hb).
  exists record, name, column.
  split; [exact Hin |]. split; [exact Hname |]. split; [exact Hcol |].
  split.
  - intros Habs. unfold dict_get in Hcol.
    rewrite (dict_row_absent fieldnames record "Method" Habs) in Hcol.
    change (Ret "GET" = Ret column) in Hcol. congruence.
  - apply build_metric_names in Hb. destruct Hb as (Hmt & Hep).
    destruct (split_space name) as [[a b] |] eqn:Hsplit.
    + right. apply split_space_some in Hsplit. rewrite Hmt, Hep. exact Hsplit.
    + left. apply split_space_none in Hsplit. auto.
Qed.

Lemma build_metric_fields (row : dict) (mt ep : string) (m : metric) :
  build_metric row mt ep = Ret m ->
  py_int (dict_get row "Request Count" (PInt 0)) = Ret (request_count m) /\
  py_int (dict_get row "Failure Count" (PInt 0)) = Ret (failure_count m) /\
  py_float (dict_get row "Median Response Time" (PInt 0))
    = Ret (median_response_time m) /\
  py_float (dict_get row "Average Response Time" (PInt 0))
    = Ret (average_response_time m) /\
  py_float (dict_get row "Min Response Time" (PInt 0))
    = Ret (min_response_time m) /\
  py_float (dict_get row "Max Response Time" (PInt 0))
    = Ret (max_response_time m) /\
  py_float (dict_get row "50%"
              (dict_get row "Median Response Time" (PInt 0)))
    = Ret (p50_response_time m) /\
  py_float (dict_get row "95%" (PInt 0)) = Ret (p95_response_time m) /\
  py_float (dict_get row "99%" (PInt 0)) = Ret (p99_response_time m) /\
  py_float (dict_get row "Requests/s" (PInt 0))
    = Ret (requests_per_second m) /\
  py_float (dict_get row "Failures/s" (PInt 0))
    = Ret (failures_per_second m).
Proof.
  unfold build_metric. intros H.
  apply obind_ret_inv in H; destruct H as (rc & H1 & H).
  apply obind_ret_inv in H; destruct H as (fc & H2 & H).
  apply obind_ret_inv in H; destruct H as (med & H3 & H).
  apply obind_ret_inv in H; destruct H as (avg & H4 & H).
  apply obind_ret_inv in H; destruct H as (mn & H5 & H).
  apply obind_ret_inv in H; destruct H as (mx & H6 & H).
  apply obind_ret_inv in H; destruct H as (p50 & H7 & H).
  apply obind_ret_inv in H; destruct H as (p95 & H8 & H).
  apply obind_ret_inv in H; destruct H as (p99 & H9 & H).
  apply obind_ret_inv in H; destruct H as (rps & H10 & H).
  apply obind_ret_inv in H; destruct H as (fps & H11 & H).
  injection H as <-. cbn. repeat split; assumption.
Qed.

(** The columns of the numbers of a metric, in the order of its fields. *)
Definition count_columns : list (string * (metric -> Z)) :=
  [("Request Count", request_count); ("Failure Count", failure_count)].

Definition time_columns : list (string * (metric -> Q)) :=
  [("Median Response Time", median_response_time);
   ("Average Response Time", average_response_time);
   ("Min Response Time", min_response_time);
   ("Max Response Time", max_response_time);
   ("95%", p95_response_time); ("99%", p99_response_time);
   ("Requests/s", requests_per_second);
   ("Failures/s", failures_per_second)].

(** X9.  A column the statistics file does not have is no error: the
    number of that column is zero in every metric returned, and without a
    ["50%"] column the median stands in for the 50th percentile. *)
Theorem extract_metrics_absent_columns
    (fs : string -> option csv_file) (csv_prefix : string)
    (fieldnames : list string) (records : list (list string))
    (ms : list metric) (m : metric) :
  fs (csv_prefix ++ "_stats.csv") = Some (fieldnames :: records) ->
  extract_metrics fs csv_prefix = Ret ms ->
  In m ms ->
  (forall column field, In (column, field) count_columns ->
     ~ In column fieldnames -> field m = 0) /\
  (forall column field, In (column, field) time_columns ->
     ~ In column fieldnames -> field m = inject_Z 0) /\
  (~ In "50%" fieldnames -> p50_response_time m = median_response_time m).
Proof.
  intros Hfs H Hm.
  destruct (extract_metrics_inv fs csv_prefix fieldnames records ms m Hfs H Hm)
    as (record & _ & _ & name & column & _ & _ & Hb).
  apply build_metric_fields in Hb.
  destruct Hb as (H1 & H2 & H3 & H4 & H5 & H6 & H7 & H8 & H9 & H10 & H11).
  pose proof (dict_row_absent fieldnames record) as Habs.
  split; [| split].
  - intros c f Hin Hc. specialize (Habs c Hc). unfold dict_get in *.
    cbn in Hin. decompose [or] Hin; try contradiction;
      match goal with E : (_, _) = (_, _) |- _ => injection E as <- <- end;
      rewrite Habs in *; cbn in *; congruence.
  - intros c f Hin Hc. specialize (Habs c Hc). unfold dict_get in *.
    cbn in Hin. decompose [or] Hin; try contradiction;
      match goal with E : (_, _) = (_, _) |- _ => injection E as <- <- end;
      rewrite Habs in *; cbn in *; congruence.
  - intros Hc. specialize (Habs "50%" Hc). unfold dict_get in H7 at 1.
    rewrite Habs in H7. congruence.
Qed.

End WithParsers.

(** A statistics file as locust writes it, with the verb in [Type] and a
    request of the repository's own locust file, named
    ["/api/bookings [POST]"]. *)
Definition bookings_stats : csv_file :=
  [ stats_header;
    ["POST"; "/api/bookings [POST]"; "7"; "0"; "35"; "41"; "12"; "230";
     "1"; "0"; "35"; "110"; "200"];
    ["POST"; "/api/bookings"; "7"; "0"; "35"; "41"; "12"; "230";
     "1"; "0"; "35"; "110"; "200"] ].

Definition bookings_metrics : list metric :=
  Eval vm_compute in
    match @extract_metrics decimal_parsers
            (one_file "outputs/run_stats.csv" bookings_stats) "outputs/run"
    with
    | Ret ms => ms
    | Raise _ => []
    end.

(** Its first metric. *)
Definition bookings_first : metric :=
  {| endpoint := "[POST]"; method := "/api/bookings";
     request_count := 7; failure_count := 0;
     median_response_time := inject_Z 35;
     average_response_time := inject_Z 41;
     min_response_time := inject_Z 12; max_response_time := inject_Z 230;
     p50_response_time := inject_Z 35; p95_response_time := inject_Z 110;
     p99_response_time := inject_Z 200;
     requests_per_second := inject_Z 1;
     failures_per_second := inject_Z 0 |}.

Lemma extract_metrics_method_and_endpoint_witness :
  @extract_metrics decimal_parsers
     (one_file "outputs/run_stats.csv" bookings_stats) "outputs/run"
    = Ret bookings_metrics /\
  map (fun m => (method m, endpoint m)) bookings_metrics
    = [("/api/bookings", "[POST]"); ("GET", "/api/bookings")] /\
  exists record name column,
    In record (tl bookings_stats) /\
    py_strip (dict_get (dict_row stats_header record) "Name" (PStr ""))
      = Ret name /\
    py_strip (dict_get (dict_row stats_header record) "Method" (PStr "GET"))
      = Ret column /\
    (~ In "Method" stats_header -> column = "GET") /\
    ((has_space name = false /\ endpoint bookings_first = name /\
      method bookings_first = column) \/
     (name = method bookings_first ++ " " ++ endpoint bookings_first /\
      has_space (method bookings_first) = false)).
Proof.
  split; [vm_compute; reflexivity |]. split; [reflexivity |].
  apply (@extract_metrics_method_and_endpoint decimal_parsers
           (one_file "outputs/run_stats.csv" bookings_stats) "outputs/run"
           stats_header (tl bookings_stats) bookings_metrics bookings_first
           eq_refl).
  - vm_compute. reflexivity.
  - left. reflexivity.
Defined.

(** A statistics file whose columns have other names than the ones the
    code asks for. *)
Definition renamed_stats : csv_file :=
  [ ["Method"; "Name"; "# requests"; "# failures"; "Median response time"];
    ["GET"; "/api/posts"; "120"; "3"; "35"] ].

Definition renamed_metrics : list metric :=
  Eval vm_compute in
    match @extract_metrics decimal_parsers
            (one_file "outputs/run_stats.csv" renamed_stats) "outputs/run"
    with
    | Ret ms => ms
    | Raise _ => []
    end.

Definition renamed_first : metric :=
  {| endpoint := "/api/posts"; method := "GET";
     request_count := 0; failure_count := 0;
     median_response_time := inject_Z 0;
     average_response_time := inject_Z 0;
     min_response_time := inject_Z 0; max_response_time := inject_Z 0;
     p50_response_time := inject_Z 0; p95_response_time := inject_Z 0;
     p99_response_time := inject_Z 0;
     requests_per_second := inject_Z 0;
     failures_per_second := inject_Z 0 |}.

Lemma extract_metrics_absent_columns_witness :
  renamed_metrics = [renamed_first] /\
  (forall column field, In (column, field) count_columns ->
     ~ In column (hd [] renamed_stats) -> field renamed_first = 0%Z) /\
  (forall column field, In (column, field) time_columns ->
     ~ In column (hd [] renamed_stats) -> field renamed_first = inject_Z 0) /\
  (~ In "50%" (hd [] renamed_stats) ->
   p50_response_time renamed_first = median_response_time renamed_first).
Proof.
  split; [reflexivity |].
  apply (@extract_metrics_absent_columns decimal_parsers
           (one_file "outputs/run_stats.csv" renamed_stats) "outputs/run"
           (hd [] renamed_stats) (tl renamed_stats) renamed_metrics
           renamed_first eq_refl).
  - vm_compute. reflexivity.
  - left. reflexivity.
Defined.

End LocustExtras.

(* ================================================================== *)
(** * More about benchmark_runner.py                                   *)
(* ================================================================== *)

Module RunnerExtras.
Import Py BenchmarkRunner RunnerFacts.
Local Open Scope runner_scope.

(** ** The three methods that handle the child process *)

(** The process ignores SIGTERM and is still running ten seconds after
    [t]. *)
Definition outlives_sigterm (p : process) (t : Z) : bool :=
  negb (heeds_sigterm p) && negb (gone p (t + 10)) &&
  match returncode p with None => true | Some _ => false end.

(** The process after [terminate()] at [t]. *)
Definition terminated (p : process) (t : Z) : process :=
  if heeds_sigterm p then struck p t (-15) else polled p t.

Lemma gone_later p t t' : gone p t' = false -> t <= t' -> gone p t = false.
Proof.
  intros H Ht. destruct (gone p t) eqn:G; [| reflexivity].
  rewrite (gone_mono p t t' G Ht) in H. discriminate.
Qed.

Lemma advance_within p t n :
  0 <= n -> gone p (t + n) = true ->
  0 <= match exits_at p with Some t' => Z.max 0 (t' - t) | None => 0 end <= n.
Proof.
  unfold gone. destruct (exits_at p) as [t' |]; [| lia].
  rewrite Z.leb_le. lia.
Qed.

Lemma kill_iff (p : process) (t : Z) :
  outlives_sigterm p t =
  negb (gone (terminated p t) (t + 10)) &&
  match returncode (terminated p t) with None => true | Some _ => false end.
Proof.
  unfold outlives_sigterm, terminated.
  destruct (heeds_sigterm p); cbn [negb andb].
  - unfold struck. destruct (returncode (polled p t)) eqn:R.
    + rewrite R. rewrite andb_false_r. reflexivity.
    + unfold gone at 1. cbn [exits_at].
      replace (t <=? t + 10) with true by (symmetry; apply Z.leb_le; lia).
      reflexivity.
  - rewrite polled_gone. destruct (gone p (t + 10)) eqn:G; [reflexivity |].
    cbn [negb andb]. unfold polled. destruct (returncode p) eqn:R.
    + rewrite R. reflexivity.
    + rewrite (gone_later p t (t + 10) G) by lia. rewrite R. reflexivity.
Qed.

Lemma stop_locust_wp w :
  wp stop_locust
     (fun r w' =>
        r = Ret tt /\
        locust_process w' = None /\
        locust_log_file w' = locust_log_file w /\
        clock w <= clock w' <= clock w + 10 /\
        trace w' =
          (trace w ++
           match locust_process w with
           | None => []
           | Some p =>
               [log_force_stopping; process_terminate; process_wait 10] ++
               (if outlives_sigterm p (clock w) then [process_kill] else [])
           end)%list) w.
Proof.
  unfold stop_locust. wp_step. wp_step.
  destruct (locust_process w) as [p |] eqn:E.
  2:{ wp_step. rewrite app_nil_r.
      repeat split; first [reflexivity | assumption | lia]. }
  wp_step. wp_step. wp_step. wp_step. rewrite E.
  wp_step. wp_step. wp_step.
  rewrite kill_iff. fold (terminated p (clock w)).
  destruct (gone (terminated p (clock w)) (clock w + 10)) eqn:G.
  - wp_step. cbn [negb andb app]. rewrite <- !app_assoc. cbn [app].
    pose proof (advance_within _ (clock w) 10 ltac:(lia) G).
    repeat split; first [reflexivity | assumption | lia].
  - destruct (returncode (terminated p (clock w))).
    + wp_step. cbn [negb andb app]. rewrite <- !app_assoc. cbn [app].
      repeat split; first [reflexivity | assumption | lia].
    + cbn [timeout_expired]. wp_step. wp_step.
      cbn [negb andb app]. rewrite <- !app_assoc. cbn [app].
      repeat split; first [reflexivity | assumption | lia].
Qed.

(** X10.  [stop_locust] always returns and leaves no process handle
    behind.  Without a handle it does nothing; with one it sends SIGTERM,
    waits up to ten seconds, and sends SIGKILL exactly when the process
    ignores SIGTERM and is still running after them.  Calling it again
    does nothing. *)
Theorem stop_locust_clears_the_handle (w : world) :
  exists w',
    stop_locust w = Some (Ret tt, w') /\
    locust_process w' = None /\
    locust_log_file w' = locust_log_file w /\
    clock w <= clock w' <= clock w + 10 /\
    trace w' =
      (trace w ++
       match locust_process w with
       | None => []
       | Some p =>
           [log_force_stopping; process_terminate; process_wait 10] ++
           (if outlives_sigterm p (clock w) then [process_kill] else [])
       end)%list /\
    stop_locust w' = Some (Ret tt, w').
Proof.
  destruct (stop_locust_wp w) as (r & w' & Hrun & -> & Hp & Hl & Hc & Ht).
  exists w'. repeat (split; [assumption |]).
  unfold stop_locust, bind, get_process. rewrite Hp. reflexivity.
Qed.

Definition is_keep_alive (ev : event) : bool :=
  match ev with keep_alive => true | _ => false end.

Definition turns (evs : list event) : Z :=
  Z.of_nat (length (filter is_keep_alive evs)).

(** How the polling loop of [run_single_test] ended. *)
Definition loop_ended (e : env) (start d : Z) (w : world)
    (r : outcome unit) (w' : world) (evs : list event) : Prop :=
  match r with
  | Ret _ =>
      (exists p c, locust_process w' = Some p /\ returncode p = Some c) \/
      (d + 60 < clock w' - start /\ clock w < clock w' /\
       In log_safety_timeout evs)
  | Raise x =>
      exists t, clock w <= t /\ raises e keep_alive t = Some x
  end.

Lemma keep_alive_loop_bound e start d fuel : forall w p,
  locust_process w = Some p ->
  start <= clock w ->
  (1 <= fuel)%nat ->
  d + 60 - (clock w - start) < Z.of_nat fuel ->
  wp (keep_alive_loop fuel e start d)
     (fun r w' =>
        exists evs,
          trace w' = (trace w ++ evs)%list /\
          turns evs <= Z.max 1 (d + 61 - (clock w - start)) /\
          clock w <= clock w' <= clock w + turns evs /\
          loop_ended e start d w r w' evs) w.
Proof.
  induction fuel as [| fuel IH]; intros w p Hp Hst Hf1 Hf; [lia |].
  cbn [keep_alive_loop]. wp_step. wp_step. rewrite Hp.
  destruct (returncode (polled p (clock w))) as [c |] eqn:Hrc.
  - wp_step. exists []. rewrite app_nil_r. unfold turns. cbn.
    split; [reflexivity |]. split; [lia |]. split; [lia |].
    left. eauto.
  - wp_step. wp_step.
    destruct (raises e keep_alive (clock w)) as [x |] eqn:Hx.
    + exists [keep_alive]. unfold turns. cbn.
      split; [reflexivity |]. split; [lia |]. split; [lia |].
      exists (clock w). split; [lia | exact Hx].
    + wp_steps.
      destruct (clock w + 1 - start >? d + 60) eqn:Hlate.
      * wp_step. exists [keep_alive; log_safety_timeout]. unfold turns. cbn.
        split; [rewrite <- app_assoc; reflexivity |].
        split; [lia |]. split; [lia |].
        right. rewrite Z.gtb_ltb in Hlate. apply Z.ltb_lt in Hlate.
        split; [lia |]. split; [lia | auto].
      * assert (Hle : clock w + 1 - start <= d + 60)
          by (destruct (Z.gtb_spec (clock w + 1 - start) (d + 60));
              [discriminate | lia]).
        eapply wp_mono;
          [| eapply IH; [reflexivity | cbn; lia | lia | cbn; lia]].
        cbn [clock trace recorded later holding].
        intros r w' (evs & Ht & Hn & Hc & Hend).
        exists (keep_alive :: evs). unfold turns in *.
        cbn [filter is_keep_alive length].
        split; [rewrite Ht, <- app_assoc; reflexivity |].
        split; [lia |]. split; [lia |].
        destruct r as [[] | x]; cbn [loop_ended] in *;
          cbn [clock trace recorded later holding] in *.
        -- destruct Hend as [Hend | (Hend & Hlt & Hin)];
             [left; exact Hend |].
           right. split; [exact Hend |]. split; [lia | right; exact Hin].
        -- destruct Hend as (t & Hge & Hr). exists t. split; [lia | exact Hr].
Qed.

(** X11.  The polling loop of [run_single_test] cannot hang: started with
    a process handle, it ends after at most [max 1 (duration + 61)] calls
    of [keep_alive], either because locust has exited, or because the
    safety timeout of [duration + 60] seconds has passed, or because
    [keep_alive] raised. *)
Theorem polling_loop_gives_up e d w p :
  locust_process w = Some p ->
  exists r w' evs,
    keep_alive_loop (loop_fuel d) e (clock w) d w = Some (r, w') /\
    trace w' = (trace w ++ evs)%list /\
    turns evs <= Z.max 1 (d + 61) /\
    clock w <= clock w' <= clock w + turns evs /\
    loop_ended e (clock w) d w r w' evs.
Proof.
  intros Hp.
  destruct (keep_alive_loop_bound e (clock w) d (loop_fuel d) w p Hp)
    as (r & w' & Hrun & evs & Ht & Hn & Hc & Hend);
    [lia | unfold loop_fuel; lia | unfold loop_fuel; lia |].
  exists r, w', evs. split; [exact Hrun |]. split; [exact Ht |].
  split; [| split; [exact Hc | exact Hend]].
  replace (d + 61 - (clock w - clock w)) with (d + 61) in Hn by lia.
  exact Hn.
Qed.

Definition is_start_error (ev : event) : bool :=
  match ev with
  | log_failed_to_start _ | log_exited_immediately _ => true
  | _ => false
  end.

(** ** What a block can add to the trace *)

(** However [m] ends, the calls it made all satisfy [P]. *)
Definition emits {A} (P : event -> Prop) (m : M A) : Prop :=
  forall w r w', m w = Some (r, w') ->
    exists evs, trace w' = (trace w ++ evs)%list /\ Forall P evs.

Lemma emits_silent {A} (P : event -> Prop) (m : M A) :
  (forall w r w', m w = Some (r, w') -> trace w' = trace w) -> emits P m.
Proof.
  intros H w r w' Hm. exists []. rewrite app_nil_r.
  split; [eauto | constructor].
Qed.

(** An action that leaves the trace alone. *)
Ltac silent :=
  apply emits_silent;
  let H := fresh "H" in intros ? ? ? H; injection H as _ <-; reflexivity.

Lemma emits_ret {A} P (a : A) : emits P (ret a).
Proof. silent. Qed.

Lemma emits_throw {A} P (x : exn) : emits P (@throw A x).
Proof. silent. Qed.

Lemma emits_lift {A} P (r : outcome A) : emits P (lift r).
Proof. silent. Qed.

Lemma emits_now P : emits P now.
Proof. silent. Qed.

Lemma emits_advance P n : emits P (advance n).
Proof. silent. Qed.

Lemma emits_get_process P : emits P get_process.
Proof. silent. Qed.

Lemma emits_set_process P p : emits P (set_process p).
Proof. silent. Qed.

Lemma emits_get_log_file P : emits P get_log_file.
Proof. silent. Qed.

Lemma emits_set_log_file P b : emits P (set_log_file b).
Proof. silent. Qed.

Lemma emits_emit (P : event -> Prop) ev : P ev -> emits P (emit ev).
Proof.
  intros HP w r w' H. injection H as _ <-. exists [ev].
  split; [reflexivity | constructor; [exact HP | constructor]].
Qed.

Lemma emits_bind {A B} P (m : M A) (k : A -> M B) :
  emits P m -> (forall a, emits P (k a)) -> emits P (bind m k).
Proof.
  intros Hm Hk w r w' H. unfold bind in H.
  destruct (m w) as [[[a | x] w1] |] eqn:E; [| | discriminate].
  - destruct (Hm _ _ _ E) as (evs1 & Ht1 & H1).
    destruct (Hk a _ _ _ H) as (evs2 & Ht2 & H2).
    exists (evs1 ++ evs2)%list. rewrite Ht2, Ht1, app_assoc.
    split; [reflexivity | apply Forall_app; auto].
  - injection H as <- <-. exact (Hm _ _ _ E).
Qed.

(** The value a lifted computation hands on is the one it returned. *)
Lemma emits_bind_lift {A B} P (r : outcome A) (k : A -> M B) :
  (forall a, r = Ret a -> emits P (k a)) -> emits P (bind (lift r) k).
Proof.
  intros Hk w r' w' H. unfold bind, lift in H.
  destruct r as [a | x].
  - exact (Hk a eq_refl _ _ _ H).
  - injection H as <- <-. exists []. rewrite app_nil_r. auto.
Qed.

Lemma emits_try_except {A} P (m : M A) matching handler :
  emits P m -> (forall x, emits P (handler x)) ->
  emits P (try_except m matching handler).
Proof.
  intros Hm Hh w r w' H. unfold try_except in H.
  destruct (m w) as [[[a | x] w1] |] eqn:E; [| | discriminate].
  - injection H as <- <-. exact (Hm _ _ _ E).
  - destruct (matching x).
    + destruct (Hm _ _ _ E) as (evs1 & Ht1 & H1).
      destruct (Hh x _ _ _ H) as (evs2 & Ht2 & H2).
      exists (evs1 ++ evs2)%list. rewrite Ht2, Ht1, app_assoc.
      split; [reflexivity | apply Forall_app; auto].
    + injection H as <- <-. exact (Hm _ _ _ E).
Qed.

Lemma emits_try_finally {A} P (m : M A) cleanup :
  emits P m -> emits P cleanup -> emits P (try_finally m cleanup).
Proof.
  intros Hm Hc w r w' H. unfold try_finally in H.
  destruct (m w) as [[r1 w1] |] eqn:E; [| discriminate].
  destruct (cleanup w1) as [[[[] | x] w2] |] eqn:Ec; [| | discriminate];
    injection H as <- <-;
    destruct (Hm _ _ _ E) as (evs1 & Ht1 & H1);
    destruct (Hc _ _ _ Ec) as (evs2 & Ht2 & H2);
    exists (evs1 ++ evs2)%list; rewrite Ht2, Ht1, app_assoc;
    (split; [reflexivity | apply Forall_app; auto]).
Qed.

Lemma emits_external (P : event -> Prop) e ev :
  P ev -> emits P (external e ev).
Proof.
  intros HP. unfold external.
  apply emits_bind; [apply emits_emit, HP | intros _].
  apply emits_bind; [apply emits_now | intros t].
  destruct (raises e ev t); [apply emits_throw | apply emits_ret].
Qed.

Lemma emits_time_sleep (P : event -> Prop) n why :
  P (sleep n why) -> emits P (time_sleep n why).
Proof.
  intros HP. unfold time_sleep.
  apply emits_bind; [apply emits_emit, HP | intros _; apply emits_advance].
Qed.

Ltac emits_step :=
  lazymatch goal with
  | |- emits _ (bind (lift _) _) => apply emits_bind_lift; intros ? ?
  | |- emits _ (bind _ _) => apply emits_bind; [| intros ?]
  | |- emits _ (ret _) => apply emits_ret
  | |- emits _ (throw _) => apply emits_throw
  | |- emits _ (lift _) => apply emits_lift
  | |- emits _ (emit _) => apply emits_emit
  | |- emits _ now => apply emits_now
  | |- emits _ (advance _) => apply emits_advance
  | |- emits _ get_process => apply emits_get_process
  | |- emits _ (set_process _) => apply emits_set_process
  | |- emits _ get_log_file => apply emits_get_log_file
  | |- emits _ (set_log_file _) => apply emits_set_log_file
  | |- emits _ (external _ _) => apply emits_external
  | |- emits _ (time_sleep _ _) => apply emits_time_sleep
  | |- emits _ (try_except _ _ _) => apply emits_try_except; [| intros ?]
  | |- emits _ (try_finally _ _) => apply emits_try_finally
  | |- emits _ (if ?b then _ else _) => destruct b
  | |- emits _ (match ?x with _ => _ end) => destruct x
  end.

Lemma emits_poll (P : event -> Prop) : emits P poll.
Proof. unfold poll. repeat emits_step. Qed.

Lemma emits_wait (P : event -> Prop) timeout :
  P (process_wait timeout) -> emits P (wait timeout).
Proof. intros HP. unfold wait. repeat emits_step. exact HP. Qed.

Lemma emits_terminate (P : event -> Prop) :
  P process_terminate -> emits P terminate.
Proof. intros HP. unfold terminate. repeat emits_step. exact HP. Qed.

Lemma emits_kill (P : event -> Prop) : P process_kill -> emits P kill.
Proof. intros HP. unfold kill. repeat emits_step. exact HP. Qed.

(** The calls a run makes on the child process and the clock, and what it
    logs: they carry no run id. *)
Definition housekeeping (ev : event) : Prop :=
  match ev with
  | process_wait _ | process_terminate | process_kill
  | sleep _ _ | log_exited_immediately _ | log_failed_to_start _
  | log_did_not_terminate | log_force_stopping | log_safety_timeout
  | log_no_locust_metrics | log_benchmark_failed _ | log_test_failed _ => True
  | _ => False
  end.

Lemma emits_stop_locust_calls (P : event -> Prop) :
  P log_force_stopping -> P process_terminate -> P (process_wait 10) ->
  P process_kill -> emits P stop_locust.
Proof.
  intros H1 H2 H3 H4. unfold stop_locust.
  repeat first [ emits_step
               | apply emits_terminate | apply emits_wait | apply emits_kill ];
    assumption.
Qed.

Lemma emits_stop_locust (P : event -> Prop) :
  (forall ev, housekeeping ev -> P ev) -> emits P stop_locust.
Proof.
  intros HP. apply emits_stop_locust_calls; apply HP; exact I.
Qed.

Lemma emits_wait_for_locust_completion (P : event -> Prop) timeout :
  (forall ev, housekeeping ev -> P ev) ->
  emits P (wait_for_locust_completion timeout).
Proof.
  intros HP. unfold wait_for_locust_completion, close_log_file.
  repeat first [ emits_step | apply emits_wait ]; apply HP; exact I.
Qed.

Lemma emits_keep_alive_loop (P : event -> Prop) e start d fuel :
  P keep_alive ->
  (forall ev, housekeeping ev -> P ev) ->
  emits P (keep_alive_loop fuel e start d).
Proof.
  intros Hk HP. induction fuel as [| fuel IH]; cbn [keep_alive_loop].
  - intros w r w' H. discriminate.
  - repeat first [ exact IH | emits_step | apply emits_poll ];
      first [ exact Hk | apply HP; exact I ].
Qed.

(** A block that ends, ends with calls that satisfy what it can emit. *)
Lemma wp_emits {A} (P : event -> Prop) (m : M A)
    (Q : outcome A -> world -> Prop) w :
  emits P m ->
  wp m (fun _ _ => True) w ->
  (forall r w' evs, since w w' evs -> Forall P evs -> Q r w') ->
  wp m Q w.
Proof.
  intros He (r & w' & Hm & _) HQ. exists r, w'. split; [exact Hm |].
  destruct (He _ _ _ Hm) as (evs & Ht & Hall). eapply HQ; eassumption.
Qed.

Section Methods.
Context {parsers : LocustCollector.StrParsers}.
Variable self : runner.

Lemma start_locust_wp e run_id u sr d w :
  wp (start_locust self e run_id u sr d)
     (fun r w' =>
        exists b evs,
          r = Ret b /\
          trace w' = (trace w ++ evs)%list /\
          (b = true <-> existsb is_start_error evs = false) /\
          match b with
          | true =>
              (forall l, lifetime e = Some l -> 3 < l) /\
              clock w' = clock w + 3 /\
              locust_log_file w' = true /\
              locust_process w' = Some (launched e (clock w)) /\
              exists cmd,
                evs = [open_log (path_join (output_dir self)
                                   (run_id ++ ".locust.log"));
                       popen cmd; sleep 3 Grace]
          | false =>
              (exists x, In (log_failed_to_start x) evs /\
                 clock w' = clock w /\
                 locust_process w' = locust_process w) \/
              (exists l, lifetime e = Some l /\ l <= 3 /\
                 In (log_exited_immediately (exit_code e)) evs /\
                 locust_log_file w' = true /\
                 exists p, locust_process w' = Some p /\
                           returncode p = Some (exit_code e))
          end) w.
Proof.
  unfold start_locust. cbv zeta.
  wp_step. wp_step. wp_step.
  destruct (raises e (open_log _) (clock w)) as [x |].
  { cbn [any_exception]. wp_steps. exists false. eexists.
    split; [reflexivity |]. split; [rewrite <- app_assoc; reflexivity |].
    split; [cbn; split; discriminate |].
    left. exists x. cbn. auto. }
  wp_steps.
  destruct (raises e (popen _) (clock w)) as [x |].
  { cbn [any_exception]. wp_steps. exists false. eexists.
    split; [reflexivity |]. split; [rewrite <- !app_assoc; reflexivity |].
    split; [cbn; split; discriminate |].
    left. exists x. cbn. auto. }
  wp_steps.
  destruct (returncode (polled (launched e (clock w)) (clock w + 3)))
    as [c |] eqn:Hrc.
  - wp_steps. exists false. eexists.
    split; [reflexivity |]. split; [rewrite <- !app_assoc; reflexivity |].
    split; [cbn; split; discriminate |].
    right. pose proof Hrc as Hrc'.
    apply polled_returncode_some in Hrc; [| apply launched_sound].
    destruct Hrc as (-> & Hg). unfold gone, launched in Hg.
    cbn [exits_at] in Hg.
    destruct (lifetime e) as [l |]; [| discriminate].
    exists l. split; [reflexivity |].
    cbn [option_map] in Hg. apply Z.leb_le in Hg. split; [lia |].
    cbn [code launched] in *. split; [cbn; auto |]. split; [reflexivity |].
    eexists. split; [reflexivity | exact Hrc'].
  - wp_steps. exists true. eexists.
    split; [reflexivity |]. split; [rewrite <- !app_assoc; reflexivity |].
    split; [cbn; split; reflexivity |].
    assert (Hp : polled (launched e (clock w)) (clock w + 3)
                 = launched e (clock w)).
    { unfold polled in *. cbn [returncode launched] in *.
      destruct (gone _ _); [discriminate | reflexivity]. }
    split.
    + intros l Hl. unfold polled in Hrc. cbn [returncode launched] in Hrc.
      destruct (gone _ _) eqn:G; [discriminate |].
      unfold gone, launched in G. cbn [exits_at] in G. rewrite Hl in G.
      cbn [option_map] in G. apply Z.leb_gt in G. lia.
    + split; [reflexivity |]. split; [reflexivity |].
      split; [rewrite Hp; reflexivity |].
      eexists. reflexivity.
Qed.

(** X12.  [start_locust] never raises.  It returns [True] exactly when it
    logged no error, and then locust was launched at the time of the
    call, is still running three seconds later, and its log file is open;
    it returns [False] when opening the log file or launching the process
    raised, or when locust was gone within the three seconds, in which
    case the handle and the open log file are left as they are. *)
Theorem start_locust_result e run_id u sr d w :
  exists b w' evs,
    start_locust self e run_id u sr d w = Some (Ret b, w') /\
    trace w' = (trace w ++ evs)%list /\
    (b = true <-> existsb is_start_error evs = false) /\
    match b with
    | true =>
        (forall l, lifetime e = Some l -> 3 < l) /\
        clock w' = clock w + 3 /\
        locust_log_file w' = true /\
        locust_process w' = Some (launched e (clock w)) /\
        exists cmd,
          evs = [open_log (path_join (output_dir self)
                             (run_id ++ ".locust.log"));
                 popen cmd; sleep 3 Grace]
    | false =>
        (exists x, In (log_failed_to_start x) evs /\
           clock w' = clock w /\
           locust_process w' = locust_process w) \/
        (exists l, lifetime e = Some l /\ l <= 3 /\
           In (log_exited_immediately (exit_code e)) evs /\
           locust_log_file w' = true /\
           exists p, locust_process w' = Some p /\
                     returncode p = Some (exit_code e))
    end.
Proof.
  destruct (start_locust_wp e run_id u sr d w)
    as (r & w' & Hrun & b & evs & -> & H).
  exists b, w', evs. split; [exact Hrun | exact H].
Qed.

Lemma wait_for_locust_completion_wp timeout w :
  0 <= timeout ->
  (forall p, locust_process w = Some p -> sound p (clock w)) ->
  wp (wait_for_locust_completion timeout)
     (fun r w' =>
        exists b,
          r = Ret b /\
          match locust_process w with
          | None => b = false /\ w' = w
          | Some p =>
              (b = true <->
               code p = 0 /\ gone p (clock w + timeout) = true) /\
              locust_log_file w' = false /\
              locust_process w' = Some (polled p (clock w + timeout)) /\
              clock w <= clock w' <= clock w + timeout /\
              trace w' =
                (trace w ++ process_wait timeout ::
                   (if gone p (clock w + timeout) then []
                    else [log_did_not_terminate]))%list
          end) w.
Proof.
  intros Ht Hs. unfold wait_for_locust_completion.
  wp_step. wp_step.
  destruct (locust_process w) as [p |] eqn:Hp.
  2:{ wp_step. exists false. auto. }
  specialize (Hs p eq_refl).
  assert (Hclose : forall b w1,
    ((b = true <-> code p = 0 /\ gone p (clock w + timeout) = true) /\
     locust_process w1 = Some (polled p (clock w + timeout)) /\
     clock w <= clock w1 <= clock w + timeout /\
     trace w1 =
       (trace w ++ process_wait timeout ::
          (if gone p (clock w + timeout) then []
           else [log_did_not_terminate]))%list) ->
    wp close_log_file
       (fun rc w'' =>
          match rc with
          | Ret _ =>
              exists b0, Ret b = Ret b0 /\
                (b0 = true <->
                 code p = 0 /\ gone p (clock w + timeout) = true) /\
                locust_log_file w'' = false /\
                locust_process w'' = Some (polled p (clock w + timeout)) /\
                clock w <= clock w'' <= clock w + timeout /\
                trace w'' =
                  (trace w ++ process_wait timeout ::
                     (if gone p (clock w + timeout) then []
                      else [log_did_not_terminate]))%list
          | Raise x =>
              exists b0, @Raise bool x = Ret b0 /\
                (b0 = true <->
                 code p = 0 /\ gone p (clock w + timeout) = true) /\
                locust_log_file w'' = false /\
                locust_process w'' = Some (polled p (clock w + timeout)) /\
                clock w <= clock w'' <= clock w + timeout /\
                trace w'' =
                  (trace w ++ process_wait timeout ::
                     (if gone p (clock w + timeout) then []
                      else [log_did_not_terminate]))%list
          end) w1).
  { intros b w1 (Hb & Hp1 & Hc1 & Ht1). unfold close_log_file.
    wp_step. wp_step. destruct (locust_log_file w1) eqn:Hl; wp_step.
    - exists b. split; [reflexivity |]. split; [exact Hb |].
      split; [reflexivity |]. split; [exact Hp1 |].
      split; [exact Hc1 | exact Ht1].
    - exists b. split; [reflexivity |]. split; [exact Hb |].
      split; [exact Hl |]. split; [exact Hp1 |].
      split; [exact Hc1 | exact Ht1]. }
  wp_step. wp_step. wp_step. wp_step. rewrite Hp.
  destruct (gone p (clock w + timeout)) eqn:Hg.
  - wp_steps. apply Hclose.
    cbn [clock trace locust_process holding later recorded].
    pose proof (advance_within p (clock w) timeout Ht Hg) as Hadv.
    split; [| split; [reflexivity | split; [lia | reflexivity]]].
    cbn [option_map].
    destruct (returncode (polled p (clock w + timeout))) as [c |] eqn:Hrc.
    + apply polled_returncode_some in Hrc;
        [| eapply sound_mono; [exact Hs | lia]].
      destruct Hrc as (-> & _).
      destruct (code p); split; intros H; try discriminate; auto;
        destruct H as (H & _); discriminate.
    + exfalso. unfold polled in Hrc. destruct (returncode p) eqn:R.
      * congruence.
      * rewrite Hg in Hrc. discriminate.
  - destruct (returncode p) as [c |] eqn:Hrc.
    + exfalso. unfold sound in Hs. rewrite Hrc in Hs. destruct Hs as (_ & Hg0).
      apply (gone_mono _ _ (clock w + timeout)) in Hg0; [congruence | lia].
    + cbn [timeout_expired]. wp_steps. apply Hclose.
      cbn [clock trace locust_process holding later recorded].
      split; [split; [discriminate | intros (_ & H); discriminate] |].
      split; [| split; [lia | rewrite <- app_assoc; reflexivity]].
      rewrite Hp. f_equal. unfold polled. rewrite Hrc, Hg. reflexivity.
Qed.

(** X13.  [wait_for_locust_completion] never raises.  Without a process
    handle it returns [False] and touches nothing.  With one, it returns
    [True] exactly when the process is gone within the timeout and its
    exit code is zero; either way the log file is closed afterwards, the
    handle is kept, and no more than the timeout has passed. *)
Theorem wait_for_locust_completion_result timeout w :
  0 <= timeout ->
  (forall p, locust_process w = Some p -> sound p (clock w)) ->
  exists b w',
    wait_for_locust_completion timeout w = Some (Ret b, w') /\
    match locust_process w with
    | None => b = false /\ w' = w
    | Some p =>
        (b = true <-> code p = 0 /\ gone p (clock w + timeout) = true) /\
        locust_log_file w' = false /\
        locust_process w' = Some (polled p (clock w + timeout)) /\
        clock w <= clock w' <= clock w + timeout /\
        trace w' =
          (trace w ++ process_wait timeout ::
             (if gone p (clock w + timeout) then []
              else [log_did_not_terminate]))%list
    end.
Proof.
  intros Ht Hs.
  destruct (wait_for_locust_completion_wp timeout w Ht Hs)
    as (r & w' & Hrun & b & -> & H).
  exists b, w'. split; [exact Hrun | exact H].
Qed.

(** ** One run, one id *)

Local Open Scope string_scope.

(** The argument [value] follows the flag [flag] on the command line. *)
Definition follows (flag value : string) (cmd : list string) : Prop :=
  exists before after, cmd = (before ++ flag :: value :: after)%list.

(** The call belongs to the run of [user_count] users for [duration]
    seconds that is called [run_id]. *)
Definition filed_under (e : env) (user_count duration : Z) (run_id : string)
    (ev : event) : Prop :=
  let csv_prefix := path_join (output_dir self) run_id in
  match ev with
  | create_benchmark_run r name st u d host =>
      r = run_id /\ name = app_name self /\ st = stage self /\
      u = user_count /\ d = duration /\ host = target_host self
  | open_log path =>
      path = path_join (output_dir self) (run_id ++ ".locust.log")
  | popen cmd =>
      hd_error cmd = Some "locust" /\
      follows "-f" (locust_file self) cmd /\
      follows "--host" (target_host self) cmd /\
      follows "--users" (str user_count) cmd /\
      follows "--spawn-rate" "5" cmd /\
      follows "--run-time" (str duration ++ "s") cmd /\
      follows "--csv" csv_prefix cmd
  | extract_metrics prefix => prefix = csv_prefix
  | insert_locust_metrics r metrics =>
      r = run_id /\ metrics <> [] /\
      LocustCollector.extract_metrics (files e) csv_prefix = Ret metrics
  | insert_collector_metrics r metrics =>
      r = run_id /\ metrics <> [] /\
      CollectorClient.aggregate_metrics (published e) = Ret (Some metrics)
  | create_run_summary r => r = run_id
  | _ => True
  end.

Lemma housekeeping_filed e u d rid ev :
  housekeeping ev -> filed_under e u d rid ev.
Proof. destruct ev; cbn; try contradiction; auto. Qed.

Lemma follows_here (before : list string) (flag value : string)
    (after : list string) :
  follows flag value (before ++ flag :: value :: after)%list.
Proof. exists before, after. reflexivity. Qed.

Lemma emits_start_locust e u d rid :
  emits (filed_under e u d rid) (start_locust self e rid u 5 d).
Proof.
  unfold start_locust. cbv zeta.
  repeat first [ emits_step | apply emits_poll ];
    try (apply housekeeping_filed; exact I).
  - reflexivity.
  - cbn [filed_under]. split; [reflexivity |].
    split; [apply (follows_here ["locust"]) |].
    split; [apply (follows_here ["locust"; "-f"; _]) |].
    split; [apply (follows_here ["locust"; "-f"; _; "--host"; _]) |].
    split; [apply (follows_here
                     ["locust"; "-f"; _; "--host"; _; "--users"; _]) |].
    split; [apply (follows_here
                     ["locust"; "-f"; _; "--host"; _; "--users"; _;
                      "--spawn-rate"; _]) |].
    apply (follows_here
             ["locust"; "-f"; _; "--host"; _; "--users"; _;
              "--spawn-rate"; _; "--run-time"; _; "--headless"]).
Qed.

Lemma emits_collecting e u d c rid :
  emits (filed_under e u d rid)
        (collecting self e rid (path_join (output_dir self) rid) u d c).
Proof.
  unfold collecting.
  repeat first [ emits_step
               | apply emits_start_locust
               | apply emits_keep_alive_loop
               | apply emits_wait_for_locust_completion
               | apply emits_stop_locust ];
    try (apply housekeeping_filed; exact I);
    try (intros ? ?; apply housekeeping_filed; assumption);
    try exact I; try reflexivity.
  all: cbn [filed_under]; repeat split; try assumption; try discriminate.
Qed.

Lemma emits_run_single_test e u d c :
  emits (filed_under e u d (generate_run_id self e u))
        (run_single_test self e u d c).
Proof.
  unfold run_single_test. cbv zeta.
  repeat first [ emits_step
               | apply emits_collecting
               | apply emits_stop_locust ];
    try (apply housekeeping_filed; exact I);
    try (intros ? ?; apply housekeeping_filed; assumption);
    try exact I.
  cbn [filed_under]. repeat split.
Qed.

(** X14.  Everything a run files, it files under its own id: the row of
    [create_benchmark_run] carries the runner's app, stage and target and
    the user count and duration locust is launched with; locust writes
    its CSV where [extract_metrics] then reads; what is inserted is what
    was read there, or what [aggregate_metrics] returned, under the same
    id, and is never empty. *)
Theorem run_single_test_files_under_one_id e u d c w :
  exists b w' evs,
    run_single_test self e u d c w = Some (Ret b, w') /\
    trace w' = (trace w ++ evs)%list /\
    Forall (filed_under e u d (generate_run_id self e u)) evs.
Proof.
  destruct (run_single_test_report self e u d c w)
    as (b & w' & _ & Hrun & _).
  destruct (emits_run_single_test e u d c w _ _ Hrun) as (evs & Ht & Hall).
  exists b, w', evs. auto.
Qed.

(** ** The collector is used inside its [with] block only *)

Definition is_collector_call (ev : event) : bool :=
  match ev with
  | collector_enter | collector_exit | start_collecting | stop_collecting
  | keep_alive | get_aggregated_metrics => true
  | _ => false
  end.

(** The methods called on the collector the block is entered with. *)
Definition is_collector_use (ev : event) : bool :=
  match ev with
  | start_collecting | stop_collecting | keep_alive
  | get_aggregated_metrics => true
  | _ => false
  end.

Definition no_bracket (ev : event) : Prop :=
  match ev with
  | collector_enter | collector_exit => False
  | _ => True
  end.

Lemma filter_no_bracket (evs : list event) :
  Forall no_bracket evs ->
  forallb is_collector_use (filter is_collector_call evs) = true.
Proof.
  induction 1 as [| ev evs Hev _ IH]; [reflexivity |].
  cbn [filter]. destruct ev; cbn in *; try contradiction; exact IH.
Qed.

Lemma emits_collecting_no_bracket e rid prefix u d c :
  emits no_bracket (collecting self e rid prefix u d c).
Proof.
  unfold collecting, start_locust. cbv zeta.
  repeat first [ emits_step
               | apply emits_poll
               | apply emits_keep_alive_loop
               | apply emits_wait_for_locust_completion
               | apply emits_stop_locust ];
    try exact I;
    try (intros ev; destruct ev; cbn; try contradiction; auto).
Qed.

(** The three shapes the collector calls of a run can have. *)
Definition bracketed (e : env) (t : Z) (calls : list event) : Prop :=
  calls = [] \/
  (calls = [collector_enter] /\ raises e collector_enter t <> None) \/
  (exists uses,
     calls = (collector_enter :: uses ++ [collector_exit])%list /\
     forallb is_collector_use uses = true).

Lemma handler_no_collector x w1 :
  wp (emit (log_benchmark_failed x) ;; stop_locust ;; ret false)
     (fun r w' =>
        r = Ret false /\
        exists evs, since w1 w' evs /\ filter is_collector_call evs = []) w1.
Proof.
  wp_step. wp_step. wp_step.
  eapply wp_mono; [| apply stop_locust_wp].
  intros r w2 (-> & _ & _ & _ & Ht). wp_step.
  split; [reflexivity |]. eexists. split.
  - unfold since. rewrite Ht. cbn [trace recorded].
    rewrite <- app_assoc. reflexivity.
  - cbn [locust_process recorded]. destruct (locust_process w1) as [p |];
      [destruct (outlives_sigterm p _) |]; reflexivity.
Qed.

Lemma run_single_test_bracket_wp e u d c w :
  wp (run_single_test self e u d c)
     (fun r w' =>
        exists b evs,
          r = Ret b /\ since w w' evs /\
          bracketed e (clock w) (filter is_collector_call evs) /\
          (b = true ->
           exists uses,
             filter is_collector_call evs =
               (collector_enter :: uses ++ [collector_exit])%list)) w.
Proof.
  unfold run_single_test. cbv zeta.
  wp_step. wp_step. wp_step.
  destruct (raises e (create_benchmark_run _ _ _ _ _ _) (clock w)) as [x |].
  { cbn [any_exception]. eapply wp_mono; [| apply handler_no_collector].
    intros r w' (-> & evs & Hw' & Hn). exists false. eexists.
    split; [reflexivity |]. split.
    - unfold since in *. rewrite Hw'. cbn [trace recorded].
      rewrite <- app_assoc. reflexivity.
    - rewrite filter_app, Hn. cbn. split; [left; reflexivity | discriminate]. }
  wp_step. wp_step.
  destruct (raises e collector_enter (clock w)) as [x |] eqn:Henter.
  { cbn [any_exception]. eapply wp_mono; [| apply handler_no_collector].
    intros r w' (-> & evs & Hw' & Hn). exists false. eexists.
    split; [reflexivity |]. split.
    - unfold since in *. rewrite Hw'. cbn [trace recorded].
      rewrite <- !app_assoc. reflexivity.
    - rewrite !filter_app, Hn. cbn.
      split; [right; left; split; [reflexivity | rewrite Henter; discriminate]
             | discriminate]. }
  wp_step.
  eapply wp_emits;
    [ apply emits_collecting_no_bracket
    | apply collecting_spec; intros; exact I |].
  intros r1 w1 evs1 Hw1 Hbody. apply filter_no_bracket in Hbody.
  cbn [trace recorded] in Hw1. unfold since in Hw1. cbn [trace recorded] in Hw1.
  wp_step.
  assert (Hshape : forall tail,
            filter is_collector_call tail = [] ->
            bracketed e (clock w)
              (filter is_collector_call
                 (([create_benchmark_run (generate_run_id self e u)
                      (app_name self) (stage self) u d (target_host self)]
                   ++ [collector_enter]) ++ evs1 ++ [collector_exit] ++ tail))
            /\
            exists uses,
              filter is_collector_call
                 (([create_benchmark_run (generate_run_id self e u)
                      (app_name self) (stage self) u d (target_host self)]
                   ++ [collector_enter]) ++ evs1 ++ [collector_exit] ++ tail)
              = (collector_enter :: uses ++ [collector_exit])%list).
  { intros tail Htail. rewrite !filter_app, Htail.
    cbn [filter is_collector_call app].
    split; [right; right |]; exists (filter is_collector_call evs1);
      [split; [reflexivity | exact Hbody] | reflexivity]. }
  assert (Hhandler : forall x w2,
            trace w2 = (trace w1 ++ [collector_exit])%list ->
            wp (emit (log_benchmark_failed x) ;; stop_locust ;; ret false)
               (fun r w' =>
                  exists b evs,
                    r = Ret b /\ since w w' evs /\
                    bracketed e (clock w) (filter is_collector_call evs) /\
                    (b = true ->
                     exists uses,
                       filter is_collector_call evs =
                         (collector_enter :: uses ++ [collector_exit])%list))
               w2).
  { intros x w2 Hw2. eapply wp_mono; [| apply handler_no_collector].
    intros r w' (-> & evs & Hw' & Hn). exists false. eexists.
    split; [reflexivity |]. split.
    - unfold since in *. rewrite Hw', Hw2, Hw1.
      rewrite <- !app_assoc. reflexivity.
    - destruct (Hshape evs Hn) as (Hs & Hu).
      cbn [app] in *. split; [exact Hs | intros _; exact Hu]. }
  destruct (raises e collector_exit (clock w1)) as [x |].
  { cbn [any_exception]. apply Hhandler. reflexivity. }
  destruct r1 as [b | x]; cbn beta iota.
  - exists b. eexists. split; [reflexivity |]. split.
    + unfold since. cbn [trace recorded]. rewrite Hw1.
      rewrite <- !app_assoc. reflexivity.
    + destruct (Hshape [] eq_refl) as (Hs & Hu).
      cbn [app] in *. split; [exact Hs | intros _; exact Hu].
  - cbn [any_exception]. apply Hhandler. reflexivity.
Qed.

(** X15.  Every call on the collector lies inside the [with] block: a run
    that could not enter it makes none, or only the failed
    [__enter__]; a run that entered it leaves it through [__exit__]
    exactly once, whether the block returned or raised, and calls nothing
    on the collector afterwards.  A run that returns [True] has been
    through it. *)
Theorem collector_is_closed_on_every_path e u d c w :
  exists b w' evs,
    run_single_test self e u d c w = Some (Ret b, w') /\
    trace w' = (trace w ++ evs)%list /\
    bracketed e (clock w) (filter is_collector_call evs) /\
    (b = true ->
     exists uses,
       filter is_collector_call evs =
         (collector_enter :: uses ++ [collector_exit])%list).
Proof.
  destruct (run_single_test_bracket_wp e u d c w)
    as (r & w' & Hrun & b & evs & -> & Hw' & H).
  exists b, w', evs. split; [exact Hrun |]. split; [exact Hw' | exact H].
Qed.

(** ** The summary comes last *)

(** However [m] ends, its calls fall into two parts, the first within
    [P1] and the second within [P2]. *)
Definition ends_with {A} (P1 P2 : event -> Prop) (m : M A) : Prop :=
  forall w r w', m w = Some (r, w') ->
    exists evs1 evs2,
      trace w' = (trace w ++ evs1 ++ evs2)%list /\
      Forall P1 evs1 /\ Forall P2 evs2.

Lemma ends_with_first {A} P1 P2 (m : M A) : emits P1 m -> ends_with P1 P2 m.
Proof.
  intros Hm w r w' H. destruct (Hm _ _ _ H) as (evs & Ht & Hall).
  exists evs, []. rewrite app_nil_r. auto.
Qed.

Lemma ends_with_second {A} P1 P2 (m : M A) : emits P2 m -> ends_with P1 P2 m.
Proof.
  intros Hm w r w' H. destruct (Hm _ _ _ H) as (evs & Ht & Hall).
  exists [], evs. auto.
Qed.

Lemma ends_with_bind_first {A B} P1 P2 (m : M A) (k : A -> M B) :
  emits P1 m -> (forall a, ends_with P1 P2 (k a)) ->
  ends_with P1 P2 (bind m k).
Proof.
  intros Hm Hk w r w' H. unfold bind in H.
  destruct (m w) as [[[a | x] w1] |] eqn:E; [| | discriminate].
  - destruct (Hm _ _ _ E) as (evs & Ht & Hall).
    destruct (Hk a _ _ _ H) as (evs1 & evs2 & Ht' & H1 & H2).
    exists (evs ++ evs1)%list, evs2. rewrite Ht', Ht, <- !app_assoc.
    split; [reflexivity |]. split; [apply Forall_app; auto | exact H2].
  - injection H as <- <-. destruct (Hm _ _ _ E) as (evs & Ht & Hall).
    exists evs, []. rewrite app_nil_r. auto.
Qed.

Lemma ends_with_try_except {A} P1 P2 (m : M A) matching handler :
  ends_with P1 P2 m -> (forall x, emits P2 (handler x)) ->
  ends_with P1 P2 (try_except m matching handler).
Proof.
  intros Hm Hh w r w' H. unfold try_except in H.
  destruct (m w) as [[[a | x] w1] |] eqn:E; [| | discriminate].
  - injection H as <- <-. exact (Hm _ _ _ E).
  - destruct (matching x).
    + destruct (Hm _ _ _ E) as (evs1 & evs2 & Ht & H1 & H2).
      destruct (Hh x _ _ _ H) as (evs & Ht' & Hall).
      exists evs1, (evs2 ++ evs)%list. rewrite Ht', Ht, <- !app_assoc.
      split; [reflexivity |]. split; [exact H1 | apply Forall_app; auto].
    + injection H as <- <-. exact (Hm _ _ _ E).
Qed.

Lemma ends_with_try_finally {A} P1 P2 (m : M A) cleanup :
  ends_with P1 P2 m -> emits P2 cleanup ->
  ends_with P1 P2 (try_finally m cleanup).
Proof.
  intros Hm Hc w r w' H. unfold try_finally in H.
  destruct (m w) as [[r1 w1] |] eqn:E; [| discriminate].
  destruct (cleanup w1) as [[[[] | x] w2] |] eqn:Ec; [| | discriminate];
    injection H as <- <-;
    destruct (Hm _ _ _ E) as (evs1 & evs2 & Ht & H1 & H2);
    destruct (Hc _ _ _ Ec) as (evs & Ht' & Hall);
    exists evs1, (evs2 ++ evs)%list; rewrite Ht', Ht, <- !app_assoc;
    (split; [reflexivity |]; split; [exact H1 | apply Forall_app; auto]).
Qed.

(** A call made before the summary of the run is asked for. *)
Definition before_summary (ev : event) : Prop :=
  match ev with create_run_summary _ => False | _ => True end.

(** The request for the summary and the calls that can follow it: the
    cooldown, leaving the collector and, when one of them raises, the
    calls of the [except] block. *)
Definition from_summary (ev : event) : Prop :=
  match ev with
  | create_run_summary _ | sleep _ Cooldown | collector_exit
  | log_benchmark_failed _ | log_force_stopping | process_terminate
  | process_wait _ | process_kill => True
  | _ => False
  end.

Lemma housekeeping_before ev : housekeeping ev -> before_summary ev.
Proof. destruct ev; cbn; auto. Qed.

Lemma ends_with_collecting e rid prefix u d c :
  ends_with before_summary from_summary
            (collecting self e rid prefix u d c).
Proof.
  unfold collecting.
  apply ends_with_bind_first;
    [apply emits_external; exact I | intros _].
  apply ends_with_bind_first;
    [apply emits_time_sleep; exact I | intros _].
  apply ends_with_bind_first.
  { unfold start_locust. cbv zeta.
    repeat first [ emits_step | apply emits_poll ]; exact I. }
  intros started. destruct (negb started);
    [apply ends_with_first, emits_ret |].
  apply ends_with_bind_first; [apply emits_now | intros start].
  apply ends_with_bind_first;
    [apply emits_keep_alive_loop;
       [exact I | apply housekeeping_before] | intros _].
  apply ends_with_bind_first;
    [apply emits_wait_for_locust_completion, housekeeping_before
    | intros clean].
  destruct (negb clean).
  { apply ends_with_first.
    apply emits_bind;
      [apply emits_stop_locust, housekeeping_before
      | intros _; apply emits_ret]. }
  apply ends_with_bind_first;
    [apply emits_external; exact I | intros _].
  apply ends_with_bind_first;
    [apply emits_time_sleep; exact I | intros _].
  apply ends_with_bind_first;
    [apply emits_emit; exact I | intros _].
  apply ends_with_bind_first; [apply emits_lift | intros locust_metrics].
  apply ends_with_bind_first.
  { destruct locust_metrics;
      [apply emits_emit | apply emits_external]; exact I. }
  intros _.
  apply ends_with_bind_first;
    [apply emits_emit; exact I | intros _].
  apply ends_with_bind_first; [apply emits_lift | intros db_metrics].
  apply ends_with_bind_first.
  { destruct db_metrics as [[| kv rest] |];
      first [apply emits_ret | apply emits_external; exact I]. }
  intros _.
  apply ends_with_second.
  apply emits_bind; [apply emits_external; exact I | intros _].
  apply emits_bind; [| intros _; apply emits_ret].
  destruct (c >? 0)%Z; [apply emits_time_sleep; exact I | apply emits_ret].
Qed.

Lemma ends_with_run_single_test e u d c :
  ends_with before_summary from_summary (run_single_test self e u d c).
Proof.
  unfold run_single_test. cbv zeta.
  apply ends_with_try_except.
  - apply ends_with_bind_first;
      [apply emits_external; exact I | intros _].
    apply ends_with_bind_first;
      [apply emits_external; exact I | intros _].
    apply ends_with_try_finally;
      [apply ends_with_collecting | apply emits_external; exact I].
  - intros x.
    apply emits_bind; [apply emits_emit; exact I | intros _].
    apply emits_bind; [| intros _; apply emits_ret].
    apply emits_stop_locust_calls; exact I.
Qed.

(** X16.  The summary of a run is asked for after everything the run
    inserts: the calls of a run fall into those before
    [create_run_summary], and, from it on, nothing but the cooldown,
    leaving the collector and, if one of these raises, the calls of
    the [except] block. *)
Theorem summary_follows_the_inserts e u d c w :
  exists b w' before after,
    run_single_test self e u d c w = Some (Ret b, w') /\
    trace w' = (trace w ++ before ++ after)%list /\
    Forall before_summary before /\
    Forall from_summary after.
Proof.
  destruct (run_single_test_report self e u d c w)
    as (b & w' & _ & Hrun & _).
  destruct (ends_with_run_single_test e u d c w _ _ Hrun)
    as (evs1 & evs2 & Ht & H1 & H2).
  exists b, w', evs1, evs2. auto.
Qed.

End Methods.

(** ** A run in which nothing outside raises *)

Definition is_db_call (ev : event) : bool :=
  match ev with
  | create_benchmark_run _ _ _ _ _ _ | insert_locust_metrics _ _
  | insert_collector_metrics _ _ | create_run_summary _ => true
  | _ => false
  end.

Lemma db_calls_notable (ev : event) : is_db_call ev = true -> notable ev = true.
Proof. destruct ev; try discriminate; reflexivity. Qed.

Lemma filter_db_quiet (evs : list event) :
  filter notable evs = [] -> filter is_db_call evs = [].
Proof.
  intros H. rewrite <- (filter_notable is_db_call evs db_calls_notable), H.
  reflexivity.
Qed.

Lemma wp_conj {A} (m : M A) (Q1 Q2 : outcome A -> world -> Prop) w :
  wp m Q1 w -> wp m Q2 w -> wp m (fun r w' => Q1 r w' /\ Q2 r w') w.
Proof.
  intros (r & w1 & H1 & HQ1) (r' & w2 & H2 & HQ2).
  rewrite H1 in H2. injection H2 as <- <-. exists r, w1. auto.
Qed.

Section Clean.
Context {parsers : LocustCollector.StrParsers}.
Variable self : runner.
Variable e : env.
Variable u d c l : Z.

Hypothesis quiet : forall ev t, raises e ev t = None.
Hypothesis zero : exit_code e = 0.
Hypothesis life : lifetime e = Some l.
Hypothesis in_time : 3 < l <= 3 + Z.max 1 (d + 61) + 30.

Let run_id := generate_run_id self e u.
Let csv_prefix := path_join (output_dir self) run_id.

Definition locust_insert (rid : string) (ms : list LocustCollector.metric)
  : list event :=
  match ms with
  | [] => []
  | _ :: _ => [insert_locust_metrics rid ms]
  end.

Definition collector_insert (rid : string) (agg : option dict) : list event :=
  match agg with
  | Some (kv :: rest) => [insert_collector_metrics rid (kv :: rest)]
  | _ => []
  end.

(** What the block under [with] does to the database, and how it ends,
    when locust has exited cleanly. *)
Definition block_calls : list event :=
  match LocustCollector.extract_metrics (files e) csv_prefix with
  | Raise _ => []
  | Ret ms =>
      (locust_insert run_id ms ++
       match CollectorClient.aggregate_metrics (published e) with
       | Raise _ => []
       | Ret agg => collector_insert run_id agg ++ [create_run_summary run_id]
       end)%list
  end.

Definition block_result : outcome bool :=
  match LocustCollector.extract_metrics (files e) csv_prefix with
  | Raise x => Raise x
  | Ret _ =>
      match CollectorClient.aggregate_metrics (published e) with
      | Raise x => Raise x
      | Ret _ => Ret true
      end
  end.

Lemma launched_alive t :
  polled (launched e t) (t + 3) = launched e t.
Proof.
  unfold polled, gone, launched. cbn [returncode exits_at].
  rewrite life. cbn [option_map].
  replace (t + l <=? t + 3)%Z with false; [reflexivity |].
  symmetry. apply Z.leb_gt. lia.
Qed.

Lemma keep_alive_loop_clean w1 p :
  locust_process w1 = Some p ->
  sound p (clock w1) ->
  wp (keep_alive_loop (loop_fuel d) e (clock w1) d)
     (fun r w2 =>
        r = Ret tt /\
        exists evs p2,
          since w1 w2 evs /\ filter notable evs = [] /\
          locust_process w2 = Some p2 /\
          exits_at p2 = exits_at p /\ code p2 = code p /\
          sound p2 (clock w2) /\
          ((exists rc, returncode p2 = Some rc) \/
           clock w1 + Z.max 1 (d + 61) <= clock w2)) w1.
Proof.
  intros Hp Hs.
  eapply wp_mono; [| apply wp_conj;
    [ apply (keep_alive_loop_spec e (clock w1) d (loop_fuel d) w1 p
               (fun r w2 =>
                  exists evs p2,
                    since w1 w2 evs /\ filter notable evs = [] /\
                    locust_process w2 = Some p2 /\
                    exits_at p2 = exits_at p /\ code p2 = code p /\
                    sound p2 (clock w2)) Hp Hs);
        [ lia | unfold loop_fuel; lia | unfold loop_fuel; lia |]
    | apply (keep_alive_loop_bound e (clock w1) d (loop_fuel d) w1 p Hp);
        [ lia | unfold loop_fuel; lia | unfold loop_fuel; lia ] ] ].
  - cbn beta. intros r w2 ((evs & p2 & Hw2 & Hn & Hp2 & Hx & Hc & Hs2)
                           & evs' & _ & _ & _ & Hend).
    destruct r as [[] | x]; cbn [loop_ended] in Hend.
    + split; [reflexivity |]. exists evs, p2.
      repeat (split; [assumption |]).
      destruct Hend as [(p' & rc & Hp' & Hrc) | (Hlate & Hlt & _)].
      * left. exists rc. congruence.
      * right. lia.
    + exfalso. destruct Hend as (t & _ & Hr). rewrite quiet in Hr.
      discriminate.
  - intros r w2 evs p2 Hw2 Hn Hp2 Hx Hc Hs2 _ _. eauto 10.
Qed.

Lemma collecting_clean w :
  wp (collecting self e run_id csv_prefix u d c)
     (fun r w' =>
        r = block_result /\
        locust_log_file w' = false /\
        exists evs, since w w' evs /\ filter is_db_call evs = block_calls) w.
Proof.
  unfold collecting.
  wp_step. wp_step. rewrite quiet.
  wp_step. wp_step. wp_step.
  unfold start_locust. cbv zeta.
  wp_step. wp_step. wp_step. rewrite quiet.
  wp_steps. rewrite quiet. wp_steps.
  rewrite launched_alive. cbn [returncode launched].
  wp_steps. cbn [negb]. wp_steps.
  set (T := clock w + 2).
  match goal with |- wp _ _ ?w0 => remember w0 as w1 eqn:Ew1 end.
  assert (Hp1 : locust_process w1 = Some (launched e T))
    by (subst w1; reflexivity).
  assert (Hc1 : clock w1 = T + 3) by (subst w1; reflexivity).
  assert (Ht1 : exists evs1, since w w1 evs1 /\ filter is_db_call evs1 = []).
  { subst w1. eexists. split; [since_tac | reflexivity]. }
  clear Ew1. destruct Ht1 as (evs1 & Hw1 & Hn1).
  rewrite <- Hc1.
  eapply wp_mono; [| apply (keep_alive_loop_clean w1 _ Hp1 I)].
  cbn beta.
  intros r w2 (-> & evs2 & p2 & Hw2 & Hn2 & Hp2 & Hx2 & Hcode2 & Hs2 & Hend).
  apply filter_db_quiet in Hn2.
  wp_step.
  eapply wp_mono;
    [| apply (wait_for_locust_completion_wp 30 w2);
       [lia | intros p Hp; rewrite Hp2 in Hp; injection Hp as <-; exact Hs2]].
  cbn beta. intros r w3 (b & -> & H3). rewrite Hp2 in H3.
  destruct H3 as (Hb & Hlog3 & Hp3 & Hclk3 & Ht3).
  assert (Hgone : gone p2 (clock w2 + 30) = true).
  { destruct Hend as [(rc & Hrc) | Hlate].
    - unfold sound in Hs2. rewrite Hrc in Hs2. destruct Hs2 as (_ & Hg).
      eapply gone_mono; [exact Hg | lia].
    - unfold gone. rewrite Hx2. cbn [exits_at launched]. rewrite life.
      cbn [option_map]. apply Z.leb_le. lia. }
  assert (Htrue : b = true).
  { apply Hb. split; [| exact Hgone].
    rewrite Hcode2. cbn [code launched]. exact zero. }
  subst b. cbn [negb]. rewrite Hgone in Ht3.
  assert (H3 : exists evs3,
             since w w3 evs3 /\ filter is_db_call evs3 = []).
  { exists (evs1 ++ evs2 ++ [process_wait 30])%list. split.
    - unfold since in *. rewrite Ht3, Hw2, Hw1, <- !app_assoc. reflexivity.
    - rewrite !filter_app, Hn1, Hn2. reflexivity. }
  destruct H3 as (evs3 & Hw3 & Hn3).
  clear Hw1 Hn1 Hw2 Hn2 Ht3 Hb Hend Hs2 Hx2 Hcode2 Hp1 Hc1 Hgone.
  unfold block_result, block_calls.
  wp_step. wp_step. rewrite quiet.
  wp_step. wp_step. wp_step. wp_step. wp_step. wp_step.
  destruct (LocustCollector.extract_metrics (files e) csv_prefix)
    as [ms | x].
  2:{ split; [reflexivity |]. split; [exact Hlog3 |].
      eexists. split; [since_tac |].
      rewrite !filter_app, Hn3. reflexivity. }
  wp_step.
  assert (Hins : forall Q w4,
    (forall w5, locust_log_file w5 = locust_log_file w4 ->
                clock w5 = clock w4 ->
                (exists evs, since w4 w5 evs /\
                   filter is_db_call evs = locust_insert run_id ms) ->
                Q (Ret tt) w5) ->
    wp (match ms with
        | [] => emit log_no_locust_metrics
        | _ :: _ => external e (insert_locust_metrics run_id ms)
        end) Q w4).
  { intros Q w4 HQ. destruct ms as [| m ms'].
    - wp_step. apply HQ; [reflexivity | reflexivity |].
      eexists. split; [since_tac | reflexivity].
    - wp_step. rewrite quiet. apply HQ; [reflexivity | reflexivity |].
      eexists. split; [since_tac | reflexivity]. }
  apply Hins. intros w5 Hlog5 Hclk5 (evs5 & Hw5 & Hn5). clear Hins.
  cbn [locust_log_file clock recorded later] in Hlog5, Hclk5.
  wp_step. wp_step. wp_step. wp_step.
  destruct (CollectorClient.aggregate_metrics (published e)) as [agg | x].
  2:{ split; [reflexivity |]. split; [cbn; congruence |].
      eexists. split.
      - unfold since in *. cbn [trace recorded later] in *.
        rewrite Hw5. cbn [trace recorded later]. rewrite Hw3.
        rewrite <- !app_assoc. reflexivity.
      - rewrite !filter_app, Hn3, Hn5. cbn. rewrite app_nil_r. reflexivity. }
  wp_step.
  destruct agg as [[| kv rest] |];
    repeat first [ wp_step | rewrite quiet ];
    destruct (c >? 0)%Z;
    repeat first [ wp_step | rewrite quiet ];
    (split; [reflexivity |];
     split; [cbn [locust_log_file recorded later]; congruence |];
     eexists; split;
     [ unfold since in *; cbn [trace recorded later] in *;
       rewrite Hw5; cbn [trace recorded later]; rewrite Hw3;
       rewrite <- !app_assoc; reflexivity
     | rewrite !filter_app, Hn3, Hn5; cbn [filter is_db_call app];
       rewrite ?app_nil_r; reflexivity ]).
Qed.

Definition database_calls : list event :=
  create_benchmark_run run_id (app_name self) (stage self) u d
    (target_host self) :: block_calls.

Definition run_result : bool :=
  match block_result with Ret b => b | Raise _ => false end.

Lemma run_single_test_clean w :
  wp (run_single_test self e u d c)
     (fun r w' =>
        r = Ret run_result /\
        locust_log_file w' = false /\
        exists evs, since w w' evs /\
                    filter is_db_call evs = database_calls) w.
Proof.
  unfold run_single_test. cbv zeta. fold run_id. fold csv_prefix.
  wp_step. wp_step. wp_step. rewrite quiet.
  wp_step. wp_step. rewrite quiet. wp_step.
  eapply wp_mono; [| apply collecting_clean].
  cbn beta. intros r w1 (-> & Hlog1 & evs1 & Hw1 & Hn1).
  wp_step. rewrite quiet.
  unfold run_result, database_calls.
  destruct block_result as [b | x]; cbn beta iota.
  - split; [reflexivity |]. split; [exact Hlog1 |].
    eexists. split; [since_tac |].
    rewrite !filter_app, Hn1. cbn [filter is_db_call app].
    rewrite app_nil_r. reflexivity.
  - cbn [any_exception]. wp_step. wp_step. wp_step.
    eapply wp_mono; [| apply stop_locust_wp].
    cbn beta. intros r w2 (-> & _ & Hlog2 & _ & Ht2). wp_step.
    split; [reflexivity |]. split; [cbn in Hlog2; congruence |].
    eexists. split.
    + unfold since in *. rewrite Ht2. cbn [trace recorded] in *.
      rewrite Hw1. cbn [trace recorded]. rewrite <- !app_assoc. reflexivity.
    + rewrite !filter_app, Hn1.
      cbn [filter is_db_call app locust_process recorded].
      destruct (locust_process w1) as [p |];
        [destruct (outlives_sigterm p _) |];
        cbn [filter is_db_call app]; rewrite ?app_nil_r; reflexivity.
Qed.

End Clean.

(** X17.  When nothing outside the runner raises and locust, launched
    with a lifetime of more than three seconds, exits with code 0 before
    the wait that follows the polling loop gives up, a run makes exactly
    these calls on the database, in this order: [create_benchmark_run];
    [insert_locust_metrics], if the CSV gave any metric;
    [insert_collector_metrics], if the aggregate is not empty;
    [create_run_summary].  It returns [True], with the log file closed.
    If [extract_metrics] or [aggregate_metrics] raises, the run stops
    there instead: it returns [False], what was inserted before stays,
    and no summary is asked for. *)
Theorem clean_run_database_calls
    {parsers : LocustCollector.StrParsers} (self : runner) (e : env)
    (u d c l : Z) (w : world) :
  (forall ev t, raises e ev t = None) ->
  exit_code e = 0 ->
  lifetime e = Some l ->
  3 < l <= 3 + Z.max 1 (d + 61) + 30 ->
  exists w' evs,
    run_single_test self e u d c w = Some (Ret (run_result self e u), w') /\
    trace w' = (trace w ++ evs)%list /\
    filter is_db_call evs = database_calls self e u d /\
    locust_log_file w' = false.
Proof.
  intros Hq Hz Hl Ht.
  destruct (run_single_test_clean self e u d c l Hq Hz Hl Ht w)
    as (r & w' & Hrun & -> & Hlog & evs & Hw' & Hn).
  exists w', evs. auto.
Qed.

Lemma clean_run_database_calls_witness :
  (forall ev t, raises (calm (Some 12) 0) ev t = None) /\
  3 < 12 <= 3 + Z.max 1 (10 + 61) + 30 /\
  @run_result LocustCollector.decimal_parsers bench (calm (Some 12) 0) 50
    = true /\
  length (@database_calls LocustCollector.decimal_parsers bench
            (calm (Some 12) 0) 50 10) = 4%nat /\
  exists w' evs,
    @run_single_test LocustCollector.decimal_parsers bench
       (calm (Some 12) 0) 50 10 30 fresh
      = Some (Ret (@run_result LocustCollector.decimal_parsers bench
                     (calm (Some 12) 0) 50), w') /\
    trace w' = (trace fresh ++ evs)%list /\
    filter is_db_call evs =
      @database_calls LocustCollector.decimal_parsers bench
        (calm (Some 12) 0) 50 10 /\
    locust_log_file w' = false.
Proof.
  split; [reflexivity |]. split; [lia |].
  split; [vm_compute; reflexivity |]. split; [vm_compute; reflexivity |].
  apply (@clean_run_database_calls LocustCollector.decimal_parsers bench
           (calm (Some 12) 0) 50 10 30 12 fresh);
    [reflexivity | reflexivity | reflexivity | lia].
Defined.

(** ** Concrete runs *)

(** Five seconds in, locust is running and will exit with code 0 at
    twenty. *)
Definition running : world :=
  {| clock := 5;
     locust_process :=
       Some {| exits_at := Some 20; code := 0; heeds_sigterm := true;
               returncode := None |};
     locust_log_file := true;
     trace := [] |}.

Lemma wait_for_locust_completion_result_witness :
  (0 <= 30)%Z /\
  (forall p, locust_process running = Some p -> sound p (clock running)) /\
  exists b w',
    wait_for_locust_completion 30 running = Some (Ret b, w') /\
    match locust_process running with
    | None => b = false /\ w' = running
    | Some p =>
        (b = true <->
         code p = 0%Z /\ gone p (clock running + 30) = true) /\
        locust_log_file w' = false /\
        locust_process w' = Some (polled p (clock running + 30)) /\
        (clock running <= clock w' <= clock running + 30)%Z /\
        trace w' =
          (trace running ++ process_wait 30 ::
             (if gone p (clock running + 30) then []
              else [log_did_not_terminate]))%list
    end.
Proof.
  assert (Hs : forall p, locust_process running = Some p ->
                         sound p (clock running))
    by (intros p H; injection H as <-; exact I).
  split; [lia |]. split; [exact Hs |].
  apply (wait_for_locust_completion_result 30 running); [lia | exact Hs].
Defined.

Lemma polling_loop_gives_up_witness :
  exists r w' evs,
    keep_alive_loop (loop_fuel 10) (calm (Some 12) 0) (clock running) 10
      running = Some (r, w') /\
    trace w' = (trace running ++ evs)%list /\
    (turns evs <= Z.max 1 (10 + 61))%Z /\
    (clock running <= clock w' <= clock running + turns evs)%Z /\
    loop_ended (calm (Some 12) 0) (clock running) 10 running r w' evs.
Proof.
  exact (polling_loop_gives_up (calm (Some 12) 0) 10 running _ eq_refl).
Defined.

End RunnerExtras.

(* ================================================================== *)
(** * benchmark_runner.py: the cooldown and the exceptions of a run    *)
(* ================================================================== *)

Module SuiteFacts.
Import Py BenchmarkRunner RunnerFacts RunnerExtras.
Local Open Scope runner_scope.

(** ** Blocks that emit a few calls only *)

Lemma emits_wait_for_locust_completion_calls (P : event -> Prop) timeout :
  P (process_wait timeout) -> P log_did_not_terminate ->
  emits P (wait_for_locust_completion timeout).
Proof.
  intros H1 H2. unfold wait_for_locust_completion, close_log_file.
  repeat first [ emits_step | apply emits_wait ]; assumption.
Qed.

Lemma emits_keep_alive_loop_calls (P : event -> Prop) e start d fuel :
  P keep_alive -> P log_safety_timeout ->
  emits P (keep_alive_loop fuel e start d).
Proof.
  intros H1 H2. induction fuel as [| fuel IH]; cbn [keep_alive_loop].
  - intros w r w' H. discriminate.
  - repeat first [ exact IH | emits_step | apply emits_poll ]; assumption.
Qed.

(** ** Where the cooldown stands in a run *)

Definition no_cooldown (ev : event) : Prop := is_cooldown ev = false.

(** The request for the summary of the run [rid], followed at once by the
    cooldown of [c] seconds, if there is one, and then by calls that are
    no cooldown. *)
Definition summary_tail (c : Z) (rid : string) (after : list event) : Prop :=
  exists rest,
    after = create_run_summary rid :: rest /\
    (Forall no_cooldown rest \/
     (0 < c /\ exists rest',
        rest = sleep c Cooldown :: rest' /\ Forall no_cooldown rest')).

(** However [m] ends, its calls are calls of which none is a cooldown,
    followed by nothing or by a [summary_tail]. *)
Definition cooled {A} (c : Z) (rid : string) (m : M A) : Prop :=
  forall w r w', m w = Some (r, w') ->
    exists before after,
      trace w' = (trace w ++ before ++ after)%list /\
      Forall no_cooldown before /\
      (after = [] \/ summary_tail c rid after).

Lemma summary_tail_app c rid after evs :
  summary_tail c rid after -> Forall no_cooldown evs ->
  summary_tail c rid (after ++ evs).
Proof.
  intros (rest & -> & Hrest) Hevs. exists (rest ++ evs)%list.
  split; [reflexivity |].
  destruct Hrest as [Hrest | (Hc & rest' & -> & Hrest)].
  - left. apply Forall_app. auto.
  - right. split; [exact Hc |]. exists (rest' ++ evs)%list.
    split; [reflexivity | apply Forall_app; auto].
Qed.

(** Calls that are no cooldown, made after a cooled block. *)
Lemma cooled_then c rid (w w1 w' : world) before after evs :
  trace w1 = (trace w ++ before ++ after)%list ->
  Forall no_cooldown before ->
  after = [] \/ summary_tail c rid after ->
  trace w' = (trace w1 ++ evs)%list ->
  Forall no_cooldown evs ->
  exists before' after',
    trace w' = (trace w ++ before' ++ after')%list /\
    Forall no_cooldown before' /\
    (after' = [] \/ summary_tail c rid after').
Proof.
  intros Ht Hb [-> | Ha] Ht' Hevs.
  - exists (before ++ evs)%list, []. rewrite Ht', Ht, !app_nil_r, app_assoc.
    split; [reflexivity |]. split; [apply Forall_app; auto | left; reflexivity].
  - exists before, (after ++ evs)%list. rewrite Ht', Ht, <- !app_assoc.
    split; [reflexivity |]. split; [exact Hb |].
    right. apply summary_tail_app; assumption.
Qed.

Lemma cooled_first {A} c rid (m : M A) : emits no_cooldown m -> cooled c rid m.
Proof.
  intros Hm w r w' H. destruct (Hm _ _ _ H) as (evs & Ht & Hall).
  exists evs, []. rewrite app_nil_r. auto.
Qed.

Lemma cooled_bind_first {A B} c rid (m : M A) (k : A -> M B) :
  emits no_cooldown m -> (forall a, cooled c rid (k a)) ->
  cooled c rid (bind m k).
Proof.
  intros Hm Hk w r w' H. unfold bind in H.
  destruct (m w) as [[[a | x] w1] |] eqn:E; [| | discriminate].
  - destruct (Hm _ _ _ E) as (evs & Ht & Hall).
    destruct (Hk a _ _ _ H) as (before & after & Ht' & Hb & Ha).
    exists (evs ++ before)%list, after. rewrite Ht', Ht, <- !app_assoc.
    split; [reflexivity |]. split; [apply Forall_app; auto | exact Ha].
  - injection H as <- <-. destruct (Hm _ _ _ E) as (evs & Ht & Hall).
    exists evs, []. rewrite app_nil_r. auto.
Qed.

Lemma cooled_try_except {A} c rid (m : M A) matching handler :
  cooled c rid m -> (forall x, emits no_cooldown (handler x)) ->
  cooled c rid (try_except m matching handler).
Proof.
  intros Hm Hh w r w' H. unfold try_except in H.
  destruct (m w) as [[[a | x] w1] |] eqn:E; [| | discriminate].
  - injection H as <- <-. exact (Hm _ _ _ E).
  - destruct (matching x).
    + destruct (Hm _ _ _ E) as (before & after & Ht & Hb & Ha).
      destruct (Hh x _ _ _ H) as (evs & Ht' & Hall).
      eapply cooled_then; eassumption.
    + injection H as <- <-. exact (Hm _ _ _ E).
Qed.

Lemma cooled_try_finally {A} c rid (m : M A) cleanup :
  cooled c rid m -> emits no_cooldown cleanup ->
  cooled c rid (try_finally m cleanup).
Proof.
  intros Hm Hc w r w' H. unfold try_finally in H.
  destruct (m w) as [[r1 w1] |] eqn:E; [| discriminate].
  destruct (cleanup w1) as [[[[] | x] w2] |] eqn:Ec; [| | discriminate];
    injection H as <- <-;
    destruct (Hm _ _ _ E) as (before & after & Ht & Hb & Ha);
    destruct (Hc _ _ _ Ec) as (evs & Ht' & Hall);
    eapply cooled_then; eassumption.
Qed.

(** The last three statements of the [with] block. *)
Lemma cooled_summary e c rid :
  cooled c rid
    (external e (create_run_summary rid) ;;
     (if c >? 0 then time_sleep c Cooldown else ret tt) ;;
     ret true).
Proof.
  intros w r w' H. exists [].
  cbv [bind external time_sleep emit now advance throw ret] in H.
  cbn [clock] in H.
  destruct (raises e (create_run_summary rid) (clock w)).
  - injection H as <- <-. exists [create_run_summary rid].
    split; [reflexivity |]. split; [constructor |].
    right. exists []. split; [reflexivity | left; constructor].
  - destruct (c >? 0) eqn:Hc; injection H as <- <-; cbn [trace].
    + exists [create_run_summary rid; sleep c Cooldown].
      split; [rewrite <- app_assoc; reflexivity |]. split; [constructor |].
      right. exists [sleep c Cooldown]. split; [reflexivity |].
      right. split; [apply Z.gtb_lt, Hc |].
      exists []. split; [reflexivity | constructor].
    + exists [create_run_summary rid].
      split; [reflexivity |]. split; [constructor |].
      right. exists []. split; [reflexivity | left; constructor].
Qed.

(** A cooldown among calls that end in a [summary_tail] is the one of the
    tail. *)
Lemma cooldown_place c rid (before after pre post : list event) (s0 : Z) :
  Forall no_cooldown before ->
  after = [] \/ summary_tail c rid after ->
  (before ++ after = pre ++ sleep s0 Cooldown :: post)%list ->
  s0 = c /\ 0 < c /\
  (exists pre', pre = (pre' ++ [create_run_summary rid])%list) /\
  Forall no_cooldown pre /\ Forall no_cooldown post.
Proof.
  intros Hb Ha. revert pre.
  induction Hb as [| b before Hb0 Hb IH]; intros pre H.
  - cbn [app] in H.
    destruct Ha as [-> | (rest & -> & Hrest)];
      [destruct pre; discriminate |].
    destruct pre as [| p pre]; [discriminate |].
    cbn [app] in H. injection H as <- Hr.
    destruct Hrest as [Hrest | (Hc & rest' & -> & Hrest)].
    + rewrite Hr in Hrest. apply Forall_app in Hrest.
      destruct Hrest as (_ & Hrest). apply Forall_inv in Hrest.
      discriminate Hrest.
    + destruct pre as [| q pre].
      * cbn [app] in Hr. injection Hr as -> ->.
        split; [reflexivity |]. split; [exact Hc |].
        split; [exists []; reflexivity |].
        split; [constructor; [reflexivity | constructor] | exact Hrest].
      * cbn [app] in Hr. injection Hr as _ Hr.
        rewrite Hr in Hrest. apply Forall_app in Hrest.
        destruct Hrest as (_ & Hrest). apply Forall_inv in Hrest.
        discriminate Hrest.
  - destruct pre as [| p pre]; cbn [app] in H.
    + injection H as -> _. discriminate Hb0.
    + injection H as <- H.
      destruct (IH pre H) as (Hs & Hc & (pre' & ->) & Hpre & Hpost).
      split; [exact Hs |]. split; [exact Hc |].
      split; [exists (b :: pre'); reflexivity |].
      split; [constructor; assumption | exact Hpost].
Qed.

Lemma no_cooldown_existsb (evs : list event) :
  Forall no_cooldown evs -> existsb is_cooldown evs = false.
Proof.
  induction 1 as [| ev evs Hev _ IH]; [reflexivity |].
  cbn [existsb]. rewrite Hev, IH. reflexivity.
Qed.

(** ** What the calls of a block that returned are like *)


























Section Methods.
Context {parsers : LocustCollector.StrParsers}.
Variable self : runner.

(** *** The cooldown *)

Lemma cooled_collecting e rid prefix u d c :
  cooled c rid (collecting self e rid prefix u d c).
Proof.
  unfold collecting.
  apply cooled_bind_first;
    [apply emits_external; reflexivity | intros _].
  apply cooled_bind_first;
    [apply emits_time_sleep; reflexivity | intros _].
  apply cooled_bind_first.
  { unfold start_locust. cbv zeta.
    repeat first [ emits_step | apply emits_poll ]; reflexivity. }
  intros started. destruct (negb started);
    [apply cooled_first, emits_ret |].
  apply cooled_bind_first; [apply emits_now | intros start].
  apply cooled_bind_first;
    [apply emits_keep_alive_loop_calls; reflexivity | intros _].
  apply cooled_bind_first;
    [apply emits_wait_for_locust_completion_calls; reflexivity
    | intros clean].
  destruct (negb clean).
  { apply cooled_first.
    apply emits_bind;
      [apply emits_stop_locust_calls; reflexivity
      | intros _; apply emits_ret]. }
  apply cooled_bind_first;
    [apply emits_external; reflexivity | intros _].
  apply cooled_bind_first;
    [apply emits_time_sleep; reflexivity | intros _].
  apply cooled_bind_first;
    [apply emits_emit; reflexivity | intros _].
  apply cooled_bind_first; [apply emits_lift | intros locust_metrics].
  apply cooled_bind_first.
  { destruct locust_metrics;
      [apply emits_emit | apply emits_external]; reflexivity. }
  intros _.
  apply cooled_bind_first;
    [apply emits_emit; reflexivity | intros _].
  apply cooled_bind_first; [apply emits_lift | intros db_metrics].
  apply cooled_bind_first.
  { destruct db_metrics as [[| kv rest] |];
      first [apply emits_ret | apply emits_external; reflexivity]. }
  intros _.
  apply cooled_summary.
Qed.

Lemma cooled_run_single_test e u d c :
  cooled c (generate_run_id self e u) (run_single_test self e u d c).
Proof.
  unfold run_single_test. cbv zeta.
  apply cooled_try_except.
  - apply cooled_bind_first;
      [apply emits_external; reflexivity | intros _].
    apply cooled_bind_first;
      [apply emits_external; reflexivity | intros _].
    apply cooled_try_finally;
      [apply cooled_collecting | apply emits_external; reflexivity].
  - intros x.
    apply emits_bind; [apply emits_emit; reflexivity | intros _].
    apply emits_bind; [| intros _; apply emits_ret].
    apply emits_stop_locust_calls; reflexivity.
Qed.

(** The only cooldown of a run is the one it sleeps right after it has
    asked for its summary. *)
Lemma run_single_test_cooldown e u d c w r w' evs :
  run_single_test self e u d c w = Some (r, w') ->
  trace w' = (trace w ++ evs)%list ->
  forall pre s0 post,
    evs = (pre ++ sleep s0 Cooldown :: post)%list ->
    s0 = c /\ 0 < c /\
    (exists pre',
       pre = (pre' ++ [create_run_summary (generate_run_id self e u)])%list) /\
    existsb is_cooldown pre = false /\ existsb is_cooldown post = false.
Proof.
  intros Hrun Ht pre s0 post Hevs.
  destruct (cooled_run_single_test e u d c w r w' Hrun)
    as (before & after & Ht' & Hb & Ha).
  rewrite Ht in Ht'. apply app_inv_head in Ht'. rewrite Hevs in Ht'.
  destruct (cooldown_place _ _ _ _ _ _ _ Hb Ha (eq_sym Ht'))
    as (Hs & Hc & Hpre & Hn1 & Hn2).
  split; [exact Hs |]. split; [exact Hc |]. split; [exact Hpre |].
  split; apply no_cooldown_existsb; assumption.
Qed.

(** C5, amended.  [run_benchmark_suite] makes one call of
    [run_single_test] per concurrency level and never sleeps itself: all
    it adds to the calls of a test is the error it logs for a test that
    failed.  A test that returns [True] has slept the cooldown, when it is
    positive, before it returned.  A test sleeps a cooldown at one place
    only, right after its call of [create_run_summary], and once: every
    cooldown in the calls of a test lasts [cooldown] seconds, which is
    then positive, the call just before it is the request for the summary
    of that test, and no other cooldown comes before or after it.  A
    test that ends before it has asked for its summary is therefore
    followed by the next one without any cooldown. *)
Theorem cooldown_only_after_the_summary envs user_counts d c w :
  exists b w' segs,
    run_benchmark_suite self envs user_counts d c w = Some (Ret b, w') /\
    trace w' = (trace w ++ concat (map segment_trace segs))%list /\
    map seg_users segs = user_counts /\
    Forall (fun s =>
      run_single_test self (seg_env s) (seg_users s) d c (seg_start s)
        = Some (Ret (seg_passed s), seg_world s) /\
      trace (seg_world s) = (trace (seg_start s) ++ seg_events s)%list /\
      (seg_passed s = true -> 0 < c ->
       existsb (is_cooldown_of c) (seg_events s) = true) /\
      (forall pre s0 post,
         seg_events s = (pre ++ sleep s0 Cooldown :: post)%list ->
         s0 = c /\ 0 < c /\
         (exists pre',
            pre = (pre' ++ [create_run_summary
                              (generate_run_id self (seg_env s)
                                 (seg_users s))])%list) /\
         existsb is_cooldown pre = false /\
         existsb is_cooldown post = false)) segs.
Proof.
  destruct (run_benchmark_suite_report self envs user_counts d c w)
    as (w' & segs & Hrun & Hw' & Hu & _ & Hall).
  exists (forallb seg_passed segs), w', segs.
  split; [exact Hrun |]. split; [exact Hw' |]. split; [exact Hu |].
  eapply Forall_impl; [| exact Hall].
  intros s (Hs & Ht & [_ Htrue _ _ _ _]).
  split; [exact Hs |]. split; [exact Ht |]. split.
  - intros Hp Hc. apply Htrue; assumption.
  - exact (run_single_test_cooldown _ _ _ _ _ _ _ _ Hs Ht).
Qed.

(** *** Calls that raise *)






















End Methods.

(** ** A run whose summary cannot be written *)

Local Open Scope string_scope.

(** Locust runs for twelve seconds and exits with code 0, and the
    database refuses the summary. *)
Definition no_summary : env :=
  {| utcnow := "20260101_120000";
     raises := fun ev _ => match ev with
                           | create_run_summary _ =>
                               Some (ExternalError "database is gone")
                           | _ => None
                           end;
     lifetime := Some 12;
     exit_code := 0;
     obeys_sigterm := true;
     files := fun _ => Some LocustCollector.posts_stats;
     published := CollectorClient.scenario2 |}.

(** What is left of the run once the sleeps, the polling and the calls
    on the collector are put aside. *)
Definition outline (ev : event) : bool :=
  match ev with
  | create_benchmark_run _ _ _ _ _ _ | create_run_summary _
  | sleep _ Cooldown | collector_exit | log_benchmark_failed _
  | log_force_stopping | process_terminate | process_wait 10
  | process_kill => true
  | _ => false
  end.

(** The exception of [create_run_summary] is caught: the test skips the
    cooldown, leaves the collector, logs the failure, stops locust and
    returns [False]. *)
Lemma a_summary_that_raises_fails_the_run :
  exists w',
    @run_single_test LocustCollector.decimal_parsers bench
       no_summary 50 10 30 fresh = Some (Ret false, w') /\
    locust_process w' = None /\
    filter outline (trace w') =
      [ create_benchmark_run "bad-barber_stage0_u50_20260101_120000"
          "bad-barber" 0 50 10 "http://localhost:3020";
        create_run_summary "bad-barber_stage0_u50_20260101_120000";
        collector_exit;
        log_benchmark_failed (ExternalError "database is gone");
        log_force_stopping; process_terminate; process_wait 10 ].
Proof.
  eexists. split; [vm_compute; reflexivity |].
  split; vm_compute; reflexivity.
Qed.

End SuiteFacts.

(* ================================================================== *)
(** * The run id                                                       *)
(* ================================================================== *)

Module RunIdExtras.
Import Py BenchmarkRunner.
Local Open Scope string_scope.

Lemma append_cancel_l (a x y : string) : a ++ x = a ++ y -> x = y.
Proof.
  induction a as [| c a IH]; cbn [append]; intros H; [exact H |].
  injection H as H. auto.
Qed.

Lemma append_same_length (a a' x y : string) :
  String.length a = String.length a' ->
  a ++ x = a' ++ y -> a = a' /\ x = y.
Proof.
  revert a'. induction a as [| c a IH]; intros [| c' a'] Hl H;
    try discriminate.
  - auto.
  - cbn in Hl, H. injection Hl as Hl. injection H as -> H.
    destruct (IH a' Hl H) as (-> & ->). auto.
Qed.

Lemma length_append (a b : string) :
  String.length (a ++ b) = (String.length a + String.length b)%nat.
Proof.
  induction a as [| c a IH]; cbn; [reflexivity | rewrite IH; reflexivity].
Qed.

Lemma to_int_normal (n : Z) :
  Z.to_int n <> Decimal.Pos Decimal.Nil /\
  Z.to_int n <> Decimal.Neg Decimal.Nil.
Proof.
  assert (E : Z.to_int n = Decimal.norm (Z.to_int n))
    by (rewrite <- DecimalZ.to_of, DecimalZ.of_to; reflexivity).
  rewrite E. clear E.
  destruct (Z.to_int n) as [d | d]; cbn [Decimal.norm].
  - split; [| discriminate]. unfold Decimal.unorm.
    destruct (Decimal.nzhead d) eqn:E; try discriminate.
  - destruct (Decimal.nzhead d) eqn:E; split; try discriminate.
    all: intros H; injection H as H; discriminate.
Qed.

(** [str] tells two integers apart. *)
Lemma str_inj (n n' : Z) : str n = str n' -> n = n'.
Proof.
  unfold str. intros H.
  destruct (to_int_normal n) as (Hp & Hn).
  destruct (to_int_normal n') as (Hp' & Hn').
  apply DecimalZ.to_int_inj.
  pose proof (NilZero.isi (Z.to_int n) Hp Hn) as E.
  pose proof (NilZero.isi (Z.to_int n') Hp' Hn') as E'.
  rewrite H in E. congruence.
Qed.

Section Methods.
Variable self : runner.

(** X18.  Two runs of one runner get the same id only when they are for
    the same number of users and start within the same second. *)
Theorem generate_run_id_tells_runs_apart (e e' : env) (u u' : Z) :
  String.length (utcnow e) = String.length (utcnow e') ->
  generate_run_id self e u = generate_run_id self e' u' ->
  u = u' /\ utcnow e = utcnow e'.
Proof.
  unfold generate_run_id. intros Hl H.
  do 4 apply append_cancel_l in H.
  assert (Hlen : String.length (str u) = String.length (str u')).
  { apply (f_equal String.length) in H. rewrite !length_append in H.
    cbn [String.length] in H. lia. }
  apply append_same_length in H; [| exact Hlen].
  destruct H as (Hu & H). apply (append_cancel_l "_") in H.
  split; [apply str_inj, Hu | exact H].
Qed.

End Methods.

Lemma generate_run_id_tells_runs_apart_witness :
  generate_run_id bench (calm None 0) 50
    = "bad-barber_stage0_u50_20260101_120000" /\
  generate_run_id bench (calm (Some 12) 1) 50
    = "bad-barber_stage0_u50_20260101_120000" /\
  50 = 50 /\ utcnow (calm None 0) = utcnow (calm (Some 12) 1).
Proof.
  split; [reflexivity |]. split; [reflexivity |].
  exact (generate_run_id_tells_runs_apart bench (calm None 0)
           (calm (Some 12) 1) 50 50 eq_refl eq_refl).
Defined.

End RunIdExtras.

(* ================================================================== *)
(** * The command line                                                 *)
(* ================================================================== *)

Module MainFacts.
Import Py PyFacts LocustCollector Main.
Local Open Scope string_scope.

(** [",".join(pieces)] *)
Fixpoint join_comma (pieces : list string) : string :=
  match pieces with
  | [] => ""
  | [piece] => piece
  | piece :: rest => piece ++ "," ++ join_comma rest
  end.

Definition comma_free (s : string) : Prop :=
  forall c, In c (list_ascii_of_string s) -> c <> ","%char.

Lemma split_comma_nonempty (s : string) : split_comma s <> [].
Proof.
  induction s as [| c s IH]; cbn [split_comma]; [discriminate |].
  destruct (Ascii.eqb c ","); [discriminate |].
  destruct (split_comma s); discriminate.
Qed.

Lemma split_comma_free (s : string) :
  comma_free s -> split_comma s = [s].
Proof.
  induction s as [| c s IH]; intros H; cbn [split_comma]; [reflexivity |].
  destruct (Ascii.eqb c ",") eqn:E.
  - apply Ascii.eqb_eq in E. exfalso.
    apply (H c); [left; reflexivity | exact E].
  - rewrite IH; [reflexivity |]. intros c' Hc'. apply H. right. exact Hc'.
Qed.

Lemma split_comma_append (a b : string) :
  comma_free a ->
  split_comma (a ++ "," ++ b) = a :: split_comma b.
Proof.
  induction a as [| c a IH]; intros H; cbn [append split_comma].
  - reflexivity.
  - destruct (Ascii.eqb c ",") eqn:E.
    + apply Ascii.eqb_eq in E. exfalso.
      apply (H c); [left; reflexivity | exact E].
    + cbn [append] in IH. rewrite IH; [reflexivity |].
      intros c' Hc'. apply H. right. exact Hc'.
Qed.

Lemma split_comma_join (pieces : list string) :
  pieces <> [] -> Forall comma_free pieces ->
  split_comma (join_comma pieces) = pieces.
Proof.
  induction pieces as [| p rest IH]; intros Hne Hall; [contradiction |].
  inversion Hall as [| ? ? Hp Hrest]; subst.
  destruct rest as [| q rest'].
  - cbn [join_comma]. apply split_comma_free, Hp.
  - change (join_comma (p :: q :: rest'))
      with (p ++ "," ++ join_comma (q :: rest')).
    rewrite split_comma_append by exact Hp.
    rewrite IH; [reflexivity | discriminate | exact Hrest].
Qed.

Section Users.
Context {parsers : StrParsers}.

Lemma ints_of_length (pieces : list string) (ns : list Z) :
  ints_of pieces = Ret ns -> length ns = length pieces.
Proof.
  revert ns. induction pieces as [| u rest IH]; intros ns H; cbn [ints_of] in H.
  - injection H as <-. reflexivity.
  - apply obind_ret_inv in H. destruct H as (n & _ & H).
    apply obind_ret_inv in H. destruct H as (ns' & Hns & H).
    injection H as <-. cbn [length]. rewrite (IH ns' Hns). reflexivity.
Qed.

Lemma ints_of_raises (pieces : list string) (x : exn) :
  ints_of pieces = Raise x -> x = ValueError.
Proof.
  induction pieces as [| u rest IH]; cbn [ints_of]; [discriminate |].
  cbn [py_int]. destruct (int_of_str (strip u)); cbn [obind].
  - destruct (ints_of rest) as [ns | y]; cbn [obind]; [discriminate |].
    intros H. injection H as <-. apply IH. reflexivity.
  - intros H. injection H as <-. reflexivity.
Qed.

(** X19.  What [main] makes of [--users]: the argument is cut at its
    commas, and each piece, stripped, goes through [int], so that the
    list of user counts has one entry per piece and is never empty.  The
    one exception the conversion can raise is the [ValueError] that
    [main] turns into exit code 1. *)
Theorem user_counts_of_the_pieces (pieces : list string) :
  pieces <> [] ->
  Forall comma_free pieces ->
  user_counts (join_comma pieces) = ints_of pieces /\
  match user_counts (join_comma pieces) with
  | Ret ns => length ns = length pieces /\ ns <> []
  | Raise x => x = ValueError
  end.
Proof.
  intros Hne Hall. unfold user_counts.
  rewrite split_comma_join by assumption. split; [reflexivity |].
  destruct (ints_of pieces) as [ns | x] eqn:E.
  - pose proof (ints_of_length pieces ns E) as Hlen.
    split; [exact Hlen |]. intros ->. destruct pieces; [contradiction |].
    discriminate.
  - exact (ints_of_raises pieces x E).
Qed.

End Users.

Lemma user_counts_of_the_pieces_witness :
  join_comma ["10"; " 20 "; "50"] = "10, 20 ,50" /\
  @user_counts decimal_parsers "10, 20 ,50" = Ret [10; 20; 50]%Z /\
  @user_counts decimal_parsers (join_comma ["10"; " 20 "; "50"])
    = @ints_of decimal_parsers ["10"; " 20 "; "50"] /\
  match @user_counts decimal_parsers (join_comma ["10"; " 20 "; "50"]) with
  | Ret ns => length ns = length ["10"; " 20 "; "50"] /\ ns <> []
  | Raise x => x = ValueError
  end.
Proof.
  split; [reflexivity |]. split; [vm_compute; reflexivity |].
  apply (@user_counts_of_the_pieces decimal_parsers ["10"; " 20 "; "50"]).
  - discriminate.
  - repeat constructor; intros c Hc; cbn in Hc;
      decompose [or] Hc; try contradiction; subst; discriminate.
Defined.

End MainFacts.
